(** * Data Quality Monitor: rule engine, checkers and column profiler

    A shallow embedding of [src/quality_monitor.py] (class
    [DataQualityMonitor]) and the properties its specification states.

    Modelling conventions.
    - Python floats and SQLite's doubles are idealised as exact rationals
      ([Q]); a count is a [nat].  Statements are kept to what rounding does
      not change: counts, signs, bounds by 0 and 100, presence and absence
      of a value.
    - A SQLite cell is [VNull], an integer or a text; REAL cells (floating
      point) are not represented.  Where the comparison of two cells depends
      on the declared types of their columns, a statement says which cells
      it is about.
    - The database is a list of named tables.  The checkers open connections
      of their own, so during a run they read the database as it was
      committed before the run; the rows the run inserts into
      [quality_results] are kept apart, as the list the engine appends to.
      The wall-clock [check_date] column is not represented in the engine.
    - The rules of [quality_rules] are fetched in ascending order of
      [rule_id], the order in which SQLite scans the table.
    - A Python exception is a value of type [exn]; fallible code lives in the
      error monad [result].
    - Table and column names are plain identifiers, written as the schema
      declares them and looked up by name; the threshold of a rule is a
      number. *)

From Stdlib Require Import ZArith QArith Qminmax String Ascii List Bool.
From Stdlib Require Import DecimalString Sorted Lia.
Import ListNotations.

Local Open Scope list_scope.
Local Open Scope string_scope.

(* ------------------------------------------------------------------ *)
(** ** Exceptions and the error monad *)

Inductive exn : Type :=
| ValueError (msg : string)            (* raised by _validate_table_name *)
| OperationalError (msg : string)      (* sqlite3: no such column / table *)
| TypeError (msg : string)             (* re.match(None, ...) *)
| ReError (msg : string).              (* re.error: malformed pattern *)

(** [str(e)] *)
Definition str_exn (e : exn) : string :=
  match e with
  | ValueError m | OperationalError m | TypeError m | ReError m => m
  end.

Definition result (A : Type) : Type := (exn + A)%type.

Definition ret {A} (a : A) : result A := inr a.
Definition raise {A} (e : exn) : result A := inl e.
Definition bind {A B} (c : result A) (k : A -> result B) : result B :=
  match c with
  | inl e => inl e
  | inr a => k a
  end.

Declare Scope result_scope.
Delimit Scope result_scope with result.
Notation "x <- c ;; k" := (bind c (fun x => k))
  (at level 61, c at next level, right associativity) : result_scope.
Notation "c ;;; k" := (bind c (fun _ => k))
  (at level 61, right associativity) : result_scope.
Local Open Scope result_scope.

(* ------------------------------------------------------------------ *)
(** ** Cells, tables, database *)

Inductive value : Type :=
| VNull
| VInt (z : Z)
| VText (s : string).

Definition value_eqb (a b : value) : bool :=
  match a, b with
  | VNull, VNull => true
  | VInt x, VInt y => Z.eqb x y
  | VText x, VText y => String.eqb x y
  | _, _ => false
  end.

(** [x IS NULL] and [x IS NOT NULL] *)
Definition is_null (v : value) : bool :=
  match v with VNull => true | _ => false end.
Definition is_not_null (v : value) : bool := negb (is_null v).

(** [x = ''] : true for the empty text only (a comparison with NULL is
    NULL, a number never equals a text). *)
Definition is_empty_text (v : value) : bool :=
  match v with VText s => String.eqb s "" | _ => false end.

(** [x IS NULL OR x = ''] *)
Definition is_null_or_empty (v : value) : bool :=
  is_null v || is_empty_text v.

(** [x IS NOT NULL AND x != ''] *)
Definition is_not_null_nor_empty (v : value) : bool :=
  is_not_null v && negb (is_empty_text v).

Record table : Type := {
  columns : list (string * string);   (* PRAGMA table_info: name, declared type *)
  rows : list (list value)
}.

(** The database as [sqlite_master] lists it: table name, table. *)
Definition database : Type := list (string * table).

Fixpoint lookup_table (db : database) (name : string) : option table :=
  match db with
  | [] => None
  | (n, t) :: db' => if String.eqb n name then Some t else lookup_table db' name
  end.

Fixpoint column_index (cols : list (string * string)) (name : string) : option nat :=
  match cols with
  | [] => None
  | (n, _) :: cols' =>
      if String.eqb n name then Some 0%nat
      else option_map S (column_index cols' name)
  end.

(** Python's [f"{x}"] of a value that may be [None]. *)
Definition py_str_opt (o : option string) : string :=
  match o with Some s => s | None => "None" end.

(** [_validate_table_name]: the name must be one of the tables of
    [sqlite_master]; [None] is never a member. *)
Definition _validate_table_name (db : database) (table_name : option string) : result unit :=
  match table_name with
  | Some n =>
      match lookup_table db n with
      | Some _ => ret tt
      | None => raise (ValueError ("Invalid table name: " ++ n))
      end
  | None => raise (ValueError "Invalid table name: None")
  end.

(** [SELECT ... FROM {table}]: the table the statement reads. *)
Definition from_table (db : database) (name : string) : result table :=
  match lookup_table db name with
  | Some t => ret t
  | None => raise (OperationalError ("no such table: " ++ name))
  end.

(** [SELECT {column} FROM {table}]: the cells of one column, one per row, in
    row order; a name that is not a column is an [OperationalError].  [qual]
    is the alias prefix the statement writes before the column, if any.  The
    name is looked up as the schema spells it: SQLite also accepts the same
    name in another case and the aliases of the row id, which this lookup
    does not resolve. *)
Definition select_column (qual : string) (t : table) (column : string) : result (list value) :=
  match column_index (columns t) column with
  | Some i => ret (map (fun row => nth i row VNull) (rows t))
  | None => raise (OperationalError ("no such column: " ++ qual ++ column))
  end.

(** [SELECT COUNT( * ) FROM ... WHERE p(column)] *)
Definition count_where (p : value -> bool) (vs : list value) : nat :=
  length (filter p vs).

(** [COUNT(DISTINCT column)] over the selected cells: the first occurrence of
    each value is kept. *)
Fixpoint distinct (vs : list value) : list value :=
  match vs with
  | [] => []
  | v :: vs' => v :: filter (fun w => negb (value_eqb v w)) (distinct vs')
  end.

Definition count_distinct_not_null (vs : list value) : nat :=
  length (distinct (filter is_not_null vs)).

(* ------------------------------------------------------------------ *)
(** ** Numbers and their display *)

Definition Q_of_nat (n : nat) : Q := inject_Z (Z.of_nat n).

(** [a / b * 100] on two counts.  Every call below is guarded by [b > 0]
    (or by a non-empty list of length [b]), so Python never divides by 0. *)
Definition pct (a b : nat) : Q := (Q_of_nat a / Q_of_nat b * 100)%Q.

(** [f"{n}"] of a count and [str] of an integer cell. *)
Definition str_nat (n : nat) : string := NilZero.string_of_uint (Nat.to_uint n).
Definition str_Z (z : Z) : string := NilZero.string_of_int (Z.to_int z).

(** Nearest integer, ties to even. *)
Definition round_half_even (q : Q) : Z :=
  let n := Qnum q in
  let d := Zpos (Qden q) in
  let fl := (n / d)%Z in
  let r2 := (2 * (n mod d))%Z in
  if (r2 <? d)%Z then fl
  else if (d <? r2)%Z then (fl + 1)%Z
  else if Z.even fl then fl else (fl + 1)%Z.

Definition two_digits (z : Z) : string :=
  if (z <? 10)%Z then "0" ++ str_Z z else str_Z z.

(** [f"{q:.2f}"]: [q] rounded to two decimals. *)
Definition format_2f (q : Q) : string :=
  let k := Z.abs (round_half_even (q * 100)) in
  (if (Qnum q <? 0)%Z then "-" else "")
    ++ str_Z (k / 100) ++ "." ++ two_digits (k mod 100).

Inductive status_t : Type := PASS | FAIL | ERROR.

(** ['PASS' if metric <= threshold else 'FAIL'] *)
Definition status_of (metric threshold : Q) : status_t :=
  if Qle_bool metric threshold then PASS else FAIL.

(* ------------------------------------------------------------------ *)
(** ** Python's [re.match]

    A model of the fragment of Python's [re] that the shipped rules use:
    literals, [.], escapes ([\d \w \s] and their complements, escaped
    punctuation), character sets with ranges and negation, the anchors [^]
    and [$], groups, alternation, and the quantifiers [* + ? {m} {m,} {m,n}]
    (a lazy [?] suffix does not change whether a match exists).  Patterns
    are read over 8-bit characters without flags, and the classes hold
    ASCII characters only.  Word-boundary assertions, back-references,
    look-around, named groups, inline flags and possessive quantifiers are
    outside the fragment and are reported as [ReError]; the text of a
    [ReError] does not carry the position Python appends to it. *)
Module Re.

Local Open Scope char_scope.

Definition range : Type := (ascii * ascii)%type.

Inductive regex : Type :=
| REps
| RSet (neg : bool) (ranges : list range)
| RBol
| REol
| RSeq (r1 r2 : regex)
| RAlt (r1 r2 : regex)
| RRepeat (r : regex) (lo : nat) (hi : option nat).

Definition newline : ascii := "010".

Definition in_range (c : ascii) (r : range) : bool :=
  (nat_of_ascii (fst r) <=? nat_of_ascii c)%nat
  && (nat_of_ascii c <=? nat_of_ascii (snd r))%nat.

Definition in_set (neg : bool) (ranges : list range) (c : ascii) : bool :=
  xorb neg (existsb (in_range c) ranges).

(** [$] without MULTILINE: at the end of the string, or just before a
    newline that ends it. *)
Definition at_end (s : list ascii) : bool :=
  match s with
  | [] => true
  | [c] => Ascii.eqb c newline
  | _ => false
  end.

(** Backtracking matcher in continuation-passing style.  [bol] tells whether
    the position is the start of the string, [s] is the remaining input and
    [k] is what must match afterwards. *)
Fixpoint rmatch (r : regex) (bol : bool) (s : list ascii)
         (k : bool -> list ascii -> bool) {struct r} : bool :=
  match r with
  | REps => k bol s
  | RSet neg ranges =>
      match s with
      | [] => false
      | c :: s' => if in_set neg ranges c then k false s' else false
      end
  | RBol => bol && k bol s
  | REol => at_end s && k bol s
  | RSeq r1 r2 => rmatch r1 bol s (fun b s' => rmatch r2 b s' k)
  | RAlt r1 r2 => rmatch r1 bol s k || rmatch r2 bol s k
  | RRepeat r1 lo hi =>
      (fix rep (fuel lo : nat) (hi : option nat) (bol : bool) (s : list ascii)
           {struct fuel} : bool :=
         match fuel with
         | O => false
         | S fuel' =>
             let again :=
               match hi with
               | Some O => false
               | _ => rmatch r1 bol s
                        (fun b s' => rep fuel' (Nat.pred lo) (option_map Nat.pred hi) b s')
               end in
             again || ((lo =? 0)%nat && k bol s)
         end) (S (lo + length s)) lo hi bol s
  end.

(** *** Reading a pattern *)

Definition digit_set : list range := [("0", "9")].
Definition word_set : list range := [("a", "z"); ("A", "Z"); ("0", "9"); ("_", "_")].
Definition space_set : list range := [(" ", " "); ("009", "013")].
Definition lit (c : ascii) : regex := RSet false [(c, c)].
Definition any_char : regex := RSet true [(newline, newline)].

Definition is_digit (c : ascii) : bool := in_range c ("0", "9").
Definition is_alnum (c : ascii) : bool :=
  existsb (in_range c) [("a", "z"); ("A", "Z"); ("0", "9")].

(** The character after a backslash: a class, or the literal it stands for. *)
Definition parse_escape (c : ascii) : result (bool * list range) :=
  if Ascii.eqb c "d" then ret (false, digit_set)
  else if Ascii.eqb c "D" then ret (true, digit_set)
  else if Ascii.eqb c "w" then ret (false, word_set)
  else if Ascii.eqb c "W" then ret (true, word_set)
  else if Ascii.eqb c "s" then ret (false, space_set)
  else if Ascii.eqb c "S" then ret (true, space_set)
  else if Ascii.eqb c "n" then ret (false, [(newline, newline)])
  else if Ascii.eqb c "t" then ret (false, [("009", "009")])
  else if Ascii.eqb c "r" then ret (false, [("013", "013")])
  else if is_alnum c then raise (ReError "bad escape")
  else ret (false, [(c, c)]).

(** The members of a set, after [[] or [[^]; [first] is true before the
    first member, where a closing bracket is a literal. *)
Fixpoint parse_set_items (fuel : nat) (first : bool) (p : list ascii)
         (acc : list range) : result (list range * list ascii) :=
  match fuel with
  | O => raise (ReError "unterminated character set")
  | S fuel' =>
      match p with
      | [] => raise (ReError "unterminated character set")
      | c :: rest =>
          if Ascii.eqb c "]" && negb first then ret (acc, rest)
          else if Ascii.eqb c "\" then
            match rest with
            | [] => raise (ReError "bad escape (end of pattern)")
            | e :: rest' =>
                cls <- parse_escape e ;;
                if fst cls then raise (ReError "negated class inside a set")
                else parse_set_items fuel' false rest' (acc ++ snd cls)
            end
          else
            match rest with
            | d :: hi :: rest' =>
                if Ascii.eqb d "-" && negb (Ascii.eqb hi "]") then
                  if Ascii.eqb hi "\" then raise (ReError "escaped range bound")
                  else if (nat_of_ascii hi <? nat_of_ascii c)%nat
                       then raise (ReError "bad character range")
                       else parse_set_items fuel' false rest' (acc ++ [(c, hi)])
                else parse_set_items fuel' false rest (acc ++ [(c, c)])
            | _ => parse_set_items fuel' false rest (acc ++ [(c, c)])
            end
      end
  end.

Definition parse_set (p : list ascii) : result (regex * list ascii) :=
  let (neg, p') :=
    match p with
    | c :: rest => if Ascii.eqb c "^" then (true, rest) else (false, p)
    | [] => (false, p)
    end in
  res <- parse_set_items (S (length p')) true p' [] ;;
  ret (RSet neg (fst res), snd res).

Fixpoint parse_number (p : list ascii) (acc : option nat) : option nat * list ascii :=
  match p with
  | c :: rest =>
      if is_digit c then
        parse_number rest
          (Some (10 * match acc with Some n => n | None => 0 end
                 + (nat_of_ascii c - 48))%nat)
      else (acc, p)
  | [] => (acc, p)
  end.

(** The bounds after an opening brace; [None] when the brace is a literal. *)
Definition parse_braces (p : list ascii)
  : option (result (nat * option nat * list ascii)) :=
  let (lo, p1) := parse_number p None in
  let '(hi, p2) :=
    match p1 with
    | c :: rest => if Ascii.eqb c "," then parse_number rest None else (lo, p1)
    | [] => (lo, p1)
    end in
  match p2 with
  | c :: rest =>
      if Ascii.eqb c "}" then
        match p with
        | c0 :: _ =>
            if Ascii.eqb c0 "}" then None
            else
              let l := match lo with Some n => n | None => 0%nat end in
              match hi with
              | Some h =>
                  if (h <? l)%nat
                  then Some (raise (ReError "min repeat greater than max repeat"))
                  else Some (ret (l, Some h, rest))
              | None => Some (ret (l, None, rest))
              end
        | [] => None
        end
      else None
  | [] => None
  end.

Definition starts_quantifier (p : list ascii) : bool :=
  match p with
  | c :: rest =>
      Ascii.eqb c "*" || Ascii.eqb c "+" || Ascii.eqb c "?"
      || (Ascii.eqb c "{" && match parse_braces rest with Some _ => true | None => false end)
  | [] => false
  end.

(** The quantifier after an atom, if any. *)
Definition parse_quant (a : regex) (repeatable : bool) (p : list ascii)
  : result (regex * list ascii) :=
  let found : option (result (nat * option nat * list ascii)) :=
    match p with
    | c :: rest =>
        if Ascii.eqb c "*" then Some (ret (0%nat, None, rest))
        else if Ascii.eqb c "+" then Some (ret (1%nat, None, rest))
        else if Ascii.eqb c "?" then Some (ret (0%nat, Some 1%nat, rest))
        else if Ascii.eqb c "{" then parse_braces rest
        else None
    | [] => None
    end in
  match found with
  | None => ret (a, p)
  | Some q =>
      b <- q ;;
      let '(lo, hi, rest) := b in
      if negb repeatable then raise (ReError "nothing to repeat")
      else
        let rest' :=
          match rest with
          | c :: r => if Ascii.eqb c "?" then r else rest
          | [] => rest
          end in
        if starts_quantifier rest' then raise (ReError "multiple repeat")
        else ret (RRepeat a lo hi, rest')
  end.

Fixpoint parse_alt (fuel : nat) (p : list ascii) {struct fuel}
  : result (regex * list ascii) :=
  match fuel with
  | O => raise (ReError "pattern too long")
  | S f =>
      a <- parse_seq f p ;;
      match snd a with
      | c :: rest =>
          if Ascii.eqb c "|" then
            b <- parse_alt f rest ;;
            ret (RAlt (fst a) (fst b), snd b)
          else ret a
      | [] => ret a
      end
  end
with parse_seq (fuel : nat) (p : list ascii) {struct fuel}
  : result (regex * list ascii) :=
  match fuel with
  | O => raise (ReError "pattern too long")
  | S f =>
      match p with
      | [] => ret (REps, p)
      | c :: _ =>
          if Ascii.eqb c "|" || Ascii.eqb c ")" then ret (REps, p)
          else
            a <- parse_atom f p ;;
            q <- parse_quant (fst (fst a)) (snd (fst a)) (snd a) ;;
            tl <- parse_seq f (snd q) ;;
            ret (RSeq (fst q) (fst tl), snd tl)
      end
  end
with parse_atom (fuel : nat) (p : list ascii) {struct fuel}
  : result (regex * bool * list ascii) :=
  match fuel with
  | O => raise (ReError "pattern too long")
  | S f =>
      match p with
      | [] => raise (ReError "unexpected end of pattern")
      | c :: rest =>
          if Ascii.eqb c "^" then ret (RBol, false, rest)
          else if Ascii.eqb c "$" then ret (REol, false, rest)
          else if Ascii.eqb c "." then ret (any_char, true, rest)
          else if starts_quantifier p then raise (ReError "nothing to repeat")
          else if Ascii.eqb c "[" then
            s <- parse_set rest ;; ret (fst s, true, snd s)
          else if Ascii.eqb c "\" then
            match rest with
            | [] => raise (ReError "bad escape (end of pattern)")
            | e :: rest' =>
                cls <- parse_escape e ;;
                ret (RSet (fst cls) (snd cls), true, rest')
            end
          else if Ascii.eqb c "(" then
            let body :=
              match rest with
              | q :: k :: rest' =>
                  if Ascii.eqb q "?" then
                    if Ascii.eqb k ":" then ret rest'
                    else raise (ReError "unsupported group extension")
                  else ret rest
              | _ => ret rest
              end in
            b <- body ;;
            g <- parse_alt f b ;;
            match snd g with
            | d :: rest' =>
                if Ascii.eqb d ")" then ret (fst g, true, rest')
                else raise (ReError "missing ), unterminated subpattern")
            | [] => raise (ReError "missing ), unterminated subpattern")
            end
          else ret (lit c, true, rest)
      end
  end.

(** [re.compile(pattern)] *)
Definition compile (pattern : string) : result regex :=
  let p := list_ascii_of_string pattern in
  a <- parse_alt (4 * length p + 4) p ;;
  match snd a with
  | [] => ret (fst a)
  | _ => raise (ReError "unbalanced parenthesis")
  end.

(** [re.match(pattern, s)] as a truth value: the pattern matches a prefix of
    [s] starting at position 0.  A pattern that is [None] is a [TypeError]. *)
Definition re_match (pattern : option string) (s : string) : result bool :=
  match pattern with
  | None => raise (TypeError "first argument must be string or compiled pattern")
  | Some p =>
      r <- compile p ;;
      ret (rmatch r true (list_ascii_of_string s) (fun _ _ => true))
  end.

End Re.

(* ------------------------------------------------------------------ *)
(** ** The five checkers *)

(** The dictionary a checker returns. *)
Record check_result : Type := {
  metric_value : Q;
  status : status_t;
  details : string
}.

(** [_check_nulls] *)
Definition _check_nulls (db : database) (table_name column_name : string)
           (threshold : Q) : result check_result :=
  _validate_table_name db (Some table_name) ;;;
  t <- from_table db table_name ;;
  let total_count := length (rows t) in
  vs <- select_column "" t column_name ;;
  let null_count := count_where is_null_or_empty vs in
  let null_percentage :=
    if (0 <? total_count)%nat then pct null_count total_count else 0%Q in
  ret {| metric_value := null_percentage;
         status := status_of null_percentage threshold;
         details := str_nat null_count ++ "/" ++ str_nat total_count
                    ++ " null values (" ++ format_2f null_percentage ++ "%)" |}.

(** [str(value[0])] of a fetched cell. *)
Definition py_str (v : value) : string :=
  match v with
  | VNull => "None"
  | VInt z => str_Z z
  | VText s => s
  end.

(** The loop of [_check_format]: one [re.match] per value, in order. *)
Fixpoint count_invalid (pattern : option string) (values : list value)
         (invalid_count : nat) : result nat :=
  match values with
  | [] => ret invalid_count
  | v :: values' =>
      m <- Re.re_match pattern (py_str v) ;;
      count_invalid pattern values' (if m then invalid_count else S invalid_count)
  end.

(** [_check_format] *)
Definition _check_format (db : database) (table_name column_name : string)
           (pattern : option string) (threshold : Q) : result check_result :=
  _validate_table_name db (Some table_name) ;;;
  t <- from_table db table_name ;;
  vs <- select_column "" t column_name ;;
  let values := filter is_not_null_nor_empty vs in
  match values with
  | [] => ret {| metric_value := 0; status := PASS; details := "No values to check" |}
  | _ :: _ =>
      invalid_count <- count_invalid pattern values 0 ;;
      let invalid_percentage := pct invalid_count (length values) in
      ret {| metric_value := invalid_percentage;
             status := status_of invalid_percentage threshold;
             details := str_nat invalid_count ++ "/" ++ str_nat (length values)
                        ++ " invalid format (" ++ format_2f invalid_percentage ++ "%)" |}
  end.

(** [column < ?] and [column > ?] against a numeric bound: NULL compares to
    nothing; in a column of numeric affinity a text cell sorts after every
    number. *)
Definition sql_lt (v : value) (bound : Q) : bool :=
  match v with
  | VNull => false
  | VInt z => negb (Qle_bool bound (inject_Z z))
  | VText _ => false
  end.

Definition sql_gt (v : value) (bound : Q) : bool :=
  match v with
  | VNull => false
  | VInt z => negb (Qle_bool (inject_Z z) bound)
  | VText _ => true
  end.

(** [_check_range] *)
Definition _check_range (db : database) (table_name column_name : string)
           (min_val max_val : option Q) (threshold : Q) : result check_result :=
  _validate_table_name db (Some table_name) ;;;
  t <- from_table db table_name ;;
  vs <- select_column "" t column_name ;;
  let total_count := count_where is_not_null vs in
  let counted : option nat :=
    match min_val, max_val with
    | Some lo, Some hi => Some (count_where (fun v => sql_lt v lo || sql_gt v hi) vs)
    | Some lo, None => Some (count_where (fun v => sql_lt v lo) vs)
    | None, Some hi => Some (count_where (fun v => sql_gt v hi) vs)
    | None, None => None
    end in
  match counted with
  | None => ret {| metric_value := 0; status := PASS; details := "No range specified" |}
  | Some out_of_range_count =>
      let out_of_range_percentage :=
        if (0 <? total_count)%nat then pct out_of_range_count total_count else 0%Q in
      ret {| metric_value := out_of_range_percentage;
             status := status_of out_of_range_percentage threshold;
             details := str_nat out_of_range_count ++ "/" ++ str_nat total_count
                        ++ " out of range (" ++ format_2f out_of_range_percentage ++ "%)" |}
  end.

(** [_check_uniqueness] *)
Definition _check_uniqueness (db : database) (table_name column_name : string)
           (threshold : Q) : result check_result :=
  _validate_table_name db (Some table_name) ;;;
  t <- from_table db table_name ;;
  vs <- select_column "" t column_name ;;
  let total_count := count_where is_not_null vs in
  let unique_count := count_distinct_not_null vs in
  let duplicate_count := (total_count - unique_count)%nat in
  let duplicate_percentage :=
    if (0 <? total_count)%nat then pct duplicate_count total_count else 0%Q in
  ret {| metric_value := duplicate_percentage;
         status := status_of duplicate_percentage threshold;
         details := str_nat duplicate_count ++ " duplicates ("
                    ++ format_2f duplicate_percentage ++ "%)" |}.

(** [t.c = r.d] in the join condition: two cells that are the same non-null
    value.  This is SQLite's comparison when the two cells are both integers
    or both texts; between an integer and a text SQLite may convert one side
    first, according to the declared types of the columns, which is not
    modelled. *)
Definition sql_eq (v w : value) : bool :=
  is_not_null v && is_not_null w && value_eqb v w.

(** [t LEFT JOIN r ON t.c = r.d], projected on the pair (t.c, r.d): every row
    of [t] is paired with each matching row of [r], or with NULL when none
    matches. *)
Definition left_join (tvs rvs : list value) : list (value * value) :=
  flat_map (fun v =>
              match filter (sql_eq v) rvs with
              | [] => [(v, VNull)]
              | ms => map (fun w => (v, w)) ms
              end) tvs.

(** [WHERE t.c IS NOT NULL AND r.d IS NULL] *)
Definition is_orphan (p : value * value) : bool :=
  is_not_null (fst p) && is_null (snd p).

(** [_check_foreign_key].  SQLite resolves the names of the statement before
    it runs it, and reports [r.{ref_column}] before [t.{column_name}] when
    neither is a column. *)
Definition _check_foreign_key (db : database) (table_name column_name : string)
           (ref_table ref_column : option string) (threshold : Q)
  : result check_result :=
  _validate_table_name db (Some table_name) ;;;
  _validate_table_name db ref_table ;;;
  t <- from_table db table_name ;;
  r <- from_table db (py_str_opt ref_table) ;;
  rvs <- select_column "r." r (py_str_opt ref_column) ;;
  tvs <- select_column "t." t column_name ;;
  let orphan_count := length (filter is_orphan (left_join tvs rvs)) in
  let total_count := count_where is_not_null tvs in
  let orphan_percentage :=
    if (0 <? total_count)%nat then pct orphan_count total_count else 0%Q in
  ret {| metric_value := orphan_percentage;
         status := status_of orphan_percentage threshold;
         details := str_nat orphan_count ++ " orphan records ("
                    ++ format_2f orphan_percentage ++ "%)" |}.

(* ------------------------------------------------------------------ *)
(** ** Rules and the engine *)

(** [config = json.loads(rule_config)] and the keys the engine reads with
    [config.get]: a key that is absent reads as [None].  The stored text,
    when it parses, is a JSON object whose values have the types the shipped
    rules give them: [pattern] a string, [min] and [max] numbers, the
    reference names strings. *)
Record config : Type := {
  pattern : option string;
  min : option Q;
  max : option Q;
  reference_table : option string;
  reference_column : option string
}.

Definition empty_config : config :=
  {| pattern := None; min := None; max := None;
     reference_table := None; reference_column := None |}.

(** The text stored in [quality_rules.rule_config]. *)
Inductive stored_config : Type :=
| ConfigEmpty                          (* NULL or '' : falsy, read as {} *)
| ConfigObject (c : config)            (* a JSON object *)
| ConfigMalformed (msg : string).      (* text that json.loads rejects *)

(** [json.loads(rule_config) if rule_config else {}] *)
Definition load_config (c : stored_config) : result config :=
  match c with
  | ConfigEmpty => ret empty_config
  | ConfigObject c => ret c
  | ConfigMalformed msg => raise (ValueError msg)
  end.

(** A row of [quality_rules]. *)
Record QualityRule : Type := {
  rule_id : Z;
  table_name : string;
  column_name : string;
  rule_type : string;
  rule_config : stored_config;
  threshold_value : Q;
  is_active : bool
}.

(** The [if / elif / else: continue] chain of [run_quality_checks]: [None]
    is [continue]. *)
Definition dispatch (db : database) (rule : QualityRule) (cfg : config)
  : option (result check_result) :=
  let tn := table_name rule in
  let cn := column_name rule in
  let th := threshold_value rule in
  if String.eqb (rule_type rule) "null_check" then
    Some (_check_nulls db tn cn th)
  else if String.eqb (rule_type rule) "format_check" then
    Some (_check_format db tn cn (pattern cfg) th)
  else if String.eqb (rule_type rule) "range_check" then
    Some (_check_range db tn cn (min cfg) (max cfg) th)
  else if String.eqb (rule_type rule) "uniqueness_check" then
    Some (_check_uniqueness db tn cn th)
  else if String.eqb (rule_type rule) "foreign_key_check" then
    Some (_check_foreign_key db tn cn (reference_table cfg) (reference_column cfg) th)
  else None.

(** A row inserted into [quality_results] (without [check_date]). *)
Record stored_result : Type := {
  row_rule_id : Z;
  row_table_name : string;
  row_column_name : string;
  row_metric_value : Q;
  row_threshold_value : Q;
  row_status : status_t;
  row_details : string
}.

(** A dictionary of the returned list. *)
Record quality_result : Type := {
  res_rule_id : Z;
  res_table_name : string;
  res_column_name : string;
  res_rule_type : string;
  res_metric_value : Q;
  res_threshold_value : Q;
  res_status : status_t;
  res_details : string
}.

Definition stored_of (rule : QualityRule) (r : check_result) : stored_result :=
  {| row_rule_id := rule_id rule;
     row_table_name := table_name rule;
     row_column_name := column_name rule;
     row_metric_value := metric_value r;
     row_threshold_value := threshold_value rule;
     row_status := status r;
     row_details := details r |}.

Definition returned_of (rule : QualityRule) (r : check_result) : quality_result :=
  {| res_rule_id := rule_id rule;
     res_table_name := table_name rule;
     res_column_name := column_name rule;
     res_rule_type := rule_type rule;
     res_metric_value := metric_value r;
     res_threshold_value := threshold_value rule;
     res_status := status r;
     res_details := details r |}.

(** The row the [except Exception as e] branch inserts. *)
Definition error_row (rule : QualityRule) (e : exn) : stored_result :=
  {| row_rule_id := rule_id rule;
     row_table_name := table_name rule;
     row_column_name := column_name rule;
     row_metric_value := 0;
     row_threshold_value := threshold_value rule;
     row_status := ERROR;
     row_details := str_exn e |}.

(** [SELECT ... FROM quality_rules WHERE is_active = 1].  [rule_id] is an
    INTEGER PRIMARY KEY, that is the row id under which SQLite keeps the
    rows of the table; the statement has no ORDER BY and the table has no
    index, so it is answered by scanning the table in ascending order of
    the row id.  [store] lists the rows of [quality_rules] in any order, for
    instance that of their insertion; [rowid_scan] is the order of the scan. *)
Fixpoint insert_rule (rule : QualityRule) (rules : list QualityRule)
  : list QualityRule :=
  match rules with
  | [] => [rule]
  | rule' :: rules' =>
      if (rule_id rule <=? rule_id rule')%Z then rule :: rules
      else rule' :: insert_rule rule rules'
  end.

Definition rowid_scan (store : list QualityRule) : list QualityRule :=
  fold_right insert_rule [] store.

Definition fetch_active_rules (store : list QualityRule) : list QualityRule :=
  filter is_active (rowid_scan store).

(** The [for rule in rules] loop.  [results] is the list being returned and
    [txn] the rows inserted so far in the open transaction.  [json.loads]
    runs outside the [try], so an exception of it leaves the loop. *)
Fixpoint run_rules (db : database) (rules : list QualityRule)
         (results : list quality_result) (txn : list stored_result)
  : result (list quality_result * list stored_result) :=
  match rules with
  | [] => ret (results, txn)
  | rule :: rules' =>
      cfg <- load_config (rule_config rule) ;;
      match dispatch db rule cfg with
      | None => run_rules db rules' results txn
      | Some (inr r) =>
          run_rules db rules' (results ++ [returned_of rule r]) (txn ++ [stored_of rule r])
      | Some (inl e) =>
          run_rules db rules' results (txn ++ [error_row rule e])
      end
  end.

(** [run_quality_checks]: the returned list (or the exception that escapes)
    and the contents of [quality_results] afterwards.  [conn.commit()] is
    reached only when the loop ends normally; otherwise the connection is
    closed and the inserted rows are lost.  [db] is the database as
    committed when the run starts, which is what every checker of the run
    reads; [log] is what [quality_results] holds in it. *)
Definition run_quality_checks (db : database) (store : list QualityRule)
           (log : list stored_result)
  : result (list quality_result) * list stored_result :=
  match run_rules db (fetch_active_rules store) [] [] with
  | inr (results, txn) => (inr results, (log ++ txn)%list)
  | inl e => (inl e, log)
  end.

(* ------------------------------------------------------------------ *)
(** ** The column profiler *)

(** The value of [std_dev]: the integer [0] of the [else] branch, or the
    float [variance ** 0.5], kept as the square root of its radicand. *)
Inductive std_dev_t : Type :=
| SdZero
| SdRoot (radicand : Q).

(** A dictionary of the list [profile_data] returns; [None] is [VNull] for
    the extrema. *)
Record column_profile : Type := {
  p_column_name : string;
  p_data_type : string;
  p_total_count : nat;
  p_null_count : nat;
  p_unique_count : nat;
  p_min_value : value;
  p_max_value : value;
  p_avg_value : option Q;
  p_std_dev : option std_dev_t;
  p_null_percentage : Q;
  p_unique_percentage : Q
}.

Definition Qsum (xs : list Q) : Q := fold_right Qplus 0%Q xs.

(** [AVG(e)] over the selected rows: NULL when there is none, otherwise the
    mean, here exact where SQLite adds and divides doubles. *)
Definition sql_avg (xs : list Q) : option Q :=
  match xs with
  | [] => None
  | _ :: _ => Some (Qsum xs / Q_of_nat (length xs))%Q
  end.

(** The order of [MIN] and [MAX]: numbers before texts. *)
Definition value_leb (a b : value) : bool :=
  match a, b with
  | VNull, _ => true
  | _, VNull => false
  | VInt x, VInt y => (x <=? y)%Z
  | VInt _, VText _ => true
  | VText _, VInt _ => false
  | VText x, VText y => String.leb x y
  end.

(** [MIN(e)] and [MAX(e)] over the selected (non-null) rows. *)
Definition sql_min (vs : list value) : value :=
  match vs with
  | [] => VNull
  | v :: vs' => fold_left (fun m w => if value_leb w m then w else m) vs' v
  end.

Definition sql_max (vs : list value) : value :=
  match vs with
  | [] => VNull
  | v :: vs' => fold_left (fun m w => if value_leb m w then w else m) vs' v
  end.

(** [LENGTH(x)] of a non-null cell: the length of its text. *)
Definition sql_length (v : value) : value :=
  VInt (Z.of_nat (String.length (py_str v))).

(** [variance ** 0.5 if variance else 0]: [None] and [0.0] are falsy. *)
Definition std_dev_of (variance : option Q) : std_dev_t :=
  match variance with
  | Some v => if Qeq_bool v 0 then SdZero else SdRoot v
  | None => SdZero
  end.

Definition numeric_types : list string := ["INTEGER"; "REAL"; "DECIMAL"].

Section Profiler.

(** SQLite's reading of a text cell as a number in [AVG] and in arithmetic
    (its leading numeric prefix, 0 when there is none). *)
Variable numeric_of_text : string -> Q.

Definition sql_num (v : value) : Q :=
  match v with
  | VNull => 0
  | VInt z => inject_Z z
  | VText s => numeric_of_text s
  end.

(** [AVG((c - ?) * (c - ?))] with both parameters bound to [avg]. *)
Definition sql_variance (avg : Q) (nonnull : list value) : option Q :=
  sql_avg (map (fun v => (sql_num v - avg) * (sql_num v - avg))%Q nonnull).

(** The body of the [for column in columns] loop of [profile_data], given
    the table's row count and the cells of the column. *)
Definition profile_column (total_count : nat) (column : string * string)
           (vs : list value) : column_profile :=
  let column_name := fst column in
  let data_type := snd column in
  let null_count := count_where is_null_or_empty vs in
  let unique_count := count_distinct_not_null vs in
  let nonnull := filter is_not_null vs in
  let '(min_value, max_value, avg_value, std_dev) :=
    if existsb (String.eqb data_type) numeric_types then
      let avg_value := sql_avg (map sql_num nonnull) in
      let std_dev :=
        match avg_value with
        | Some avg => Some (std_dev_of (sql_variance avg nonnull))
        | None => None
        end in
      (sql_min nonnull, sql_max nonnull, avg_value, std_dev)
    else if String.eqb data_type "TEXT" then
      let lengths := map sql_length nonnull in
      (sql_min lengths, sql_max lengths, sql_avg (map sql_num lengths), None)
    else (VNull, VNull, None, None) in
  {| p_column_name := column_name;
     p_data_type := data_type;
     p_total_count := total_count;
     p_null_count := null_count;
     p_unique_count := unique_count;
     p_min_value := min_value;
     p_max_value := max_value;
     p_avg_value := avg_value;
     p_std_dev := std_dev;
     p_null_percentage :=
       if (0 <? total_count)%nat then pct null_count total_count else 0%Q;
     p_unique_percentage :=
       if (0 <? total_count)%nat then pct unique_count total_count else 0%Q |}.

Fixpoint profile_columns (t : table) (cols : list (string * string))
  : result (list column_profile) :=
  match cols with
  | [] => ret []
  | column :: cols' =>
      vs <- select_column "" t (fst column) ;;
      profiles <- profile_columns t cols' ;;
      ret (profile_column (length (rows t)) column vs :: profiles)
  end.

(** [profile_data] *)
Definition profile_data (db : database) (table_name : string)
  : result (list column_profile) :=
  _validate_table_name db (Some table_name) ;;;
  t <- from_table db table_name ;;
  profile_columns t (columns t).

End Profiler.

(** The mean of a list of numbers, which [AVG] returns over at least one
    row. *)
Definition mean (xs : list Q) : Q := (Qsum xs / Q_of_nat (length xs))%Q.

(* ------------------------------------------------------------------ *)
(** ** Auxiliary definitions for the statements *)

(** The count of out-of-range cells, as the three bounded branches of
    [_check_range] select it. *)
Definition out_of_range (min_val max_val : option Q) (v : value) : bool :=
  match min_val, max_val with
  | Some lo, Some hi => sql_lt v lo || sql_gt v hi
  | Some lo, None => sql_lt v lo
  | None, Some hi => sql_gt v hi
  | None, None => false
  end.


(** The denominator of a rule's metric, as its checker computes it from the
    cells of the column: [total_count] of [_check_nulls] (all rows),
    [len(values)] of [_check_format] (cells neither NULL nor empty), and
    [total_count] of the other three (non-null cells). *)
Definition denominator (rule_type : string) (vs : list value) : nat :=
  if String.eqb rule_type "null_check" then length vs
  else if String.eqb rule_type "format_check"
       then length (filter is_not_null_nor_empty vs)
       else count_where is_not_null vs.

(** The rule types the [if / elif] chain names. *)
Definition known_rule_type (rule_type : string) : bool :=
  existsb (String.eqb rule_type)
    ["null_check"; "format_check"; "range_check"; "uniqueness_check";
     "foreign_key_check"].

(** The stored configuration is text that [json.loads] accepts. *)
Definition config_ok (c : stored_config) : bool :=
  match c with
  | ConfigMalformed _ => false
  | _ => true
  end.

Definition configs_ok (rules : list QualityRule) : Prop :=
  Forall (fun rule => config_ok (rule_config rule) = true) rules.

(** What one iteration of the loop does with a rule whose configuration
    loads: [None] when the rule is skipped, otherwise what its checker
    returned or raised. *)
Definition outcome (db : database) (rule : QualityRule) : option (result check_result) :=
  match load_config (rule_config rule) with
  | inr cfg => dispatch db rule cfg
  | inl _ => None
  end.

(** The rows one iteration inserts and the dictionaries it appends. *)
Definition rows_of (db : database) (rule : QualityRule) : list stored_result :=
  match outcome db rule with
  | Some (inr r) => [stored_of rule r]
  | Some (inl e) => [error_row rule e]
  | None => []
  end.

Definition results_of (db : database) (rule : QualityRule) : list quality_result :=
  match outcome db rule with
  | Some (inr r) => [returned_of rule r]
  | _ => []
  end.

Definition succeeded (db : database) (rule : QualityRule) : bool :=
  match outcome db rule with
  | Some (inr _) => true
  | _ => false
  end.

(** *** Sample data: the examples of the specification *)

Definition column_table (name type : string) (cells : list value) : table :=
  {| columns := [(name, type)]; rows := map (fun v => [v]) cells |}.

Definition sample_db : database :=
  [ ("codes", column_table "code" "TEXT" [VText "123"; VText "12a"; VText ""; VNull]);
    ("people", column_table "age" "INTEGER" [VInt 25; VInt 150; VInt (-5); VInt 40]);
    ("tags", column_table "tag" "TEXT"
               [VText "a"; VText "a"; VText "a"; VText "b"; VText "c"]);
    ("orders", column_table "customer_id" "INTEGER" [VInt 1; VInt 2; VInt 3; VInt 99]);
    ("customers", column_table "id" "INTEGER" [VInt 1; VInt 2; VInt 3]);
    ("notes", column_table "note" "TEXT" [VText ""]);
    ("empty", column_table "x" "INTEGER" []) ].

Definition mk_rule (id : Z) (tn cn rt : string) (c : stored_config) (th : Q)
  : QualityRule :=
  {| rule_id := id; table_name := tn; column_name := cn; rule_type := rt;
     rule_config := c; threshold_value := th; is_active := true |}.

Definition range_0_120 : config :=
  {| pattern := None; min := Some 0%Q; max := Some 120%Q;
     reference_table := None; reference_column := None |}.

Definition digits_pattern : config :=
  {| pattern := Some "^[0-9]+$"; min := None; max := None;
     reference_table := None; reference_column := None |}.

Definition references_customers : config :=
  {| pattern := None; min := None; max := None;
     reference_table := Some "customers"; reference_column := Some "id" |}.

Definition age_rule : QualityRule :=
  mk_rule 7 "people" "age" "range_check" (ConfigObject range_0_120) 5.
Definition code_rule : QualityRule :=
  mk_rule 5 "codes" "code" "format_check" (ConfigObject digits_pattern) 10.
Definition tag_rule : QualityRule :=
  mk_rule 11 "tags" "tag" "uniqueness_check" ConfigEmpty 1.
Definition order_rule : QualityRule :=
  mk_rule 12 "orders" "customer_id" "foreign_key_check"
          (ConfigObject references_customers) 0.
Definition empty_rule : QualityRule :=
  mk_rule 1 "empty" "x" "null_check" ConfigEmpty 5.

(** A rule on a table that does not exist, a rule of a kind the engine does
    not know, and rules whose configuration lacks the keys of their kind. *)
Definition missing_table_rule : QualityRule :=
  mk_rule 1 "missing" "x" "null_check" ConfigEmpty 5.
Definition unknown_kind_rule : QualityRule :=
  mk_rule 2 "people" "age" "freshness_check" ConfigEmpty 5.


(** Three rules put into the store in the order 3, 1, 2. *)
Definition unordered_store : list QualityRule :=
  [ mk_rule 3 "people" "age" "null_check" ConfigEmpty 5;
    mk_rule 1 "tags" "tag" "null_check" ConfigEmpty 5;
    mk_rule 2 "orders" "customer_id" "null_check" ConfigEmpty 5 ].

From Stdlib Require OrderedTypeEx.
From Stdlib Require Import Permutation.

(* ------------------------------------------------------------------ *)
(** ** The summary of the result log

    [get_quality_summary] reads [quality_results] with three statements.
    They depend on [check_date], so here a row of the log carries the text
    its [check_date] was stored as (the ISO text of [datetime.now()]), and
    texts compare byte by byte as in SQLite.  The two cut-off texts are what
    [datetime('now', '-1 day')] and [datetime('now', '-30 days')] evaluate
    to when the statements run. *)

Record logged_result : Type := {
  check_date : string;
  logged : stored_result
}.

(** [WHERE check_date >= cutoff] *)
Definition since (cutoff : string) (log : list logged_result) : list logged_result :=
  filter (fun r => String.leb cutoff (check_date r)) log.

Definition status_eqb (a b : status_t) : bool :=
  match a, b with
  | PASS, PASS | FAIL, FAIL | ERROR, ERROR => true
  | _, _ => false
  end.

(** [SUM(CASE WHEN status = s THEN 1 ELSE 0 END)] over a group. *)
Definition count_status (s : status_t) (g : list logged_result) : nat :=
  length (filter (fun r => status_eqb (row_status (logged r)) s) g).

(** The keys of [GROUP BY key]: each key once, in ascending order (the order
    in which SQLite's sorter yields the groups, and the order [ORDER BY]
    asks for in the second statement). *)
Fixpoint insert_key (k : string) (ks : list string) : list string :=
  match ks with
  | [] => [k]
  | k' :: ks' =>
      if String.eqb k k' then ks
      else if String.leb k k' then k :: ks
      else k' :: insert_key k ks'
  end.

Definition group_keys (keys : list string) : list string :=
  fold_right insert_key [] keys.

(** A record of [summary]. *)
Record table_summary : Type := {
  sum_table_name : string;
  sum_total_checks : nat;
  sum_passed_checks : nat;
  sum_failed_checks : nat;
  sum_avg_metric_value : option Q
}.

Definition summarize_table (rows : list logged_result) (name : string) : table_summary :=
  let g := filter (fun r => String.eqb (row_table_name (logged r)) name) rows in
  {| sum_table_name := name;
     sum_total_checks := length g;
     sum_passed_checks := count_status PASS g;
     sum_failed_checks := count_status FAIL g;
     sum_avg_metric_value := sql_avg (map (fun r => row_metric_value (logged r)) g) |}.

(** The first statement: the checks of the last day, by table. *)
Definition summary_query (cutoff : string) (log : list logged_result)
  : list table_summary :=
  let rows := since cutoff log in
  map (summarize_table rows)
      (group_keys (map (fun r => row_table_name (logged r)) rows)).

(** [DATE(check_date)] of an ISO text: its first ten characters. *)
Definition sql_date (s : string) : string := substring 0 10 s.

(** [ROUND(x, 2)]: to two decimals, ties away from zero. *)
Definition round_half_away (q : Q) : Z :=
  let n := Qnum q in
  let d := Zpos (Qden q) in
  if (0 <=? n)%Z then ((2 * n + d) / (2 * d))%Z
  else (- ((2 * (- n) + d) / (2 * d)))%Z.

Definition sql_round_2 (q : Q) : Q :=
  (inject_Z (round_half_away (q * 100)) / 100)%Q.

(** A record of [trends]. *)
Record day_trend : Type := {
  trend_check_date : string;
  trend_total_checks : nat;
  trend_passed_checks : nat;
  trend_avg_metric_value : option Q
}.

Definition summarize_day (rows : list logged_result) (day : string) : day_trend :=
  let g := filter (fun r => String.eqb (sql_date (check_date r)) day) rows in
  {| trend_check_date := day;
     trend_total_checks := length g;
     trend_passed_checks := count_status PASS g;
     trend_avg_metric_value :=
       option_map sql_round_2 (sql_avg (map (fun r => row_metric_value (logged r)) g)) |}.

(** The second statement: the checks of the last thirty days, by day, in
    ascending order of the day. *)
Definition trends_query (cutoff : string) (log : list logged_result) : list day_trend :=
  let rows := since cutoff log in
  map (summarize_day rows) (group_keys (map (fun r => sql_date (check_date r)) rows)).

(** [ORDER BY check_date DESC]: insertion in descending order of the text;
    rows with the same text keep the order of the table. *)
Fixpoint insert_desc (r : logged_result) (rs : list logged_result) : list logged_result :=
  match rs with
  | [] => [r]
  | r' :: rs' =>
      if String.leb (check_date r') (check_date r) then r :: rs
      else r' :: insert_desc r rs'
  end.

Definition order_by_check_date_desc (rs : list logged_result) : list logged_result :=
  fold_right insert_desc [] rs.

(** A record of [failed_checks]. *)
Record failed_check : Type := {
  fc_table_name : string;
  fc_column_name : string;
  fc_metric_value : Q;
  fc_threshold_value : Q;
  fc_details : string;
  fc_check_date : string
}.

Definition failed_check_of (r : logged_result) : failed_check :=
  {| fc_table_name := row_table_name (logged r);
     fc_column_name := row_column_name (logged r);
     fc_metric_value := row_metric_value (logged r);
     fc_threshold_value := row_threshold_value (logged r);
     fc_details := row_details (logged r);
     fc_check_date := check_date r |}.

(** [WHERE status = 'FAIL'] *)
Definition failed_rows (log : list logged_result) : list logged_result :=
  filter (fun r => status_eqb (row_status (logged r)) FAIL) log.

(** The third statement: the ten most recent failed checks. *)
Definition failed_checks_query (log : list logged_result) : list failed_check :=
  map failed_check_of (firstn 10 (order_by_check_date_desc (failed_rows log))).

(** The dictionary [get_quality_summary] returns. *)
Record quality_summary : Type := {
  summary : list table_summary;
  trends : list day_trend;
  failed_checks : list failed_check
}.

(** [get_quality_summary] *)
Definition get_quality_summary (one_day_ago thirty_days_ago : string)
           (log : list logged_result) : quality_summary :=
  {| summary := summary_query one_day_ago log;
     trends := trends_query thirty_days_ago log;
     failed_checks := failed_checks_query log |}.

(* ------------------------------------------------------------------ *)
(** ** The HTTP routes

    Each route calls the monitor inside [try] and answers with the JSON of
    the value, or with [{'error': str(e)}] and status 500 when the call
    raises.  The routes are modelled once [main] has created the monitor. *)

Inductive response (A : Type) : Type :=
| Response200 (body : A)
| Response500 (error : string).

Arguments Response200 {A} body.
Arguments Response500 {A} error.

(** [POST /run-checks]: the answer and the contents of [quality_results]
    afterwards. *)
Definition run_checks (db : database) (store : list QualityRule)
           (log : list stored_result)
  : response (list quality_result) * list stored_result :=
  match run_quality_checks db store log with
  | (inr results, log') => (Response200 results, log')
  | (inl e, log') => (Response500 (str_exn e), log')
  end.

(** [GET /profile/<table_name>] *)
Definition profile_table (numeric_of_text : string -> Q) (db : database)
           (table_name : string) : response (list column_profile) :=
  match profile_data numeric_of_text db table_name with
  | inr profiles => Response200 profiles
  | inl e => Response500 (str_exn e)
  end.

(** [GET /quality-summary] *)
Definition quality_summary_route (one_day_ago thirty_days_ago : string)
           (log : list logged_result) : response quality_summary :=
  Response200 (get_quality_summary one_day_ago thirty_days_ago log).

(** *** Auxiliary definitions for the statements *)

(** The fields a returned dictionary shares with the row stored for it. *)
Definition row_of_result (r : quality_result) : stored_result :=
  {| row_rule_id := res_rule_id r;
     row_table_name := res_table_name r;
     row_column_name := res_column_name r;
     row_metric_value := res_metric_value r;
     row_threshold_value := res_threshold_value r;
     row_status := res_status r;
     row_details := res_details r |}.

(** The same rule with another threshold. *)
Definition with_threshold (rule : QualityRule) (th : Q) : QualityRule :=
  {| rule_id := rule_id rule; table_name := table_name rule;
     column_name := column_name rule; rule_type := rule_type rule;
     rule_config := rule_config rule; threshold_value := th;
     is_active := is_active rule |}.

(** A cell that is NULL or an integer. *)
Definition is_null_or_int (v : value) : bool :=
  match v with VText _ => false | _ => true end.

(** An integer cell within the bounds that are given. *)
Definition within_bounds (lo hi : option Q) (z : Z) : Prop :=
  (forall l, lo = Some l -> (l <= inject_Z z)%Q)
  /\ (forall h, hi = Some h -> (inject_Z z <= h)%Q).

(** A key with no equal cell in the referenced column. *)
Definition unmatched (rvs : list value) (v : value) : bool :=
  is_not_null v && negb (existsb (value_eqb v) rvs).

Definition sample_log : list logged_result :=
  [ {| check_date := "2024-05-01 10:00:00.000001";
       logged := {| row_rule_id := 1; row_table_name := "people";
                    row_column_name := "age"; row_metric_value := 50;
                    row_threshold_value := 5; row_status := FAIL;
                    row_details := "2/4 out of range (50.00%)" |} |};
    {| check_date := "2024-05-02 09:30:00.000002";
       logged := {| row_rule_id := 2; row_table_name := "tags";
                    row_column_name := "tag"; row_metric_value := 0;
                    row_threshold_value := 5; row_status := PASS;
                    row_details := "0/5 null values (0.00%)" |} |};
    {| check_date := "2024-05-02 09:30:00.000003";
       logged := {| row_rule_id := 3; row_table_name := "people";
                    row_column_name := "name"; row_metric_value := 0;
                    row_threshold_value := 5; row_status := ERROR;
                    row_details := "no such column: name" |} |} ].

(** A list of texts in strictly ascending order. *)
Definition strictly_ascending (ks : list string) : Prop :=
  StronglySorted (fun a b => String.ltb a b = true) ks.

(** Rows in descending order of their check date. *)
Definition descending (rs : list logged_result) : Prop :=
  StronglySorted (fun a b => String.leb (check_date b) (check_date a) = true) rs.

(** The rows of one group of [GROUP BY key]. *)
Definition group (A : Type) (key : A -> string) (rows : list A) (k : string) : list A :=
  filter (fun r => String.eqb (key r) k) rows.

(** Two results that differ at most in the status, which each takes from its
    own threshold. *)
Definition same_but_threshold (th th' : Q) (c c' : result check_result) : Prop :=
  match c, c' with
  | inr r, inr r' =>
      metric_value r = metric_value r' /\ details r = details r'
      /\ ((status r = status_of (metric_value r) th
           /\ status r' = status_of (metric_value r) th')
          \/ (status r = PASS /\ status r' = PASS))
  | inl e, inl e' => e = e'
  | _, _ => False
  end.

(** The tables the statements of a rule's checker name: the table of the
    rule and, for a foreign-key rule, the reference table of its
    configuration. *)
Definition tables_read (rule : QualityRule) : list string :=
  table_name rule
  :: (if String.eqb (rule_type rule) "foreign_key_check" then
        match load_config (rule_config rule) with
        | inr cfg =>
            match reference_table cfg with
            | Some rt => [rt]
            | None => []
            end
        | inl _ => []
        end
      else []).

(* ------------------------------------------------------------------ *)
(** * Properties *)

(** ** The pattern matcher on the shipped patterns *)

Example re_match_digits_full :
  Re.re_match (Some "^[0-9]+$") "123" = inr true.
Proof. reflexivity. Qed.

Example re_match_digits_trailing :
  Re.re_match (Some "^[0-9]+$") "12a" = inr false.
Proof. reflexivity. Qed.

Example re_match_prefix_only :
  Re.re_match (Some "^[0-9]+") "12a" = inr true.
Proof. reflexivity. Qed.

Example re_match_email :
  Re.re_match (Some "^[\w\.-]+@[\w\.-]+\.[a-zA-Z]{2,}$") "li.wei@email.com" = inr true
  /\ Re.re_match (Some "^[\w\.-]+@[\w\.-]+\.[a-zA-Z]{2,}$") "li.wei@invalid" = inr false.
Proof. split; reflexivity. Qed.

Example re_match_phone :
  Re.re_match (Some "^\+?[1-9]\d{1,14}$") "+1-555-123-4567" = inr false
  /\ Re.re_match (Some "^\+?[1-9]\d{1,14}$") "+15551234567" = inr true.
Proof. split; reflexivity. Qed.

Example re_match_bad_pattern :
  Re.re_match (Some "[0-9") "1" = inl (ReError "unterminated character set").
Proof. reflexivity. Qed.

(** ** Counting *)

Lemma count_where_le (p : value -> bool) (vs : list value) :
  (count_where p vs <= length vs)%nat.
Proof. unfold count_where. apply filter_length_le. Qed.

Lemma count_where_mono (p q : value -> bool) (vs : list value) :
  (forall v, p v = true -> q v = true) ->
  (count_where p vs <= count_where q vs)%nat.
Proof.
  intros Hpq. unfold count_where.
  induction vs as [|v vs IH]; simpl; [lia|].
  destruct (p v) eqn:Hp.
  - rewrite (Hpq v Hp). simpl. lia.
  - destruct (q v); simpl; lia.
Qed.

Lemma count_where_split (p : value -> bool) (vs : list value) :
  (count_where p vs + count_where (fun v => negb (p v)) vs = length vs)%nat.
Proof.
  unfold count_where. induction vs as [|v vs IH]; simpl; [lia|].
  destruct (p v); simpl; lia.
Qed.


Lemma value_eqb_eq (a b : value) : value_eqb a b = true <-> a = b.
Proof.
  destruct a, b; simpl; split; intros H; try congruence; try reflexivity.
  - apply Z.eqb_eq in H. congruence.
  - inversion H. apply Z.eqb_refl.
  - apply String.eqb_eq in H. congruence.
  - inversion H. apply String.eqb_refl.
Qed.


Lemma distinct_length_le (vs : list value) :
  (length (distinct vs) <= length vs)%nat.
Proof.
  induction vs as [|v vs IH]; simpl; [lia|].
  pose proof (filter_length_le (fun w => negb (value_eqb v w)) (distinct vs)). lia.
Qed.



Lemma count_distinct_le_not_null (vs : list value) :
  (count_distinct_not_null vs <= count_where is_not_null vs)%nat.
Proof. unfold count_distinct_not_null, count_where. apply distinct_length_le. Qed.

(** A row of the left table yields an orphan only when its key is not null
    and nothing matches it, and then exactly one. *)
Lemma orphans_of_row (v : value) (rvs : list value) :
  (length (filter is_orphan
             match filter (sql_eq v) rvs with
             | [] => [(v, VNull)]
             | ms => map (fun w => (v, w)) ms
             end) <= if is_not_null v then 1 else 0)%nat.
Proof.
  destruct (filter (sql_eq v) rvs) as [|w ws] eqn:Hm.
  - simpl. unfold is_orphan. simpl. destruct (is_not_null v); simpl; lia.
  - assert (Hall : forall w0, In w0 (w :: ws) -> is_orphan (v, w0) = false).
    { intros w0 Hin. rewrite <- Hm in Hin. apply filter_In in Hin.
      destruct Hin as [_ Heq]. unfold sql_eq in Heq.
      apply andb_true_iff in Heq. destruct Heq as [Heq _].
      apply andb_true_iff in Heq. destruct Heq as [_ Hw].
      unfold is_orphan. simpl. unfold is_not_null in Hw.
      destruct (is_null w0); [discriminate|]. apply andb_false_r. }
    clear Hm.
    assert (Hz : length (filter is_orphan (map (fun w0 => (v, w0)) (w :: ws))) = 0%nat).
    { induction (w :: ws) as [|w1 ws1 IHw]; [reflexivity|].
      cbn [map filter]. rewrite (Hall w1 (or_introl eq_refl)).
      apply IHw. intros w0 Hin. apply Hall. right. exact Hin. }
    rewrite Hz. lia.
Qed.

Lemma orphans_le_not_null (tvs rvs : list value) :
  (length (filter is_orphan (left_join tvs rvs)) <= count_where is_not_null tvs)%nat.
Proof.
  unfold left_join, count_where.
  induction tvs as [|v tvs IH]; [simpl; lia|].
  cbn [flat_map]. rewrite filter_app, length_app.
  pose proof (orphans_of_row v rvs) as Hv.
  cbn [filter]. destruct (is_not_null v); cbn [length]; lia.
Qed.

Lemma count_invalid_bounds (pattern : option string) (values : list value) (k n : nat) :
  count_invalid pattern values k = inr n ->
  (k <= n <= k + length values)%nat.
Proof.
  revert k. induction values as [|v values IH]; simpl; intros k H.
  - inversion H. lia.
  - unfold bind in H. destruct (Re.re_match pattern (py_str v)) as [e|m]; [discriminate|].
    apply IH in H. destruct m; lia.
Qed.

(** ** Percentages *)

Lemma Q_of_nat_pos (n : nat) : (0 < n)%nat -> (0 < Q_of_nat n)%Q.
Proof.
  intros H. unfold Q_of_nat, Qlt. simpl. lia.
Qed.

Lemma Q_of_nat_le (a b : nat) : (a <= b)%nat -> (Q_of_nat a <= Q_of_nat b)%Q.
Proof.
  intros H. unfold Q_of_nat. rewrite <- Zle_Qle. lia.
Qed.

Lemma pct_bounds (a b : nat) :
  (a <= b)%nat -> (0 < b)%nat -> (0 <= pct a b)%Q /\ (pct a b <= 100)%Q.
Proof.
  intros Hab Hb. unfold pct.
  pose proof (Q_of_nat_pos b Hb) as Hpos.
  assert (H0 : (0 <= Q_of_nat a / Q_of_nat b)%Q).
  { apply Qle_shift_div_l; [exact Hpos|]. rewrite Qmult_0_l.
    change 0%Q with (Q_of_nat 0). apply Q_of_nat_le. lia. }
  assert (H1 : (Q_of_nat a / Q_of_nat b <= 1)%Q).
  { apply Qle_shift_div_r; [exact Hpos|]. rewrite Qmult_1_l.
    apply Q_of_nat_le. exact Hab. }
  split.
  - apply Qmult_le_0_compat; [exact H0|]. unfold Qle; simpl; lia.
  - setoid_replace 100%Q with (1 * 100)%Q by reflexivity.
    apply Qmult_le_compat_r; [exact H1|]. unfold Qle; simpl; lia.
Qed.

Lemma guarded_pct_bounds (a b : nat) :
  (a <= b)%nat ->
  (0 <= (if (0 <? b)%nat then pct a b else 0))%Q
  /\ ((if (0 <? b)%nat then pct a b else 0) <= 100)%Q.
Proof.
  intros Hab. destruct (0 <? b)%nat eqn:Hb.
  - apply Nat.ltb_lt in Hb. apply pct_bounds; assumption.
  - split; unfold Qle; simpl; lia.
Qed.

Lemma status_of_pass (m th : Q) : status_of m th = PASS <-> (m <= th)%Q.
Proof.
  unfold status_of. destruct (Qle_bool m th) eqn:H.
  - apply Qle_bool_iff in H. tauto.
  - split; [discriminate|]. intros Hle. apply Qle_bool_iff in Hle. congruence.
Qed.

Lemma status_of_fail (m th : Q) : status_of m th = FAIL <-> ~ (m <= th)%Q.
Proof.
  unfold status_of. destruct (Qle_bool m th) eqn:H.
  - apply Qle_bool_iff in H. split; [discriminate|tauto].
  - split; [|reflexivity]. intros _ Hle. apply Qle_bool_iff in Hle. congruence.
Qed.

Lemma status_of_not_error (m th : Q) : status_of m th <> ERROR.
Proof. unfold status_of. destruct (Qle_bool m th); discriminate. Qed.

(** ** What a checker that returns has computed *)

Ltac inv_bind H :=
  unfold bind in H;
  repeat match type of H with
         | match ?c with inl _ => _ | inr _ => _ end = inr _ =>
             let E := fresh "E" in destruct c eqn:E; [discriminate H|]
         end.

Lemma from_table_inr (db : database) (tn : string) (t : table) :
  from_table db tn = inr t <-> lookup_table db tn = Some t.
Proof.
  unfold from_table. destruct (lookup_table db tn); split; intros H;
    try discriminate; inversion H; reflexivity.
Qed.

Lemma select_column_qual (q1 q2 : string) (t : table) (cn : string) (vs : list value) :
  select_column q1 t cn = inr vs -> select_column q2 t cn = inr vs.
Proof.
  unfold select_column. destruct (column_index (columns t) cn); [tauto|discriminate].
Qed.

Lemma select_column_length (q : string) (t : table) (cn : string) (vs : list value) :
  select_column q t cn = inr vs -> length vs = length (rows t).
Proof.
  unfold select_column. destruct (column_index (columns t) cn); [|discriminate].
  intros H. inversion H. apply length_map.
Qed.

Lemma _check_nulls_inr db tn cn th r :
  _check_nulls db tn cn th = inr r ->
  exists t vs,
    lookup_table db tn = Some t /\ select_column "" t cn = inr vs /\
    let null_count := count_where is_null_or_empty vs in
    let total_count := length vs in
    metric_value r = (if (0 <? total_count)%nat then pct null_count total_count else 0%Q) /\
    status r = status_of (metric_value r) th /\
    details r = str_nat null_count ++ "/" ++ str_nat total_count
                ++ " null values (" ++ format_2f (metric_value r) ++ "%)".
Proof.
  unfold _check_nulls. intros H. inv_bind H.
  apply from_table_inr in E0.
  exists t, l. rewrite (select_column_length _ _ _ _ E1).
  inversion H; subst; clear H. simpl. auto.
Qed.

Lemma _check_format_inr db tn cn pat th r :
  _check_format db tn cn pat th = inr r ->
  exists t vs,
    lookup_table db tn = Some t /\ select_column "" t cn = inr vs /\
    let values := filter is_not_null_nor_empty vs in
    (values = [] /\
     r = {| metric_value := 0; status := PASS; details := "No values to check" |})
    \/
    (values <> [] /\
     exists invalid_count,
       count_invalid pat values 0 = inr invalid_count /\
       (invalid_count <= length values)%nat /\
       metric_value r = pct invalid_count (length values) /\
       status r = status_of (metric_value r) th /\
       details r = str_nat invalid_count ++ "/" ++ str_nat (length values)
                   ++ " invalid format (" ++ format_2f (metric_value r) ++ "%)").
Proof.
  unfold _check_format. intros H. inv_bind H.
  apply from_table_inr in E0.
  exists t, l. split; [exact E0|]. split; [exact E1|].
  destruct (filter is_not_null_nor_empty l) as [|v values] eqn:Hv.
  - left. inversion H. auto.
  - right. split; [discriminate|]. inv_bind H.
    exists n. split; [reflexivity|].
    pose proof (count_invalid_bounds _ _ _ _ E2) as Hb.
    inversion H; subst; clear H. simpl. repeat split; auto. simpl in Hb. lia.
Qed.

Lemma out_of_range_not_null (min_val max_val : option Q) (v : value) :
  out_of_range min_val max_val v = true -> is_not_null v = true.
Proof.
  destruct v; [|reflexivity|reflexivity].
  destruct min_val, max_val; simpl; discriminate.
Qed.

Lemma _check_range_inr db tn cn lo hi th r :
  _check_range db tn cn lo hi th = inr r ->
  exists t vs,
    lookup_table db tn = Some t /\ select_column "" t cn = inr vs /\
    ((lo = None /\ hi = None /\
      r = {| metric_value := 0; status := PASS; details := "No range specified" |})
     \/
     ((lo <> None \/ hi <> None) /\
      let out_of_range_count := count_where (out_of_range lo hi) vs in
      let total_count := count_where is_not_null vs in
      (out_of_range_count <= total_count)%nat /\
      metric_value r =
        (if (0 <? total_count)%nat then pct out_of_range_count total_count else 0%Q) /\
      status r = status_of (metric_value r) th /\
      details r = str_nat out_of_range_count ++ "/" ++ str_nat total_count
                  ++ " out of range (" ++ format_2f (metric_value r) ++ "%)")).
Proof.
  unfold _check_range. intros H. inv_bind H.
  apply from_table_inr in E0.
  exists t, l. split; [exact E0|]. split; [exact E1|].
  assert (Hle : (count_where (out_of_range lo hi) l <= count_where is_not_null l)%nat).
  { apply count_where_mono. apply out_of_range_not_null. }
  destruct lo as [lo|], hi as [hi|]; simpl in H; inversion H; subst; clear H;
    try (right; split; [first [left; discriminate | right; discriminate]|];
         simpl; repeat split; auto; exact Hle).
  left. auto.
Qed.

Lemma _check_uniqueness_inr db tn cn th r :
  _check_uniqueness db tn cn th = inr r ->
  exists t vs,
    lookup_table db tn = Some t /\ select_column "" t cn = inr vs /\
    let total_count := count_where is_not_null vs in
    let duplicate_count := (total_count - count_distinct_not_null vs)%nat in
    metric_value r =
      (if (0 <? total_count)%nat then pct duplicate_count total_count else 0%Q) /\
    status r = status_of (metric_value r) th /\
    details r = str_nat duplicate_count ++ " duplicates ("
                ++ format_2f (metric_value r) ++ "%)".
Proof.
  unfold _check_uniqueness. intros H. inv_bind H.
  apply from_table_inr in E0.
  exists t, l. inversion H; subst; clear H. simpl. auto.
Qed.

Lemma _check_foreign_key_inr db tn cn rt rc th r :
  _check_foreign_key db tn cn rt rc th = inr r ->
  exists t vs ref rvs,
    lookup_table db tn = Some t /\ select_column "" t cn = inr vs /\
    lookup_table db (py_str_opt rt) = Some ref /\
    select_column "" ref (py_str_opt rc) = inr rvs /\
    let orphan_count := length (filter is_orphan (left_join vs rvs)) in
    let total_count := count_where is_not_null vs in
    metric_value r =
      (if (0 <? total_count)%nat then pct orphan_count total_count else 0%Q) /\
    status r = status_of (metric_value r) th /\
    details r = str_nat orphan_count ++ " orphan records ("
                ++ format_2f (metric_value r) ++ "%)".
Proof.
  unfold _check_foreign_key. intros H. inv_bind H.
  apply from_table_inr in E1, E2.
  exists t, l0, t0, l.
  split; [exact E1|]. split; [exact (select_column_qual _ _ _ _ _ E4)|].
  split; [exact E2|]. split; [exact (select_column_qual _ _ _ _ _ E3)|].
  inversion H; subst; clear H. simpl. auto.
Qed.

(** ** The examples of the specification, evaluated *)

Example null_check_20_percent :
  let db := [("t", column_table "c" "TEXT"
                     [VNull; VText ""; VText "a"; VText "b"; VText "c";
                      VText "d"; VText "e"; VText "f"; VText "g"; VText "h"])] in
  exists r, _check_nulls db "t" "c" 5 = inr r
            /\ (metric_value r == 20)%Q /\ status r = FAIL
            /\ details r = "2/10 null values (20.00%)".
Proof. eexists. split; [vm_compute; reflexivity|]. repeat split. Qed.

Example range_check_ages :
  exists r, dispatch sample_db age_rule range_0_120 = Some (inr r)
            /\ (metric_value r == 50)%Q /\ status r = FAIL
            /\ details r = "2/4 out of range (50.00%)".
Proof. eexists. split; [vm_compute; reflexivity|]. repeat split. Qed.

Example uniqueness_check_tags :
  exists r, dispatch sample_db tag_rule empty_config = Some (inr r)
            /\ (metric_value r == 40)%Q /\ status r = FAIL
            /\ details r = "2 duplicates (40.00%)".
Proof. eexists. split; [vm_compute; reflexivity|]. repeat split. Qed.

Example foreign_key_check_orders :
  exists r, dispatch sample_db order_rule references_customers = Some (inr r)
            /\ (metric_value r == 25)%Q /\ status r = FAIL
            /\ details r = "1 orphan records (25.00%)".
Proof. eexists. split; [vm_compute; reflexivity|]. repeat split. Qed.

Example format_2f_rounds :
  format_2f (pct 1 3) = "33.33" /\ format_2f (pct 2 3) = "66.67"
  /\ format_2f 0 = "0.00" /\ format_2f 100 = "100.00" /\ format_2f (1 # 8) = "0.12".
Proof. repeat split. Qed.

(** ** Checker results *)

(** The five branches of [dispatch], one at a time. *)
Lemma dispatch_cases db rule cfg c :
  dispatch db rule cfg = Some c ->
  (rule_type rule = "null_check" /\
   c = _check_nulls db (table_name rule) (column_name rule) (threshold_value rule))
  \/ (rule_type rule = "format_check" /\
      c = _check_format db (table_name rule) (column_name rule) (pattern cfg)
                        (threshold_value rule))
  \/ (rule_type rule = "range_check" /\
      c = _check_range db (table_name rule) (column_name rule) (min cfg) (max cfg)
                       (threshold_value rule))
  \/ (rule_type rule = "uniqueness_check" /\
      c = _check_uniqueness db (table_name rule) (column_name rule) (threshold_value rule))
  \/ (rule_type rule = "foreign_key_check" /\
      c = _check_foreign_key db (table_name rule) (column_name rule)
                             (reference_table cfg) (reference_column cfg)
                             (threshold_value rule)).
Proof.
  unfold dispatch. intros H.
  repeat match type of H with
         | (if String.eqb ?a ?b then _ else _) = _ =>
             let E := fresh "E" in
             destruct (String.eqb a b) eqn:E;
             [apply String.eqb_eq in E; inversion H; subst; clear H; tauto|]
         end.
  discriminate.
Qed.

Lemma dispatch_known db rule cfg :
  dispatch db rule cfg = None <-> known_rule_type (rule_type rule) = false.
Proof.
  unfold dispatch, known_rule_type. simpl.
  repeat match goal with
         | |- context [String.eqb ?a ?b] =>
             destruct (String.eqb a b); simpl; [split; discriminate|]
         end.
  tauto.
Qed.

Lemma pass_metric_0 (th : Q) :
  (0 <= th)%Q -> status_of 0 th = PASS.
Proof. intros H. apply status_of_pass. exact H. Qed.

(** C7. For every checker and every dataset, the metric of a result lies in
    the closed interval from 0 to 100: it is the percentage of a number of
    violations that never exceeds the denominator (or 0 when the denominator
    is 0). *)
Theorem metric_value_between_0_and_100 :
  forall db rule cfg r,
    dispatch db rule cfg = Some (inr r) ->
    (0 <= metric_value r)%Q /\ (metric_value r <= 100)%Q
    /\ exists violating total : nat,
        (violating <= total)%nat
        /\ metric_value r = (if (0 <? total)%nat then pct violating total else 0%Q).
Proof.
  intros db rule cfg r H.
  assert (Hex : exists violating total : nat,
             (violating <= total)%nat
             /\ metric_value r = (if (0 <? total)%nat then pct violating total else 0%Q)).
  { apply dispatch_cases in H.
    destruct H as [[_ H]|[[_ H]|[[_ H]|[[_ H]|[_ H]]]]]; symmetry in H.
    - apply _check_nulls_inr in H. destruct H as (t & vs & _ & _ & Hm & _).
      cbv zeta in Hm. do 2 eexists. split; [|exact Hm]. apply count_where_le.
    - apply _check_format_inr in H. destruct H as (t & vs & _ & _ & H).
      cbv zeta in H. destruct H as [[_ ->]|[Hne (n & _ & Hle & Hm & _)]].
      + exists 0%nat, 0%nat. split; [lia|reflexivity].
      + exists n, (length (filter is_not_null_nor_empty vs)). split; [exact Hle|].
        rewrite Hm. destruct (filter is_not_null_nor_empty vs); [congruence|reflexivity].
    - apply _check_range_inr in H. destruct H as (t & vs & _ & _ & H).
      destruct H as [(_ & _ & ->)|[_ H]].
      + exists 0%nat, 0%nat. split; [lia|reflexivity].
      + cbv zeta in H. destruct H as (Hle & Hm & _). do 2 eexists.
        split; [exact Hle|exact Hm].
    - apply _check_uniqueness_inr in H. destruct H as (t & vs & _ & _ & Hm & _).
      cbv zeta in Hm. do 2 eexists. split; [|exact Hm]. lia.
    - apply _check_foreign_key_inr in H.
      destruct H as (t & vs & ref & rvs & _ & _ & _ & _ & Hm & _).
      cbv zeta in Hm. do 2 eexists. split; [|exact Hm]. apply orphans_le_not_null. }
  destruct Hex as (violating & total & Hle & Hm).
  destruct (guarded_pct_bounds violating total Hle) as [H0 H100].
  rewrite <- Hm in H0, H100.
  split; [exact H0|]. split; [exact H100|]. exists violating, total. auto.
Qed.

Lemma metric_value_between_0_and_100_witness :
  dispatch sample_db age_rule range_0_120
  = Some (inr {| metric_value := pct 2 4; status := FAIL;
                 details := "2/4 out of range (50.00%)" |})
  /\ (0 <= pct 2 4)%Q /\ (pct 2 4 <= 100)%Q.
Proof.
  assert (H : dispatch sample_db age_rule range_0_120
              = Some (inr {| metric_value := pct 2 4; status := FAIL;
                             details := "2/4 out of range (50.00%)" |}))
    by (vm_compute; reflexivity).
  split; [exact H|].
  destruct (metric_value_between_0_and_100 sample_db age_rule range_0_120 _ H)
    as (H0 & H100 & _).
  split; [exact H0|exact H100].
Defined.

(** C1. For a threshold in the range of the data model (not negative), the
    result of a checker that returns has status PASS exactly when its metric
    is at most the threshold and FAIL otherwise; no checker returns ERROR,
    and a stored row has status ERROR only if the checker of its rule
    raised. *)
Theorem status_pass_iff_metric_le_threshold :
  (forall db rule cfg r,
      (0 <= threshold_value rule)%Q ->
      dispatch db rule cfg = Some (inr r) ->
      (status r = PASS <-> (metric_value r <= threshold_value rule)%Q)
      /\ (status r = FAIL <-> ~ (metric_value r <= threshold_value rule)%Q)
      /\ status r <> ERROR)
  /\ (forall db rule row,
         In row (rows_of db rule) ->
         row_status row = ERROR ->
         exists e, outcome db rule = Some (inl e) /\ row = error_row rule e).
Proof.
  split.
  - intros db rule cfg r Hth H.
    assert (Hearly : forall d, r = {| metric_value := 0; status := PASS; details := d |} ->
                     (status r = PASS <-> (metric_value r <= threshold_value rule)%Q)
                     /\ (status r = FAIL <-> ~ (metric_value r <= threshold_value rule)%Q)
                     /\ status r <> ERROR).
    { intros d ->. simpl. repeat split; try discriminate; auto.
      intros Hn. exfalso. apply Hn. exact Hth. }
    assert (Hmain : status r = status_of (metric_value r) (threshold_value rule) ->
                    (status r = PASS <-> (metric_value r <= threshold_value rule)%Q)
                    /\ (status r = FAIL <-> ~ (metric_value r <= threshold_value rule)%Q)
                    /\ status r <> ERROR).
    { intros ->. split; [apply status_of_pass|].
      split; [apply status_of_fail|apply status_of_not_error]. }
    apply dispatch_cases in H.
    destruct H as [[_ H]|[[_ H]|[[_ H]|[[_ H]|[_ H]]]]]; symmetry in H.
    + apply _check_nulls_inr in H. destruct H as (t & vs & _ & _ & _ & Hs & _).
      auto.
    + apply _check_format_inr in H. destruct H as (t & vs & _ & _ & H).
      simpl in H. destruct H as [[_ Hr]|[_ (n & _ & _ & _ & Hs & _)]]; eauto.
    + apply _check_range_inr in H. destruct H as (t & vs & _ & _ & H).
      destruct H as [(_ & _ & Hr)|[_ H]]; [eauto|].
      simpl in H. destruct H as (_ & _ & Hs & _). auto.
    + apply _check_uniqueness_inr in H. destruct H as (t & vs & _ & _ & _ & Hs & _).
      auto.
    + apply _check_foreign_key_inr in H.
      destruct H as (t & vs & ref & rvs & _ & _ & _ & _ & _ & Hs & _). auto.
  - intros db rule row Hin Herr. unfold rows_of in Hin.
    destruct (outcome db rule) as [[e|r]|] eqn:Ho; simpl in Hin;
      try (destruct Hin as [<-|[]]).
    + exists e. auto.
    + exfalso. simpl in Herr.
      unfold outcome in Ho. destruct (load_config (rule_config rule)) as [|cfg]; [discriminate|].
      apply dispatch_cases in Ho.
      assert (Hmain : status r = status_of (metric_value r) (threshold_value rule) -> False).
      { intros Hs. rewrite Hs in Herr. exact (status_of_not_error _ _ Herr). }
      destruct Ho as [[_ H]|[[_ H]|[[_ H]|[[_ H]|[_ H]]]]]; symmetry in H.
      * apply _check_nulls_inr in H. destruct H as (t & vs & _ & _ & _ & Hs & _). auto.
      * apply _check_format_inr in H. destruct H as (t & vs & _ & _ & H).
        simpl in H. destruct H as [[_ Hr]|[_ (n & _ & _ & _ & Hs & _)]]; [|auto].
        subst r. discriminate.
      * apply _check_range_inr in H. destruct H as (t & vs & _ & _ & H).
        destruct H as [(_ & _ & Hr)|[_ H]]; [subst r; discriminate|].
        simpl in H. destruct H as (_ & _ & Hs & _). auto.
      * apply _check_uniqueness_inr in H. destruct H as (t & vs & _ & _ & _ & Hs & _). auto.
      * apply _check_foreign_key_inr in H.
        destruct H as (t & vs & ref & rvs & _ & _ & _ & _ & _ & Hs & _). auto.
    + destruct Hin.
Qed.

Lemma status_pass_iff_metric_le_threshold_witness :
  (0 <= threshold_value age_rule)%Q
  /\ dispatch sample_db age_rule range_0_120
     = Some (inr {| metric_value := pct 2 4; status := FAIL;
                    details := "2/4 out of range (50.00%)" |})
  /\ ~ (pct 2 4 <= threshold_value age_rule)%Q.
Proof.
  assert (H0 : (0 <= threshold_value age_rule)%Q) by (vm_compute; discriminate).
  assert (H1 : dispatch sample_db age_rule range_0_120
               = Some (inr {| metric_value := pct 2 4; status := FAIL;
                              details := "2/4 out of range (50.00%)" |}))
    by (vm_compute; reflexivity).
  split; [exact H0|]. split; [exact H1|].
  apply (proj1 (proj1 (proj2 (proj1 status_pass_iff_metric_le_threshold
                                sample_db age_rule range_0_120 _ H0 H1)))).
  reflexivity.
Defined.

(** With a negative threshold the two early returns still report PASS, and a
    check on an empty table reports FAIL: both invariants of the data model
    rest on the threshold being a percentage. *)
Example negative_threshold_early_return :
  _check_format sample_db "notes" "note" (Some "^[0-9]+$") (-1)
  = inr {| metric_value := 0; status := PASS; details := "No values to check" |}
  /\ exists r, _check_nulls sample_db "empty" "x" (-1) = inr r
               /\ metric_value r = 0%Q /\ status r = FAIL.
Proof. split; [reflexivity|]. eexists. split; [vm_compute; reflexivity|]. split; reflexivity. Qed.

Lemma guarded_pct_zero_denominator (a : nat) :
  (if (0 <? 0)%nat then pct a 0 else 0%Q) = 0%Q.
Proof. reflexivity. Qed.

(** What a checker returns when its denominator is zero. *)
Lemma zero_denominator_result :
  forall db rule cfg r t vs,
    (0 <= threshold_value rule)%Q ->
    dispatch db rule cfg = Some (inr r) ->
    lookup_table db (table_name rule) = Some t ->
    select_column "" t (column_name rule) = inr vs ->
    denominator (rule_type rule) vs = 0%nat ->
    metric_value r = 0%Q /\ status r = PASS.
Proof.
  intros db rule cfg r t vs Hth H Ht Hvs Hden.
  assert (Hzero : forall a : nat,
             metric_value r = (if (0 <? 0)%nat then pct a 0 else 0%Q) ->
             status r = status_of (metric_value r) (threshold_value rule) ->
             metric_value r = 0%Q /\ status r = PASS).
  { intros a Hm Hs. rewrite guarded_pct_zero_denominator in Hm.
    split; [exact Hm|]. rewrite Hs, Hm. apply pass_metric_0. exact Hth. }
  apply dispatch_cases in H.
  destruct H as [[Hk H]|[[Hk H]|[[Hk H]|[[Hk H]|[Hk H]]]]]; symmetry in H;
    unfold denominator in Hden; rewrite Hk in Hden; simpl in Hden.
  - apply _check_nulls_inr in H. destruct H as (t' & vs' & Ht' & Hvs' & Hm & Hs & _).
    rewrite Ht in Ht'. inversion Ht'; subst t'. rewrite Hvs in Hvs'. inversion Hvs'; subst vs'.
    simpl in Hm. rewrite Hden in Hm. eauto.
  - apply _check_format_inr in H. destruct H as (t' & vs' & Ht' & Hvs' & H).
    rewrite Ht in Ht'. inversion Ht'; subst t'. rewrite Hvs in Hvs'. inversion Hvs'; subst vs'.
    simpl in H. destruct H as [[_ ->]|[Hne _]]; [split; reflexivity|].
    destruct (filter is_not_null_nor_empty vs); [congruence|discriminate].
  - apply _check_range_inr in H. destruct H as (t' & vs' & Ht' & Hvs' & H).
    rewrite Ht in Ht'. inversion Ht'; subst t'. rewrite Hvs in Hvs'. inversion Hvs'; subst vs'.
    destruct H as [(_ & _ & ->)|[_ H]]; [split; reflexivity|].
    simpl in H. destruct H as (_ & Hm & Hs & _). rewrite Hden in Hm. eauto.
  - apply _check_uniqueness_inr in H.
    destruct H as (t' & vs' & Ht' & Hvs' & Hm & Hs & _).
    rewrite Ht in Ht'. inversion Ht'; subst t'. rewrite Hvs in Hvs'. inversion Hvs'; subst vs'.
    simpl in Hm. rewrite Hden in Hm. eauto.
  - apply _check_foreign_key_inr in H.
    destruct H as (t' & vs' & ref & rvs & Ht' & Hvs' & _ & _ & Hm & Hs & _).
    rewrite Ht in Ht'. inversion Ht'; subst t'. rewrite Hvs in Hvs'. inversion Hvs'; subst vs'.
    simpl in Hm. rewrite Hden in Hm. eauto.
Qed.

Lemma known_rule_type_cases (s : string) :
  known_rule_type s = true ->
  s = "null_check" \/ s = "format_check" \/ s = "range_check"
  \/ s = "uniqueness_check" \/ s = "foreign_key_check".
Proof.
  unfold known_rule_type. simpl. intros H.
  repeat match type of H with
         | (String.eqb ?a ?b || _)%bool = true =>
             let E := fresh "E" in
             destruct (String.eqb a b) eqn:E;
             [apply String.eqb_eq in E; tauto|simpl in H]
         end.
  discriminate.
Qed.

Lemma validate_existing_table db tn t :
  lookup_table db tn = Some t -> _validate_table_name db (Some tn) = inr tt.
Proof. intros H. unfold _validate_table_name. rewrite H. reflexivity. Qed.

(** A checker whose table and column exist returns, unless a pattern has to
    be matched or a reference has to be resolved. *)
Lemma checker_returns db rule cfg t vs :
  known_rule_type (rule_type rule) = true ->
  lookup_table db (table_name rule) = Some t ->
  select_column "" t (column_name rule) = inr vs ->
  (rule_type rule = "format_check" -> filter is_not_null_nor_empty vs = []) ->
  (rule_type rule = "foreign_key_check" ->
   exists rt ref rvs,
     reference_table cfg = Some rt /\ lookup_table db rt = Some ref
     /\ select_column "" ref (py_str_opt (reference_column cfg)) = inr rvs) ->
  exists r, dispatch db rule cfg = Some (inr r).
Proof.
  intros Hk Ht Hvs Hfmt Hfk.
  pose proof (validate_existing_table _ _ _ Ht) as Hval.
  assert (Hfrom : from_table db (table_name rule) = inr t)
    by (apply from_table_inr; exact Ht).
  destruct (known_rule_type_cases _ Hk) as [E|[E|[E|[E|E]]]];
    unfold dispatch; rewrite E; simpl.
  - unfold _check_nulls, bind. rewrite Hval, Hfrom, Hvs. eexists. reflexivity.
  - unfold _check_format, bind. rewrite Hval, Hfrom, Hvs, (Hfmt E).
    eexists. reflexivity.
  - unfold _check_range, bind. rewrite Hval, Hfrom, Hvs.
    destruct (min cfg), (max cfg); eexists; reflexivity.
  - unfold _check_uniqueness, bind. rewrite Hval, Hfrom, Hvs. eexists. reflexivity.
  - destruct (Hfk E) as (rt & ref & rvs & Hrt & Href & Hrvs).
    unfold _check_foreign_key, bind. rewrite Hval, Hrt.
    rewrite (validate_existing_table _ _ _ Href), Hfrom. simpl.
    assert (Hfrom' : from_table db rt = inr ref) by (apply from_table_inr; exact Href).
    rewrite Hfrom', (select_column_qual "" "t." _ _ _ Hvs),
      (select_column_qual "" "r." _ _ _ Hrvs).
    eexists. reflexivity.
Qed.

(** C6. For every checker, when the denominator of the metric is zero (and
    the threshold is a percentage, hence not negative) the checker returns a
    result with metric 0 and status PASS.  The table and the column of the
    rule exist; for a foreign-key rule the referenced table and column exist
    too, since its metric is not computed otherwise. *)
Theorem zero_denominator_passes :
  forall db rule cfg t vs,
    (0 <= threshold_value rule)%Q ->
    known_rule_type (rule_type rule) = true ->
    lookup_table db (table_name rule) = Some t ->
    select_column "" t (column_name rule) = inr vs ->
    denominator (rule_type rule) vs = 0%nat ->
    (rule_type rule = "foreign_key_check" ->
     exists rt ref rvs,
       reference_table cfg = Some rt /\ lookup_table db rt = Some ref
       /\ select_column "" ref (py_str_opt (reference_column cfg)) = inr rvs) ->
    exists r,
      dispatch db rule cfg = Some (inr r)
      /\ metric_value r = 0%Q /\ status r = PASS.
Proof.
  intros db rule cfg t vs Hth Hk Ht Hvs Hden Hfk.
  destruct (checker_returns db rule cfg t vs Hk Ht Hvs) as [r Hr].
  - intros E. unfold denominator in Hden. rewrite E in Hden. simpl in Hden.
    destruct (filter is_not_null_nor_empty vs); [reflexivity|discriminate].
  - exact Hfk.
  - exists r. split; [exact Hr|].
    exact (zero_denominator_result db rule cfg r t vs Hth Hr Ht Hvs Hden).
Qed.

Lemma zero_denominator_passes_witness :
  (0 <= threshold_value empty_rule)%Q
  /\ known_rule_type (rule_type empty_rule) = true
  /\ lookup_table sample_db (table_name empty_rule)
     = Some (column_table "x" "INTEGER" [])
  /\ select_column "" (column_table "x" "INTEGER" []) (column_name empty_rule) = inr []
  /\ denominator (rule_type empty_rule) [] = 0%nat
  /\ exists r,
      dispatch sample_db empty_rule empty_config = Some (inr r)
      /\ metric_value r = 0%Q /\ status r = PASS.
Proof.
  assert (H0 : (0 <= threshold_value empty_rule)%Q) by (vm_compute; discriminate).
  assert (H1 : known_rule_type (rule_type empty_rule) = true) by reflexivity.
  assert (H2 : lookup_table sample_db (table_name empty_rule)
               = Some (column_table "x" "INTEGER" [])) by reflexivity.
  assert (H3 : select_column "" (column_table "x" "INTEGER" []) (column_name empty_rule)
               = inr []) by reflexivity.
  assert (H4 : denominator (rule_type empty_rule) [] = 0%nat) by reflexivity.
  repeat (split; [assumption|]).
  apply (zero_denominator_passes sample_db empty_rule empty_config _ _ H0 H1 H2 H3 H4).
  intros E. discriminate E.
Defined.

(** ** The engine *)

Lemma load_config_ok (c : stored_config) :
  config_ok c = true -> exists cfg, load_config c = inr cfg.
Proof.
  destruct c; simpl; intros H; [eexists; reflexivity|eexists; reflexivity|discriminate].
Qed.

(** When every configuration loads, the loop runs to its end: it appends the
    rows and the dictionaries of each rule in turn. *)
Lemma run_rules_spec db rules :
  configs_ok rules ->
  forall results txn,
    run_rules db rules results txn
    = inr ((results ++ flat_map (results_of db) rules)%list,
           (txn ++ flat_map (rows_of db) rules)%list).
Proof.
  induction 1 as [|rule rules Hok _ IH]; intros results txn.
  - simpl. rewrite !app_nil_r. reflexivity.
  - destruct (load_config_ok _ Hok) as [cfg Hcfg].
    cbn [run_rules flat_map]. rewrite Hcfg. cbn [bind].
    assert (Hrows : rows_of db rule
                    = match dispatch db rule cfg with
                      | Some (inr r) => [stored_of rule r]
                      | Some (inl e) => [error_row rule e]
                      | None => []
                      end)
      by (unfold rows_of, outcome; rewrite Hcfg; reflexivity).
    assert (Hres : results_of db rule
                   = match dispatch db rule cfg with
                     | Some (inr r) => [returned_of rule r]
                     | _ => []
                     end)
      by (unfold results_of, outcome; rewrite Hcfg; reflexivity).
    rewrite Hrows, Hres.
    destruct (dispatch db rule cfg) as [[e|r]|]; rewrite IH.
    + rewrite <- app_assoc. reflexivity.
    + rewrite <- !app_assoc. reflexivity.
    + reflexivity.
Qed.

(** A configuration that does not load ends the run with the exception of
    [json.loads], and nothing is committed. *)
Lemma run_rules_malformed db rules :
  ~ configs_ok rules ->
  forall results txn, exists msg,
    run_rules db rules results txn = inl (ValueError msg).
Proof.
  induction rules as [|rule rules IH]; intros Hno results txn.
  - exfalso. apply Hno. constructor.
  - simpl. destruct (rule_config rule) as [|c|msg] eqn:Hc; simpl.
    + assert (Hrest : ~ configs_ok rules).
      { intros Hr. apply Hno. constructor; [rewrite Hc; reflexivity|exact Hr]. }
      destruct (dispatch db rule empty_config) as [[e|r]|]; apply IH; exact Hrest.
    + assert (Hrest : ~ configs_ok rules).
      { intros Hr. apply Hno. constructor; [rewrite Hc; reflexivity|exact Hr]. }
      destruct (dispatch db rule c) as [[e|r]|]; apply IH; exact Hrest.
    + exists msg. reflexivity.
Qed.

Lemma run_quality_checks_spec db store log :
  configs_ok (fetch_active_rules store) ->
  run_quality_checks db store log
  = (inr (flat_map (results_of db) (fetch_active_rules store)),
     (log ++ flat_map (rows_of db) (fetch_active_rules store))%list).
Proof.
  intros Hok. unfold run_quality_checks.
  rewrite (run_rules_spec db _ Hok). reflexivity.
Qed.

Lemma rows_of_rule_id db rule row :
  In row (rows_of db rule) -> row_rule_id row = rule_id rule.
Proof.
  unfold rows_of. destruct (outcome db rule) as [[e|r]|]; simpl;
    intros H; try contradiction; destruct H as [H|H]; try contradiction;
    subst row; reflexivity.
Qed.

Lemma results_of_rule_id db rule res :
  In res (results_of db rule) -> res_rule_id res = rule_id rule.
Proof.
  unfold results_of. destruct (outcome db rule) as [[e|r]|]; simpl;
    intros H; try contradiction; destruct H as [H|H]; try contradiction;
    subst res; reflexivity.
Qed.

Lemma outcome_known db rule :
  config_ok (rule_config rule) = true ->
  (outcome db rule = None <-> known_rule_type (rule_type rule) = false).
Proof.
  intros Hok. unfold outcome.
  destruct (load_config_ok _ Hok) as [cfg ->]. apply dispatch_known.
Qed.

Lemma rows_of_ids db rules :
  configs_ok rules ->
  map row_rule_id (flat_map (rows_of db) rules)
  = map rule_id (filter (fun rule => known_rule_type (rule_type rule)) rules).
Proof.
  induction 1 as [|rule rules Hok _ IH]; simpl; [reflexivity|].
  rewrite map_app, IH.
  pose proof (outcome_known db rule Hok) as Hk.
  unfold rows_of. destruct (outcome db rule) as [[e|r]|] eqn:Ho.
  - destruct (known_rule_type (rule_type rule)); [reflexivity|].
    destruct Hk as [_ Hk]. discriminate (Hk eq_refl).
  - destruct (known_rule_type (rule_type rule)); [reflexivity|].
    destruct Hk as [_ Hk]. discriminate (Hk eq_refl).
  - destruct Hk as [Hk _]. rewrite (Hk eq_refl). reflexivity.
Qed.

Lemma results_of_ids db rules :
  map res_rule_id (flat_map (results_of db) rules)
  = map rule_id (filter (succeeded db) rules).
Proof.
  induction rules as [|rule rules IH]; simpl; [reflexivity|].
  rewrite map_app, IH. unfold results_of, succeeded.
  destruct (outcome db rule) as [[e|r]|]; reflexivity.
Qed.

(** Rule ids are a primary key: two rules of the store with the same id are
    the same rule. *)
Lemma rule_id_injective (rules : list QualityRule) (a b : QualityRule) :
  NoDup (map rule_id rules) ->
  In a rules -> In b rules -> rule_id a = rule_id b -> a = b.
Proof.
  induction rules as [|x rules IH]; simpl; intros Hnd Ha Hb Hid; [contradiction|].
  inversion Hnd as [|? ? Hnotin Hnd']; subst.
  destruct Ha as [->|Ha], Hb as [->|Hb].
  - reflexivity.
  - exfalso. apply Hnotin. rewrite Hid. apply in_map. exact Hb.
  - exfalso. apply Hnotin. rewrite <- Hid. apply in_map. exact Ha.
  - apply IH; assumption.
Qed.

Lemma StronglySorted_map_filter (ids : QualityRule -> Z) (keep : QualityRule -> bool)
      (rules : list QualityRule) :
  StronglySorted Z.lt (map ids rules) ->
  StronglySorted Z.lt (map ids (filter keep rules)).
Proof.
  induction rules as [|x rules IH]; simpl; intros Hs; [constructor|].
  inversion Hs as [|? ? Hs' Hall]; subst.
  destruct (keep x); simpl; [|apply IH; exact Hs'].
  constructor; [apply IH; exact Hs'|].
  rewrite Forall_forall in *. intros z Hz.
  apply Hall. apply in_map_iff in Hz. destruct Hz as (y & <- & Hy).
  apply in_map. apply filter_In in Hy. tauto.
Qed.

(** The loop returns only when every configuration loads. *)
Lemma run_rules_inr_configs_ok db rules :
  forall results txn p,
    run_rules db rules results txn = inr p -> configs_ok rules.
Proof.
  induction rules as [|rule rules IH]; intros results txn p H; [constructor|].
  simpl in H. destruct (rule_config rule) as [|c|msg] eqn:Hc; simpl in H.
  - constructor; [rewrite Hc; reflexivity|].
    destruct (dispatch db rule empty_config) as [[e|r]|]; eapply IH; exact H.
  - constructor; [rewrite Hc; reflexivity|].
    destruct (dispatch db rule c) as [[e|r]|]; eapply IH; exact H.
  - discriminate H.
Qed.

(** C3, as the code has it.  Provided every stored configuration is text that
    [json.loads] accepts (it is read outside the [try]), the run returns; for
    every active rule whose checker raises, a row with status ERROR, metric 0
    and the message of the exception as details is stored, and the remaining
    rules are still evaluated: exactly one row is stored for each active rule
    of a known kind, in the order of the rules, and the result of every rule
    whose checker returns is both stored and returned. *)
Theorem checker_failure_is_stored_and_isolated :
  forall db store log,
    configs_ok (fetch_active_rules store) ->
    exists results rows,
      run_quality_checks db store log = (inr results, (log ++ rows)%list)
      /\ map row_rule_id rows
         = map rule_id (filter (fun rule => known_rule_type (rule_type rule))
                               (fetch_active_rules store))
      /\ (forall rule e,
             In rule (fetch_active_rules store) ->
             outcome db rule = Some (inl e) ->
             exists row,
               In row rows /\ row_rule_id row = rule_id rule
               /\ row_status row = ERROR /\ row_metric_value row = 0%Q
               /\ row_details row = str_exn e)
      /\ (forall rule r,
             In rule (fetch_active_rules store) ->
             outcome db rule = Some (inr r) ->
             In (stored_of rule r) rows /\ In (returned_of rule r) results).
Proof.
  intros db store log Hok.
  exists (flat_map (results_of db) (fetch_active_rules store)),
         (flat_map (rows_of db) (fetch_active_rules store)).
  split; [apply run_quality_checks_spec; exact Hok|].
  split; [apply rows_of_ids; exact Hok|].
  split.
  - intros rule e Hin Ho. exists (error_row rule e).
    split; [|repeat split].
    apply in_flat_map. exists rule. split; [exact Hin|].
    unfold rows_of. rewrite Ho. left. reflexivity.
  - intros rule r Hin Ho. split; apply in_flat_map; exists rule; (split; [exact Hin|]).
    + unfold rows_of. rewrite Ho. left. reflexivity.
    + unfold results_of. rewrite Ho. left. reflexivity.
Qed.

Lemma checker_failure_is_stored_and_isolated_witness :
  configs_ok (fetch_active_rules [missing_table_rule; unknown_kind_rule; age_rule])
  /\ exists results rows,
      run_quality_checks sample_db [missing_table_rule; unknown_kind_rule; age_rule] []
      = (inr results, ([] ++ rows)%list)
      /\ map row_rule_id rows = [1%Z; 7%Z].
Proof.
  assert (H : configs_ok (fetch_active_rules
                            [missing_table_rule; unknown_kind_rule; age_rule])).
  { repeat constructor. }
  split; [exact H|].
  destruct (checker_failure_is_stored_and_isolated
              sample_db [missing_table_rule; unknown_kind_rule; age_rule] [] H)
    as (results & rows & Hrun & Hids & _).
  exists results, rows. split; [exact Hrun|]. rewrite Hids. reflexivity.
Defined.

(** C3 as stated fails: the returned list has no entry for a rule whose
    checker raised (its ERROR row is only stored), nor for a rule of unknown
    kind, so it does not hold one result per active rule. *)
Lemma returned_list_omits_failed_and_skipped_rules :
  outcome sample_db missing_table_rule
  = Some (inl (ValueError "Invalid table name: missing"))
  /\ run_quality_checks sample_db [missing_table_rule; unknown_kind_rule] []
     = (inr [],
        [ {| row_rule_id := 1; row_table_name := "missing"; row_column_name := "x";
             row_metric_value := 0; row_threshold_value := 5;
             row_status := ERROR;
             row_details := "Invalid table name: missing" |} ])
  /\ ~ (exists results,
           fst (run_quality_checks sample_db [missing_table_rule; unknown_kind_rule] [])
           = inr results
           /\ length results
              = length (fetch_active_rules [missing_table_rule; unknown_kind_rule])).
Proof.
  split; [reflexivity|]. split; [reflexivity|].
  intros (results & Hrun & Hlen). simpl in Hrun. inversion Hrun; subst results.
  discriminate Hlen.
Qed.

(** ** The order of the scan *)

Lemma insert_rule_perm (rule : QualityRule) (rules : list QualityRule) :
  Permutation (insert_rule rule rules) (rule :: rules).
Proof.
  induction rules as [|x rules IH]; simpl; [apply Permutation_refl|].
  destruct (rule_id rule <=? rule_id x)%Z; [apply Permutation_refl|].
  eapply Permutation_trans; [apply perm_skip; exact IH|apply perm_swap].
Qed.

Lemma rowid_scan_perm (store : list QualityRule) :
  Permutation (rowid_scan store) store.
Proof.
  unfold rowid_scan. induction store as [|x store IH]; simpl; [constructor|].
  eapply Permutation_trans; [apply insert_rule_perm|apply perm_skip; exact IH].
Qed.

Lemma insert_rule_sorted (rule : QualityRule) (rules : list QualityRule) :
  StronglySorted Z.le (map rule_id rules) ->
  StronglySorted Z.le (map rule_id (insert_rule rule rules)).
Proof.
  induction rules as [|x rules IH]; simpl; intros Hs.
  - constructor; constructor.
  - inversion Hs as [|? ? Hs' Hall]; subst.
    destruct (Z.leb_spec (rule_id rule) (rule_id x)) as [Hle|Hlt]; simpl.
    + constructor; [exact Hs|]. constructor; [exact Hle|].
      eapply Forall_impl; [|exact Hall]. intros z Hz. lia.
    + constructor; [apply IH; exact Hs'|].
      apply Forall_forall. intros z Hz. apply in_map_iff in Hz.
      destruct Hz as (y & <- & Hy).
      apply (Permutation_in _ (insert_rule_perm rule rules)) in Hy.
      destruct Hy as [<-|Hy]; [lia|].
      rewrite Forall_forall in Hall. apply Hall. apply in_map. exact Hy.
Qed.

Lemma rowid_scan_sorted (store : list QualityRule) :
  StronglySorted Z.le (map rule_id (rowid_scan store)).
Proof.
  unfold rowid_scan. induction store as [|x store IH]; simpl; [constructor|].
  apply insert_rule_sorted. exact IH.
Qed.

Lemma sorted_le_NoDup_lt (zs : list Z) :
  StronglySorted Z.le zs -> NoDup zs -> StronglySorted Z.lt zs.
Proof.
  induction 1 as [|z zs Hs IH Hall]; intros Hnd; [constructor|].
  inversion Hnd as [|? ? Hnotin Hnd']; subst.
  constructor; [apply IH; exact Hnd'|].
  rewrite Forall_forall in *. intros y Hy.
  specialize (Hall y Hy).
  assert (y <> z) by (intros ->; contradiction). lia.
Qed.


(** Rule ids are a primary key, so the scan is in strictly ascending order
    of the rule id. *)
Lemma rowid_scan_ascending (store : list QualityRule) :
  NoDup (map rule_id store) ->
  StronglySorted Z.lt (map rule_id (rowid_scan store)).
Proof.
  intros Hnd. apply sorted_le_NoDup_lt; [apply rowid_scan_sorted|].
  eapply Permutation_NoDup; [|exact Hnd].
  apply Permutation_map. apply Permutation_sym. apply rowid_scan_perm.
Qed.

Lemma fetch_active_rules_ascending (store : list QualityRule) :
  NoDup (map rule_id store) ->
  StronglySorted Z.lt (map rule_id (fetch_active_rules store)).
Proof.
  intros Hnd. unfold fetch_active_rules.
  apply StronglySorted_map_filter. apply rowid_scan_ascending. exact Hnd.
Qed.


(** Two lists of the same rules, each in strictly ascending order of the
    rule id, are the same list. *)
Lemma ascending_perm_unique (l l' : list QualityRule) :
  Permutation l l' ->
  StronglySorted Z.lt (map rule_id l) ->
  StronglySorted Z.lt (map rule_id l') ->
  l = l'.
Proof.
  revert l'. induction l as [|a l IH]; intros l' Hp Hs Hs'.
  - apply Permutation_nil in Hp. subst. reflexivity.
  - destruct l' as [|b l'];
      [apply Permutation_sym, Permutation_nil in Hp; discriminate Hp|].
    simpl in Hs, Hs'.
    inversion Hs as [|? ? Hs1 Hall]; subst.
    inversion Hs' as [|? ? Hs1' Hall']; subst.
    rewrite Forall_forall in Hall, Hall'.
    assert (Hab : a = b).
    { assert (Ha : In a (b :: l'))
        by (apply (Permutation_in _ Hp); left; reflexivity).
      assert (Hb : In b (a :: l))
        by (apply (Permutation_in _ (Permutation_sym Hp)); left; reflexivity).
      destruct Ha as [Ha|Ha]; [symmetry; exact Ha|].
      destruct Hb as [Hb|Hb]; [exact Hb|].
      pose proof (Hall _ (in_map rule_id _ _ Hb)).
      pose proof (Hall' _ (in_map rule_id _ _ Ha)). lia. }
    subst b. f_equal. apply IH; [|exact Hs1|exact Hs1'].
    eapply Permutation_cons_inv. exact Hp.
Qed.

(** The order in which the rules were inserted does not show in the scan. *)
Lemma rowid_scan_order_irrelevant (store store' : list QualityRule) :
  NoDup (map rule_id store) ->
  Permutation store store' ->
  rowid_scan store' = rowid_scan store.
Proof.
  intros Hnd Hp.
  assert (Hnd' : NoDup (map rule_id store'))
    by (eapply Permutation_NoDup; [apply Permutation_map; exact Hp|exact Hnd]).
  apply ascending_perm_unique;
    [|apply rowid_scan_ascending; exact Hnd'|apply rowid_scan_ascending; exact Hnd].
  eapply Permutation_trans; [apply rowid_scan_perm|].
  eapply Permutation_trans; [apply Permutation_sym; exact Hp|].
  apply Permutation_sym. apply rowid_scan_perm.
Qed.

(** ** The rows and the dictionaries of one rule *)











(** C5.  Whatever the order in which the rules were put into the store, the
    rows a run stores and the list it returns are in strictly ascending
    order of the rule id: the statement that fetches the rules scans
    [quality_rules] by row id, which is the rule id, and the loop evaluates,
    stores and appends in that order.  A returning run stores one row for
    each active rule of a known kind and returns one dictionary for each
    rule whose checker returned; and two stores that hold the same rules in
    different orders give the same run. *)
Theorem results_are_in_ascending_rule_id_order :
  forall db store log,
    NoDup (map rule_id store) ->
    exists rows,
      snd (run_quality_checks db store log) = (log ++ rows)%list
      /\ StronglySorted Z.lt (map row_rule_id rows)
      /\ (forall results,
             fst (run_quality_checks db store log) = inr results ->
             StronglySorted Z.lt (map res_rule_id results)
             /\ map res_rule_id results
                = map rule_id (filter (succeeded db) (fetch_active_rules store))
             /\ map row_rule_id rows
                = map rule_id (filter (fun rule => known_rule_type (rule_type rule))
                                      (fetch_active_rules store)))
      /\ (forall store',
             Permutation store store' ->
             run_quality_checks db store' log = run_quality_checks db store log).
Proof.
  intros db store log Hnd.
  pose proof (fetch_active_rules_ascending store Hnd) as Hs.
  assert (Hperm : forall store',
             Permutation store store' ->
             run_quality_checks db store' log = run_quality_checks db store log).
  { intros store' Hp. unfold run_quality_checks, fetch_active_rules.
    rewrite (rowid_scan_order_irrelevant store store' Hnd Hp). reflexivity. }
  unfold run_quality_checks in *.
  destruct (run_rules db (fetch_active_rules store) [] []) as [e|[results txn]] eqn:Hrun.
  - exists []. simpl. split; [symmetry; apply app_nil_r|].
    split; [constructor|]. split; [intros results H; discriminate H|exact Hperm].
  - pose proof (run_rules_inr_configs_ok _ _ _ _ _ Hrun) as Hok.
    rewrite (run_rules_spec db _ Hok) in Hrun. simpl in Hrun.
    inversion Hrun; subst results txn; clear Hrun.
    exists (flat_map (rows_of db) (fetch_active_rules store)). simpl.
    split; [reflexivity|].
    split; [rewrite (rows_of_ids db _ Hok); apply StronglySorted_map_filter; exact Hs|].
    split; [|exact Hperm].
    intros results H. inversion H; subst results; clear H.
    rewrite results_of_ids, (rows_of_ids db _ Hok).
    split; [apply StronglySorted_map_filter; exact Hs|]. split; reflexivity.
Qed.

(** The example of the specification: rules put into the store in the order
    3, 1, 2 are evaluated, stored and returned in the order 1, 2, 3. *)
Lemma results_are_in_ascending_rule_id_order_witness :
  map rule_id unordered_store = [3%Z; 1%Z; 2%Z]
  /\ NoDup (map rule_id unordered_store)
  /\ (exists results,
         fst (run_quality_checks sample_db unordered_store []) = inr results
         /\ map res_rule_id results = [1%Z; 2%Z; 3%Z])
  /\ exists rows,
      snd (run_quality_checks sample_db unordered_store []) = ([] ++ rows)%list
      /\ map row_rule_id rows = [1%Z; 2%Z; 3%Z]
      /\ StronglySorted Z.lt (map row_rule_id rows).
Proof.
  assert (Hnd : NoDup (map rule_id unordered_store)).
  { simpl. repeat constructor; simpl; intuition discriminate. }
  split; [reflexivity|]. split; [exact Hnd|].
  split; [eexists; split; vm_compute; reflexivity|].
  destruct (results_are_in_ascending_rule_id_order sample_db unordered_store [] Hnd)
    as (rows & Hrows & Hs & _).
  exists rows. split; [exact Hrows|]. split; [|exact Hs].
  simpl in Hrows. rewrite <- Hrows. vm_compute. reflexivity.
Defined.

(** ** The format check on the example of the specification *)

(** C2, as the code has it.  On the cells "123", "12a", the empty text and
    NULL, the format check with the pattern [^[0-9]+$] has denominator 2 and
    counts one violation: [re.match] anchors the start, and the [$] of the
    pattern itself anchors the end, so "12a" does not match.  The metric is
    50.  With the pattern [^[0-9]+], which has no [$], "12a" matches on its
    prefix, no violation is counted and the metric is 0. *)
Theorem format_check_example :
  forall th,
    length (filter is_not_null_nor_empty
                   [VText "123"; VText "12a"; VText ""; VNull]) = 2%nat
    /\ count_invalid (Some "^[0-9]+$") [VText "123"; VText "12a"] 0 = inr 1%nat
    /\ _check_format sample_db "codes" "code" (Some "^[0-9]+$") th
       = inr {| metric_value := pct 1 2;
                status := status_of (pct 1 2) th;
                details := "1/2 invalid format (50.00%)" |}
    /\ (pct 1 2 == 50)%Q
    /\ _check_format sample_db "codes" "code" (Some "^[0-9]+") th
       = inr {| metric_value := pct 0 2;
                status := status_of (pct 0 2) th;
                details := "0/2 invalid format (0.00%)" |}
    /\ (pct 0 2 == 0)%Q.
Proof.
  intros th. repeat split.
Qed.

(** C2 as stated fails: the metric of the example is 50, not 0, because
    "12a" is counted as a violation. *)
Lemma format_example_counts_12a_as_violation :
  Re.re_match (Some "^[0-9]+$") "12a" = inr false
  /\ _check_format sample_db "codes" "code" (Some "^[0-9]+$") 10
     = inr {| metric_value := pct 1 2; status := FAIL;
              details := "1/2 invalid format (50.00%)" |}
  /\ ~ (pct 1 2 == 0)%Q.
Proof.
  split; [reflexivity|]. split; [reflexivity|]. intros H. discriminate H.
Qed.

(** ** Detail strings *)

(** [round_half_even] is within one half of its argument. *)
Lemma round_half_even_nearest (q : Q) :
  (inject_Z (round_half_even q) - (1 # 2) <= q)%Q
  /\ (q <= inject_Z (round_half_even q) + (1 # 2))%Q.
Proof.
  destruct q as [n d]. unfold round_half_even. simpl Qnum. simpl Qden.
  pose proof (Z.div_mod n (Zpos d) ltac:(lia)) as Hdm.
  pose proof (Z.mod_pos_bound n (Zpos d) ltac:(lia)) as Hb.
  set (fl := (n / Zpos d)%Z) in *. set (m := (n mod Zpos d)%Z) in *.
  assert (Hcase : forall k : Z,
             (2 * (k * Zpos d - n) <= Zpos d)%Z ->
             (2 * (n - k * Zpos d) <= Zpos d)%Z ->
             (inject_Z k - (1 # 2) <= n # d)%Q /\ (n # d <= inject_Z k + (1 # 2))%Q).
  { intros k H1 H2. unfold Qle, Qminus, Qplus, Qopp, inject_Z. simpl.
    split; nia. }
  destruct (2 * m <? Zpos d)%Z eqn:E1.
  - apply Z.ltb_lt in E1. apply Hcase; nia.
  - apply Z.ltb_ge in E1. destruct (Zpos d <? 2 * m)%Z eqn:E2.
    + apply Z.ltb_lt in E2. apply Hcase; nia.
    + apply Z.ltb_ge in E2. destruct (Z.even fl); apply Hcase; nia.
Qed.

(** C10, as the code has it.  The detail string of a null, format or range
    check that computes a percentage is "violating/total description
    (pct%)"; the uniqueness and foreign-key checks write "violating
    description (pct%)", without the denominator; the two early returns
    write a fixed text.  The percentage shown is the metric rounded to two
    decimals ([format_2f]), while the metric itself is the exact quotient. *)
Theorem details_format :
  (forall db tn cn th r,
      _check_nulls db tn cn th = inr r ->
      exists violating total : nat,
        details r = str_nat violating ++ "/" ++ str_nat total
                    ++ " null values (" ++ format_2f (metric_value r) ++ "%)"
        /\ metric_value r = (if (0 <? total)%nat then pct violating total else 0%Q))
  /\ (forall db tn cn pat th r,
         _check_format db tn cn pat th = inr r ->
         (details r = "No values to check" /\ metric_value r = 0%Q)
         \/ exists violating total : nat,
             details r = str_nat violating ++ "/" ++ str_nat total
                         ++ " invalid format (" ++ format_2f (metric_value r) ++ "%)"
             /\ metric_value r = pct violating total)
  /\ (forall db tn cn lo hi th r,
         _check_range db tn cn lo hi th = inr r ->
         (details r = "No range specified" /\ metric_value r = 0%Q)
         \/ exists violating total : nat,
             details r = str_nat violating ++ "/" ++ str_nat total
                         ++ " out of range (" ++ format_2f (metric_value r) ++ "%)"
             /\ metric_value r = (if (0 <? total)%nat then pct violating total else 0%Q))
  /\ (forall db tn cn th r,
         _check_uniqueness db tn cn th = inr r ->
         exists violating total : nat,
           details r = str_nat violating ++ " duplicates ("
                       ++ format_2f (metric_value r) ++ "%)"
           /\ metric_value r = (if (0 <? total)%nat then pct violating total else 0%Q))
  /\ (forall db tn cn rt rc th r,
         _check_foreign_key db tn cn rt rc th = inr r ->
         exists violating total : nat,
           details r = str_nat violating ++ " orphan records ("
                       ++ format_2f (metric_value r) ++ "%)"
           /\ metric_value r = (if (0 <? total)%nat then pct violating total else 0%Q))
  /\ (forall q : Q,
         (inject_Z (round_half_even (q * 100)) - (1 # 2) <= q * 100)%Q
         /\ (q * 100 <= inject_Z (round_half_even (q * 100)) + (1 # 2))%Q).
Proof.
  split; [|split; [|split; [|split; [|split]]]].
  - intros db tn cn th r H. apply _check_nulls_inr in H.
    destruct H as (t & vs & _ & _ & Hm & _ & Hd). cbv zeta in Hm, Hd.
    do 2 eexists. split; eassumption.
  - intros db tn cn pat th r H. apply _check_format_inr in H.
    destruct H as (t & vs & _ & _ & H). cbv zeta in H.
    destruct H as [[_ ->]|[_ (n & _ & _ & Hm & _ & Hd)]]; [left; split; reflexivity|].
    right. do 2 eexists. split; eassumption.
  - intros db tn cn lo hi th r H. apply _check_range_inr in H.
    destruct H as (t & vs & _ & _ & H).
    destruct H as [(_ & _ & ->)|[_ H]]; [left; split; reflexivity|].
    cbv zeta in H. destruct H as (_ & Hm & _ & Hd).
    right. do 2 eexists. split; eassumption.
  - intros db tn cn th r H. apply _check_uniqueness_inr in H.
    destruct H as (t & vs & _ & _ & Hm & _ & Hd). cbv zeta in Hm, Hd.
    do 2 eexists. split; eassumption.
  - intros db tn cn rt rc th r H. apply _check_foreign_key_inr in H.
    destruct H as (t & vs & ref & rvs & _ & _ & _ & _ & Hm & _ & Hd).
    cbv zeta in Hm, Hd. do 2 eexists. split; eassumption.
  - intros q. apply round_half_even_nearest.
Qed.

Lemma details_format_witness :
  _check_uniqueness sample_db "tags" "tag" 1
  = inr {| metric_value := pct 2 5; status := FAIL;
           details := "2 duplicates (40.00%)" |}
  /\ exists violating total : nat,
      "2 duplicates (40.00%)"
      = str_nat violating ++ " duplicates (" ++ format_2f (pct 2 5) ++ "%)"
      /\ pct 2 5 = (if (0 <? total)%nat then pct violating total else 0%Q).
Proof.
  assert (H : _check_uniqueness sample_db "tags" "tag" 1
              = inr {| metric_value := pct 2 5; status := FAIL;
                       details := "2 duplicates (40.00%)" |})
    by (vm_compute; reflexivity).
  split; [exact H|].
  exact (proj1 (proj2 (proj2 (proj2 details_format))) sample_db "tags" "tag" 1%Q _ H).
Defined.

(** C10 as stated fails: the details of a uniqueness check and of a
    foreign-key check do not begin with "violating/total". *)
Lemma uniqueness_details_have_no_denominator :
  dispatch sample_db tag_rule empty_config
  = Some (inr {| metric_value := pct 2 5; status := FAIL;
                 details := "2 duplicates (40.00%)" |})
  /\ String.prefix "2/5" "2 duplicates (40.00%)" = false
  /\ dispatch sample_db order_rule references_customers
     = Some (inr {| metric_value := pct 1 4; status := FAIL;
                    details := "1 orphan records (25.00%)" |})
  /\ String.prefix "1/4" "1 orphan records (25.00%)" = false.
Proof. repeat split. Qed.

(** ** The profiler *)

Lemma count_where_ext (p q : value -> bool) (vs : list value) :
  (forall v, p v = q v) -> count_where p vs = count_where q vs.
Proof.
  intros H. unfold count_where. induction vs as [|v vs IH]; simpl; [reflexivity|].
  rewrite H. destruct (q v); simpl; congruence.
Qed.

Lemma column_index_in (cols : list (string * string)) (c : string * string) :
  In c cols -> column_index cols (fst c) <> None.
Proof.
  induction cols as [|[n ty] cols IH]; simpl; intros Hin; [contradiction|].
  destruct (String.eqb n (fst c)) eqn:E; [discriminate|].
  destruct Hin as [Heq|Hin];
    [subst c; simpl in E; rewrite String.eqb_refl in E; discriminate|].
  specialize (IH Hin). destruct (column_index cols (fst c)); [discriminate|congruence].
Qed.

Section ProfilerProperties.

Variable numeric_of_text : string -> Q.

(** The profiler returns a profile for each column the table declares. *)
Lemma profile_columns_total (t : table) (cols : list (string * string)) :
  (forall c, In c cols -> In c (columns t)) ->
  exists ps, profile_columns numeric_of_text t cols = inr ps
             /\ length ps = length cols.
Proof.
  induction cols as [|c cols IH]; intros Hsub; simpl.
  - exists []. split; reflexivity.
  - destruct IH as (ps & Hps & Hlen); [intros c' Hc'; apply Hsub; right; exact Hc'|].
    pose proof (column_index_in (columns t) c (Hsub c (or_introl eq_refl))) as Hidx.
    unfold select_column. destruct (column_index (columns t) (fst c)); [|congruence].
    simpl. rewrite Hps. simpl. eexists. split; [reflexivity|]. simpl. congruence.
Qed.

Lemma profile_columns_In (t : table) (cols : list (string * string))
      (ps : list column_profile) (p : column_profile) :
  profile_columns numeric_of_text t cols = inr ps ->
  In p ps ->
  exists c vs,
    In c cols /\ select_column "" t (fst c) = inr vs
    /\ p = profile_column numeric_of_text (length (rows t)) c vs.
Proof.
  revert ps. induction cols as [|c cols IH]; simpl; intros ps H Hin.
  - inversion H; subst. contradiction.
  - inv_bind H. inversion H; subst; clear H.
    destruct Hin as [<-|Hin].
    + exists c, l. auto.
    + destruct (IH _ eq_refl Hin) as (c' & vs & Hc' & Hvs & Hp).
      exists c', vs. auto.
Qed.

Lemma profile_data_spec (db : database) (tn : string) (t : table) :
  lookup_table db tn = Some t ->
  exists ps,
    profile_data numeric_of_text db tn = inr ps
    /\ length ps = length (columns t)
    /\ forall p, In p ps ->
       exists c vs,
         In c (columns t) /\ select_column "" t (fst c) = inr vs
         /\ length vs = length (rows t)
         /\ p = profile_column numeric_of_text (length (rows t)) c vs.
Proof.
  intros Ht. unfold profile_data, _validate_table_name, from_table. rewrite Ht. simpl.
  destruct (profile_columns_total t (columns t) (fun c H => H)) as (ps & Hps & Hlen).
  exists ps. split; [exact Hps|]. split; [exact Hlen|].
  intros p Hin. destruct (profile_columns_In _ _ _ _ Hps Hin) as (c & vs & Hc & Hvs & Hp).
  exists c, vs. repeat split; auto. eapply select_column_length; eauto.
Qed.

(** The profile at the position of each column is the profile of that
    column. *)
Lemma profile_columns_nth (t : table) (cols : list (string * string)) :
  (forall c, In c cols -> In c (columns t)) ->
  exists ps,
    profile_columns numeric_of_text t cols = inr ps
    /\ length ps = length cols
    /\ forall i c,
        nth_error cols i = Some c ->
        exists vs,
          select_column "" t (fst c) = inr vs
          /\ nth_error ps i
             = Some (profile_column numeric_of_text (length (rows t)) c vs).
Proof.
  induction cols as [|c cols IH]; intros Hsub.
  - exists []. split; [reflexivity|]. split; [reflexivity|].
    intros i c Hi. destruct i; discriminate Hi.
  - destruct IH as (ps & Hps & Hlen & Hnth);
      [intros c' Hc'; apply Hsub; right; exact Hc'|].
    pose proof (column_index_in (columns t) c (Hsub c (or_introl eq_refl))) as Hidx.
    destruct (select_column "" t (fst c)) as [e|vs] eqn:Hvs.
    { unfold select_column in Hvs.
      destruct (column_index (columns t) (fst c)); [discriminate Hvs|congruence]. }
    exists (profile_column numeric_of_text (length (rows t)) c vs :: ps).
    split; [cbn [profile_columns]; rewrite Hvs; cbn [bind]; rewrite Hps; reflexivity|].
    split; [simpl; congruence|].
    intros i c' Hi. destruct i as [|i]; simpl in Hi.
    + inversion Hi; subst c'. exists vs. split; [exact Hvs|reflexivity].
    + destruct (Hnth i c' Hi) as (vs' & Hvs' & Hp). exists vs'. split; assumption.
Qed.

Lemma profile_data_nth (db : database) (tn : string) (t : table) :
  lookup_table db tn = Some t ->
  exists ps,
    profile_data numeric_of_text db tn = inr ps
    /\ length ps = length (columns t)
    /\ forall i c,
        nth_error (columns t) i = Some c ->
        exists vs,
          select_column "" t (fst c) = inr vs
          /\ nth_error ps i
             = Some (profile_column numeric_of_text (length (rows t)) c vs).
Proof.
  intros Ht. unfold profile_data, _validate_table_name, from_table. rewrite Ht. simpl.
  apply profile_columns_nth. intros c H. exact H.
Qed.

Lemma profile_column_counts (total : nat) (c : string * string) (vs : list value) :
  let p := profile_column numeric_of_text total c vs in
  p_column_name p = fst c /\ p_data_type p = snd c /\ p_total_count p = total
  /\ p_null_count p = count_where is_null_or_empty vs
  /\ p_unique_count p = count_distinct_not_null vs.
Proof.
  unfold profile_column.
  destruct (existsb (String.eqb (snd c)) numeric_types);
    [|destruct (String.eqb (snd c) "TEXT")]; simpl; auto.
Qed.

End ProfilerProperties.


Lemma null_or_empty_complement (vs : list value) :
  (count_where is_null_or_empty vs + count_where is_not_null_nor_empty vs
   = length vs)%nat.
Proof.
  rewrite <- (count_where_split is_null_or_empty vs). f_equal.
  apply count_where_ext. intros v.
  unfold is_not_null_nor_empty, is_null_or_empty, is_not_null.
  destruct (is_null v), (is_empty_text v); reflexivity.
Qed.




(** ** The standard deviation *)




Lemma sql_avg_mean (xs : list Q) : xs <> [] -> sql_avg xs = Some (mean xs).
Proof. destruct xs; [congruence|reflexivity]. Qed.



(** The guard itself is not a clamp: it only tells a zero or absent variance
    from the rest.  On a negative variance, which no column produces, the
    power operator would be reached. *)
Example std_dev_of_guard :
  std_dev_of None = SdZero /\ std_dev_of (Some 0%Q) = SdZero
  /\ std_dev_of (Some (9 # 4)) = SdRoot (9 # 4)
  /\ std_dev_of (Some (-1)%Q) = SdRoot (-1).
Proof. repeat split. Qed.

Lemma profile_column_numeric (num : string -> Q) (total : nat)
      (c : string * string) (vs : list value) :
  existsb (String.eqb (snd c)) numeric_types = true ->
  let p := profile_column num total c vs in
  let nonnull := filter is_not_null vs in
  p_avg_value p = sql_avg (map (sql_num num) nonnull)
  /\ p_std_dev p = match sql_avg (map (sql_num num) nonnull) with
                   | Some avg => Some (std_dev_of (sql_variance num avg nonnull))
                   | None => None
                   end.
Proof.
  intros H. unfold profile_column. rewrite H. simpl. split; reflexivity.
Qed.




Example profile_of_ages :
  exists p,
    profile_data (fun _ => 0%Q) sample_db "people" = inr [p]
    /\ p_total_count p = 4%nat /\ p_null_count p = 0%nat /\ p_unique_count p = 4%nat
    /\ p_min_value p = VInt (-5) /\ p_max_value p = VInt 150
    /\ (exists m, p_avg_value p = Some m /\ (m == 105 # 2)%Q)
    /\ (exists v, p_std_dev p = Some (SdRoot v) /\ (v == 13725 # 4)%Q).
Proof.
  eexists. split; [vm_compute; reflexivity|]. simpl.
  repeat split; eexists; split; reflexivity.
Qed.

(* ------------------------------------------------------------------ *)
(** * Further properties of the engine *)

(** What every result of a dispatched checker looks like. *)
Lemma dispatch_inr_shape db rule cfg r :
  dispatch db rule cfg = Some (inr r) ->
  (exists violating total : nat,
      (violating <= total)%nat
      /\ metric_value r = (if (0 <? total)%nat then pct violating total else 0%Q))
  /\ (status r = status_of (metric_value r) (threshold_value rule)
      \/ (status r = PASS /\ metric_value r = 0%Q)).
Proof.
  intros H. apply dispatch_cases in H.
  destruct H as [[_ H]|[[_ H]|[[_ H]|[[_ H]|[_ H]]]]]; symmetry in H.
  - apply _check_nulls_inr in H. destruct H as (t & vs & _ & _ & Hm & Hs & _).
    cbv zeta in Hm. split; [|left; exact Hs].
    do 2 eexists. split; [|exact Hm]. apply count_where_le.
  - apply _check_format_inr in H. destruct H as (t & vs & _ & _ & H).
    cbv zeta in H. destruct H as [[_ ->]|[Hne (n & _ & Hle & Hm & Hs & _)]].
    + split; [|right; split; reflexivity].
      exists 0%nat, 0%nat. split; [lia|reflexivity].
    + split; [|left; exact Hs].
      exists n, (length (filter is_not_null_nor_empty vs)). split; [exact Hle|].
      rewrite Hm. destruct (filter is_not_null_nor_empty vs); [congruence|reflexivity].
  - apply _check_range_inr in H. destruct H as (t & vs & _ & _ & H).
    destruct H as [(_ & _ & ->)|[_ H]].
    + split; [|right; split; reflexivity].
      exists 0%nat, 0%nat. split; [lia|reflexivity].
    + cbv zeta in H. destruct H as (Hle & Hm & Hs & _). split; [|left; exact Hs].
      do 2 eexists. split; [exact Hle|exact Hm].
  - apply _check_uniqueness_inr in H. destruct H as (t & vs & _ & _ & Hm & Hs & _).
    cbv zeta in Hm. split; [|left; exact Hs].
    do 2 eexists. split; [|exact Hm]. lia.
  - apply _check_foreign_key_inr in H.
    destruct H as (t & vs & ref & rvs & _ & _ & _ & _ & Hm & Hs & _).
    cbv zeta in Hm. split; [|left; exact Hs].
    do 2 eexists. split; [|exact Hm]. apply orphans_le_not_null.
Qed.

Lemma dispatch_inr_bounds db rule cfg r :
  dispatch db rule cfg = Some (inr r) ->
  (0 <= metric_value r)%Q /\ (metric_value r <= 100)%Q /\ status r <> ERROR.
Proof.
  intros H. destruct (dispatch_inr_shape _ _ _ _ H) as [(v & t & Hle & Hm) Hs].
  destruct (guarded_pct_bounds v t Hle) as [H0 H100]. rewrite <- Hm in H0, H100.
  split; [exact H0|]. split; [exact H100|].
  destruct Hs as [Hs|[Hs _]]; rewrite Hs; [apply status_of_not_error|discriminate].
Qed.

Lemma outcome_inr_bounds db rule r :
  outcome db rule = Some (inr r) ->
  (0 <= metric_value r)%Q /\ (metric_value r <= 100)%Q /\ status r <> ERROR.
Proof.
  unfold outcome. destruct (load_config (rule_config rule)) as [e|cfg]; [discriminate|].
  apply dispatch_inr_bounds.
Qed.

(** The exception that leaves the loop is that of the first configuration
    that does not load. *)
Lemma run_rules_first_malformed db rules :
  forall results txn e,
    run_rules db rules results txn = inl e ->
    exists pre rule post msg,
      rules = (pre ++ rule :: post)%list /\ configs_ok pre
      /\ rule_config rule = ConfigMalformed msg /\ e = ValueError msg.
Proof.
  induction rules as [|rule rules IH]; intros results txn e H; [discriminate H|].
  simpl in H. destruct (rule_config rule) as [|c|msg] eqn:Hc; simpl in H.
  - assert (Hrec : exists results' txn', run_rules db rules results' txn' = inl e).
    { destruct (dispatch db rule empty_config) as [[e0|r]|]; eauto. }
    destruct Hrec as (results' & txn' & Hrec).
    destruct (IH _ _ _ Hrec) as (pre & rule' & post & msg & -> & Hpre & Hm & He).
    exists (rule :: pre), rule', post, msg. repeat split; auto.
    constructor; [rewrite Hc; reflexivity|exact Hpre].
  - assert (Hrec : exists results' txn', run_rules db rules results' txn' = inl e).
    { destruct (dispatch db rule c) as [[e0|r]|]; eauto. }
    destruct Hrec as (results' & txn' & Hrec).
    destruct (IH _ _ _ Hrec) as (pre & rule' & post & msg & -> & Hpre & Hm & He).
    exists (rule :: pre), rule', post, msg. repeat split; auto.
    constructor; [rewrite Hc; reflexivity|exact Hpre].
  - exists [], rule, rules, msg. inversion H. repeat split; auto. constructor.
Qed.

Lemma run_quality_checks_inr db store log results log' :
  run_quality_checks db store log = (inr results, log') ->
  configs_ok (fetch_active_rules store).
Proof.
  unfold run_quality_checks.
  destruct (run_rules db (fetch_active_rules store) [] []) as [e|[rs txn]] eqn:Hrun;
    intros H; [discriminate H|].
  eapply run_rules_inr_configs_ok. exact Hrun.
Qed.

(** X1.  A run is all or nothing.  Either every active rule's configuration
    loads, the run returns, and the log grows by exactly one row per active
    rule of a known kind; or the run raises the [ValueError] of the first
    configuration that [json.loads] rejects and the log is left exactly as
    it was, whatever the rules before it produced. *)
Theorem run_is_all_or_nothing :
  forall db store log,
    match run_quality_checks db store log with
    | (inr results, log') =>
        configs_ok (fetch_active_rules store)
        /\ exists rows,
            log' = (log ++ rows)%list
            /\ map row_rule_id rows
               = map rule_id (filter (fun rule => known_rule_type (rule_type rule))
                                     (fetch_active_rules store))
    | (inl e, log') =>
        log' = log
        /\ exists pre rule post msg,
            fetch_active_rules store = (pre ++ rule :: post)%list
            /\ configs_ok pre
            /\ rule_config rule = ConfigMalformed msg
            /\ e = ValueError msg
    end.
Proof.
  intros db store log. unfold run_quality_checks.
  destruct (run_rules db (fetch_active_rules store) [] []) as [e|[results txn]] eqn:Hrun.
  - split; [reflexivity|]. eapply run_rules_first_malformed. exact Hrun.
  - pose proof (run_rules_inr_configs_ok _ _ _ _ _ Hrun) as Hok.
    split; [exact Hok|].
    rewrite (run_rules_spec db _ Hok) in Hrun. inversion Hrun; subst.
    eexists. split; [reflexivity|]. simpl. apply rows_of_ids. exact Hok.
Qed.

Lemma rows_of_results_of db rule :
  map row_of_result (results_of db rule)
  = filter (fun row => negb (status_eqb (row_status row) ERROR)) (rows_of db rule).
Proof.
  unfold results_of, rows_of.
  destruct (outcome db rule) as [[e|r]|] eqn:Ho; simpl; try reflexivity.
  destruct (outcome_inr_bounds _ _ _ Ho) as (_ & _ & Hne).
  destruct (status r); simpl; try reflexivity. congruence.
Qed.

(** X2.  When a run returns, the list handed to the caller is exactly the
    rows the run stored whose status is not ERROR: the same order and, field
    by field, the same values. *)
Theorem returned_list_is_the_stored_rows_without_errors :
  forall db store log results log',
    run_quality_checks db store log = (inr results, log') ->
    exists rows,
      log' = (log ++ rows)%list
      /\ map row_of_result results
         = filter (fun row => negb (status_eqb (row_status row) ERROR)) rows.
Proof.
  intros db store log results log' H.
  pose proof (run_quality_checks_inr _ _ _ _ _ H) as Hok.
  rewrite (run_quality_checks_spec db store log Hok) in H.
  inversion H; subst; clear H.
  eexists. split; [reflexivity|].
  induction (fetch_active_rules store) as [|rule rules IH]; simpl; [reflexivity|].
  inversion Hok as [|? ? _ Hok']; subst.
  rewrite map_app, filter_app, rows_of_results_of, (IH Hok'). reflexivity.
Qed.

Lemma returned_list_is_the_stored_rows_without_errors_witness :
  run_quality_checks sample_db [missing_table_rule; age_rule] []
  = (inr [returned_of age_rule {| metric_value := pct 2 4; status := FAIL;
                                   details := "2/4 out of range (50.00%)" |}],
     [error_row missing_table_rule (ValueError "Invalid table name: missing");
      stored_of age_rule {| metric_value := pct 2 4; status := FAIL;
                            details := "2/4 out of range (50.00%)" |}])
  /\ exists rows,
      [error_row missing_table_rule (ValueError "Invalid table name: missing");
       stored_of age_rule {| metric_value := pct 2 4; status := FAIL;
                             details := "2/4 out of range (50.00%)" |}]
      = ([] ++ rows)%list
      /\ map row_of_result
             [returned_of age_rule {| metric_value := pct 2 4; status := FAIL;
                                      details := "2/4 out of range (50.00%)" |}]
         = filter (fun row => negb (status_eqb (row_status row) ERROR)) rows.
Proof.
  assert (H : run_quality_checks sample_db [missing_table_rule; age_rule] []
              = (inr [returned_of age_rule
                        {| metric_value := pct 2 4; status := FAIL;
                           details := "2/4 out of range (50.00%)" |}],
                 [error_row missing_table_rule (ValueError "Invalid table name: missing");
                  stored_of age_rule {| metric_value := pct 2 4; status := FAIL;
                                        details := "2/4 out of range (50.00%)" |}]))
    by (vm_compute; reflexivity).
  split; [exact H|].
  exact (returned_list_is_the_stored_rows_without_errors _ _ _ _ _ H).
Defined.

Lemma dispatch_agree db db' (rule : QualityRule) (cfg : config) :
  lookup_table db (table_name rule) = lookup_table db' (table_name rule) ->
  (rule_type rule = "foreign_key_check" ->
   forall rt, reference_table cfg = Some rt ->
              lookup_table db rt = lookup_table db' rt) ->
  dispatch db rule cfg = dispatch db' rule cfg.
Proof.
  intros Ht Hfk. unfold dispatch.
  destruct (String.eqb (rule_type rule) "null_check");
    [unfold _check_nulls, _validate_table_name, from_table; rewrite Ht; reflexivity|].
  destruct (String.eqb (rule_type rule) "format_check");
    [unfold _check_format, _validate_table_name, from_table; rewrite Ht; reflexivity|].
  destruct (String.eqb (rule_type rule) "range_check");
    [unfold _check_range, _validate_table_name, from_table; rewrite Ht; reflexivity|].
  destruct (String.eqb (rule_type rule) "uniqueness_check");
    [unfold _check_uniqueness, _validate_table_name, from_table; rewrite Ht;
     reflexivity|].
  destruct (String.eqb (rule_type rule) "foreign_key_check") eqn:E; [|reflexivity].
  apply String.eqb_eq in E. f_equal.
  unfold _check_foreign_key, _validate_table_name, from_table. rewrite Ht.
  destruct (reference_table cfg) as [rt|]; [|reflexivity].
  simpl. rewrite (Hfk E rt eq_refl). reflexivity.
Qed.

Lemma run_rules_agree db db' (rules : list QualityRule) :
  (forall rule name,
      In rule rules -> In name (tables_read rule) ->
      lookup_table db name = lookup_table db' name) ->
  forall results txn,
    run_rules db rules results txn = run_rules db' rules results txn.
Proof.
  induction rules as [|rule rules IH]; intros Hagree results txn; [reflexivity|].
  assert (Hrest : forall rule0 name,
             In rule0 rules -> In name (tables_read rule0) ->
             lookup_table db name = lookup_table db' name).
  { intros rule0 name Hin Hname. apply (Hagree rule0 name); [right|]; assumption. }
  cbn [run_rules].
  destruct (load_config (rule_config rule)) as [e|cfg] eqn:Hcfg; [reflexivity|].
  cbn [bind].
  assert (Hd : dispatch db rule cfg = dispatch db' rule cfg).
  { apply dispatch_agree.
    - apply (Hagree rule); [left; reflexivity|]. left. reflexivity.
    - intros Hfk rt Hrt. apply (Hagree rule); [left; reflexivity|].
      right. unfold tables_read. rewrite Hfk, Hcfg, Hrt. left. reflexivity. }
  rewrite <- Hd. destruct (dispatch db rule cfg) as [[e|r]|]; apply IH; exact Hrest.
Qed.

(** X3.  A run reads only the tables its rules name: the table of each
    active rule and, for a foreign-key rule, its reference table.  Two
    databases that agree on these tables give the same returned list (or the
    same exception) and the same stored rows, whatever their other tables
    hold.  In particular the rows that earlier runs added to
    [quality_results] change a later run only through a rule that names
    [quality_results] itself. *)
Theorem run_reads_only_the_tables_its_rules_name :
  forall db db' store log,
    (forall rule name,
        In rule (fetch_active_rules store) -> In name (tables_read rule) ->
        lookup_table db name = lookup_table db' name) ->
    run_quality_checks db store log = run_quality_checks db' store log.
Proof.
  intros db db' store log Hagree. unfold run_quality_checks.
  rewrite (run_rules_agree db db' _ Hagree). reflexivity.
Qed.

Lemma run_reads_only_the_tables_its_rules_name_witness :
  (forall rule name,
      In rule (fetch_active_rules [order_rule; age_rule]) ->
      In name (tables_read rule) ->
      lookup_table sample_db name
      = lookup_table (("quality_results",
                       column_table "status" "TEXT" [VText "FAIL"; VNull])
                        :: sample_db) name)
  /\ run_quality_checks sample_db [order_rule; age_rule] []
     = run_quality_checks (("quality_results",
                            column_table "status" "TEXT" [VText "FAIL"; VNull])
                             :: sample_db) [order_rule; age_rule] [].
Proof.
  assert (H : forall rule name,
             In rule (fetch_active_rules [order_rule; age_rule]) ->
             In name (tables_read rule) ->
             lookup_table sample_db name
             = lookup_table (("quality_results",
                              column_table "status" "TEXT" [VText "FAIL"; VNull])
                               :: sample_db) name).
  { intros rule name Hin Hname.
    change (fetch_active_rules [order_rule; age_rule]) with [age_rule; order_rule] in Hin.
    destruct Hin as [<-|[<-|[]]]; simpl in Hname;
      repeat (destruct Hname as [<-|Hname]; [reflexivity|]); contradiction. }
  split; [exact H|].
  exact (run_reads_only_the_tables_its_rules_name _ _ _ _ H).
Defined.

(** X4.  Every row a run stores belongs to an active rule of the
    store: it carries that rule's id, table, column and threshold; its
    metric lies between 0 and 100; and a row with status ERROR has metric
    0. *)
Theorem stored_rows_are_well_formed :
  forall db store log results log',
    run_quality_checks db store log = (inr results, log') ->
    exists rows,
      log' = (log ++ rows)%list
      /\ Forall (fun row =>
                   (exists rule,
                       In rule (fetch_active_rules store)
                       /\ row_rule_id row = rule_id rule
                       /\ row_table_name row = table_name rule
                       /\ row_column_name row = column_name rule
                       /\ row_threshold_value row = threshold_value rule)
                   /\ (0 <= row_metric_value row)%Q
                   /\ (row_metric_value row <= 100)%Q
                   /\ (row_status row = ERROR -> row_metric_value row = 0%Q))
                rows.
Proof.
  intros db store log results log' H.
  pose proof (run_quality_checks_inr _ _ _ _ _ H) as Hok.
  rewrite (run_quality_checks_spec db store log Hok) in H.
  inversion H; subst; clear H.
  eexists. split; [reflexivity|].
  apply Forall_forall. intros row Hin.
  apply in_flat_map in Hin. destruct Hin as (rule & Hrule & Hrow).
  unfold rows_of in Hrow.
  destruct (outcome db rule) as [[e|r]|] eqn:Ho; simpl in Hrow;
    try contradiction; destruct Hrow as [<-|[]].
  - split; [exists rule; repeat split; auto|]. simpl.
    repeat split; try reflexivity; unfold Qle; simpl; lia.
  - destruct (outcome_inr_bounds _ _ _ Ho) as (H0 & H100 & Hne).
    split; [exists rule; repeat split; auto|]. simpl.
    split; [exact H0|]. split; [exact H100|]. intros Herr. congruence.
Qed.

Lemma stored_rows_are_well_formed_witness :
  run_quality_checks sample_db [missing_table_rule; age_rule] []
  = (inr [returned_of age_rule {| metric_value := pct 2 4; status := FAIL;
                                   details := "2/4 out of range (50.00%)" |}],
     [error_row missing_table_rule (ValueError "Invalid table name: missing");
      stored_of age_rule {| metric_value := pct 2 4; status := FAIL;
                            details := "2/4 out of range (50.00%)" |}])
  /\ exists rows,
      [error_row missing_table_rule (ValueError "Invalid table name: missing");
       stored_of age_rule {| metric_value := pct 2 4; status := FAIL;
                             details := "2/4 out of range (50.00%)" |}]
      = ([] ++ rows)%list
      /\ Forall (fun row => (0 <= row_metric_value row)%Q
                            /\ (row_metric_value row <= 100)%Q) rows.
Proof.
  assert (H : run_quality_checks sample_db [missing_table_rule; age_rule] []
              = (inr [returned_of age_rule
                        {| metric_value := pct 2 4; status := FAIL;
                           details := "2/4 out of range (50.00%)" |}],
                 [error_row missing_table_rule (ValueError "Invalid table name: missing");
                  stored_of age_rule {| metric_value := pct 2 4; status := FAIL;
                                        details := "2/4 out of range (50.00%)" |}]))
    by (vm_compute; reflexivity).
  split; [exact H|].
  destruct (stored_rows_are_well_formed _ _ _ _ _ H) as (rows & Hlog & Hall).
  exists rows. split; [exact Hlog|].
  eapply Forall_impl; [|exact Hall]. intros row (_ & H0 & H100 & _). split; assumption.
Defined.

(* ------------------------------------------------------------------ *)
(** * Further properties of the checkers *)

Lemma validate_missing_table db tn :
  lookup_table db tn = None ->
  _validate_table_name db (Some tn) = inl (ValueError ("Invalid table name: " ++ tn)).
Proof. intros H. unfold _validate_table_name. rewrite H. reflexivity. Qed.

(** X5.  A rule of any known kind whose table is not in the
    database makes its checker raise [ValueError] with the text "Invalid
    table name: " followed by the name, before any statement is run on the
    data; the run stores that text in an ERROR row. *)
Theorem missing_table_raises_value_error :
  forall db rule cfg,
    known_rule_type (rule_type rule) = true ->
    lookup_table db (table_name rule) = None ->
    dispatch db rule cfg
    = Some (inl (ValueError ("Invalid table name: " ++ table_name rule)))
    /\ (load_config (rule_config rule) = inr cfg ->
        rows_of db rule
        = [ {| row_rule_id := rule_id rule;
               row_table_name := table_name rule;
               row_column_name := column_name rule;
               row_metric_value := 0;
               row_threshold_value := threshold_value rule;
               row_status := ERROR;
               row_details := "Invalid table name: " ++ table_name rule |} ]).
Proof.
  intros db rule cfg Hk Hno.
  pose proof (validate_missing_table _ _ Hno) as Hv.
  assert (Hd : dispatch db rule cfg
               = Some (inl (ValueError ("Invalid table name: " ++ table_name rule)))).
  { destruct (known_rule_type_cases _ Hk) as [E|[E|[E|[E|E]]]];
      unfold dispatch; rewrite E; simpl;
      [unfold _check_nulls | unfold _check_format | unfold _check_range
       | unfold _check_uniqueness | unfold _check_foreign_key];
      unfold bind; rewrite Hv; reflexivity. }
  split; [exact Hd|].
  intros Hcfg. unfold rows_of, outcome. rewrite Hcfg, Hd. reflexivity.
Qed.

Lemma missing_table_raises_value_error_witness :
  known_rule_type (rule_type missing_table_rule) = true
  /\ lookup_table sample_db (table_name missing_table_rule) = None
  /\ dispatch sample_db missing_table_rule empty_config
     = Some (inl (ValueError ("Invalid table name: " ++ table_name missing_table_rule))).
Proof.
  assert (H1 : known_rule_type (rule_type missing_table_rule) = true) by reflexivity.
  assert (H2 : lookup_table sample_db (table_name missing_table_rule) = None)
    by reflexivity.
  split; [exact H1|]. split; [exact H2|].
  exact (proj1 (missing_table_raises_value_error sample_db missing_table_rule
                  empty_config H1 H2)).
Defined.

(** X6.  A foreign-key rule whose own table exists but whose reference
    table is not in the database, or is not given at all, makes the checker
    raise [ValueError] "Invalid table name: " followed by the reference
    table as Python prints it ("None" when it is not given), before the
    join is run and whatever the columns are; the run stores that text in
    an ERROR row with metric 0. *)
Theorem missing_reference_table_raises_value_error :
  forall db rule cfg t,
    rule_type rule = "foreign_key_check" ->
    lookup_table db (table_name rule) = Some t ->
    (forall rt, reference_table cfg = Some rt -> lookup_table db rt = None) ->
    dispatch db rule cfg
    = Some (inl (ValueError ("Invalid table name: "
                               ++ py_str_opt (reference_table cfg))))
    /\ (load_config (rule_config rule) = inr cfg ->
        rows_of db rule
        = [ {| row_rule_id := rule_id rule;
               row_table_name := table_name rule;
               row_column_name := column_name rule;
               row_metric_value := 0;
               row_threshold_value := threshold_value rule;
               row_status := ERROR;
               row_details := "Invalid table name: "
                              ++ py_str_opt (reference_table cfg) |} ]).
Proof.
  intros db rule cfg t Hfk Ht Hno.
  assert (Hd : dispatch db rule cfg
               = Some (inl (ValueError ("Invalid table name: "
                                          ++ py_str_opt (reference_table cfg))))).
  { unfold dispatch. rewrite Hfk. simpl. f_equal.
    unfold _check_foreign_key, bind.
    rewrite (validate_existing_table _ _ _ Ht).
    destruct (reference_table cfg) as [rt|]; [|reflexivity].
    simpl. rewrite (Hno rt eq_refl). reflexivity. }
  split; [exact Hd|].
  intros Hcfg. unfold rows_of, outcome. rewrite Hcfg, Hd. reflexivity.
Qed.

Lemma missing_reference_table_raises_value_error_witness :
  lookup_table sample_db "orders"
  = Some (column_table "customer_id" "INTEGER" [VInt 1; VInt 2; VInt 3; VInt 99])
  /\ lookup_table sample_db "clients" = None
  /\ dispatch sample_db order_rule
       {| pattern := None; min := None; max := None;
          reference_table := Some "clients"; reference_column := Some "id" |}
     = Some (inl (ValueError "Invalid table name: clients")).
Proof.
  assert (H1 : lookup_table sample_db (table_name order_rule)
               = Some (column_table "customer_id" "INTEGER"
                         [VInt 1; VInt 2; VInt 3; VInt 99])) by reflexivity.
  assert (H2 : forall rt,
             reference_table
               {| pattern := None; min := None; max := None;
                  reference_table := Some "clients"; reference_column := Some "id" |}
             = Some rt ->
             lookup_table sample_db rt = None).
  { intros rt E. inversion E; subst rt. reflexivity. }
  split; [exact H1|]. split; [reflexivity|].
  exact (proj1 (missing_reference_table_raises_value_error
                  sample_db order_rule _ _ eq_refl H1 H2)).
Defined.

Lemma status_of_monotone (m th th' : Q) :
  (th <= th')%Q -> status_of m th = PASS -> status_of m th' = PASS.
Proof.
  intros Hle H. apply status_of_pass in H. apply status_of_pass.
  eapply Qle_trans; eassumption.
Qed.

Lemma checkers_same_but_threshold db tn cn pat lo hi rt rc th th' :
  same_but_threshold th th' (_check_nulls db tn cn th) (_check_nulls db tn cn th')
  /\ same_but_threshold th th' (_check_format db tn cn pat th)
                        (_check_format db tn cn pat th')
  /\ same_but_threshold th th' (_check_range db tn cn lo hi th)
                        (_check_range db tn cn lo hi th')
  /\ same_but_threshold th th' (_check_uniqueness db tn cn th)
                        (_check_uniqueness db tn cn th')
  /\ same_but_threshold th th' (_check_foreign_key db tn cn rt rc th)
                        (_check_foreign_key db tn cn rt rc th').
Proof.
  unfold same_but_threshold, _check_nulls, _check_format, _check_range,
    _check_uniqueness, _check_foreign_key, bind.
  destruct (_validate_table_name db (Some tn)) as [e|u]; [repeat split|].
  destruct (from_table db tn) as [e|t].
  { repeat split. destruct (_validate_table_name db rt); reflexivity. }
  split; [|split; [|split; [|split]]].
  - destruct (select_column "" t cn); simpl; auto.
  - destruct (select_column "" t cn) as [e|vs]; simpl; auto.
    destruct (filter is_not_null_nor_empty vs) as [|v values]; [simpl; auto|].
    cbv iota. generalize (v :: values). intros vals.
    destruct (count_invalid pat vals 0); simpl; auto.
  - destruct (select_column "" t cn) as [e|vs]; simpl; auto.
    destruct lo, hi; simpl; auto.
  - destruct (select_column "" t cn); simpl; auto.
  - destruct (_validate_table_name db rt); auto.
    destruct (from_table db (py_str_opt rt)); auto.
    destruct (select_column "r." t0 (py_str_opt rc)); auto.
    destruct (select_column "t." t cn); simpl; auto.
Qed.

(** X7.  The threshold of a rule decides nothing but the status:
    with another threshold the checker raises the same exception or returns
    the same metric and the same details, and a result that is PASS stays
    PASS under any larger threshold. *)
Theorem threshold_only_decides_the_status :
  forall db rule cfg th',
    match dispatch db rule cfg, dispatch db (with_threshold rule th') cfg with
    | Some (inr r), Some (inr r') =>
        metric_value r = metric_value r' /\ details r = details r'
        /\ ((threshold_value rule <= th')%Q -> status r = PASS -> status r' = PASS)
    | Some (inl e), Some (inl e') => e = e'
    | None, None => True
    | _, _ => False
    end.
Proof.
  intros db rule cfg th'.
  destruct (checkers_same_but_threshold db (table_name rule) (column_name rule)
              (pattern cfg) (min cfg) (max cfg) (reference_table cfg)
              (reference_column cfg) (threshold_value rule) th')
    as (Hn & Hf & Hr & Hu & Hk).
  assert (Hgoal : forall c c',
             same_but_threshold (threshold_value rule) th' c c' ->
             match Some c, Some c' with
             | Some (inr r), Some (inr r') =>
                 metric_value r = metric_value r' /\ details r = details r'
                 /\ ((threshold_value rule <= th')%Q -> status r = PASS -> status r' = PASS)
             | Some (inl e), Some (inl e') => e = e'
             | None, None => True
             | _, _ => False
             end).
  { intros [e|r] [e'|r'] H; simpl in H; auto.
    destruct H as (Hm & Hd & Hs). split; [exact Hm|]. split; [exact Hd|].
    intros Hle Hp. destruct Hs as [[Hs Hs']|[_ Hs']]; [|exact Hs'].
    rewrite Hs'. rewrite Hs in Hp. eapply status_of_monotone; eassumption. }
  unfold dispatch. simpl.
  repeat match goal with
         | |- context [if String.eqb ?a ?b then _ else _] =>
             destruct (String.eqb a b); [apply Hgoal; assumption|]
         end.
  exact I.
Qed.

(** [a / b * 100] equals the integer [k] exactly when [100 a = k b]. *)
Lemma pct_eq_nat (a b k : nat) :
  (0 < b)%nat -> ((pct a b == Q_of_nat k)%Q <-> (100 * a = k * b)%nat).
Proof.
  intros Hb. destruct b as [|b']; [lia|].
  unfold pct, Q_of_nat, Qeq, Qdiv, Qmult, Qinv, inject_Z.
  cbn [Z.of_nat Qnum Qden]. simpl Qnum. simpl Qden.
  rewrite !Pos.mul_1_r, !Z.mul_1_r.
  replace (Zpos (Pos.of_succ_nat b')) with (Z.of_nat (S b')) by (simpl; reflexivity).
  split; intros H; lia.
Qed.

Lemma guarded_pct_zero_iff (a b : nat) :
  (a <= b)%nat ->
  (((if (0 <? b)%nat then pct a b else 0) == 0)%Q <-> a = 0%nat).
Proof.
  intros Hab. destruct (0 <? b)%nat eqn:Hb.
  - apply Nat.ltb_lt in Hb. change 0%Q with (Q_of_nat 0).
    rewrite (pct_eq_nat a b 0 Hb). lia.
  - apply Nat.ltb_ge in Hb. split; intros _; [lia|reflexivity].
Qed.

Lemma count_where_zero_iff (p : value -> bool) (vs : list value) :
  count_where p vs = 0%nat <-> forall v, In v vs -> p v = false.
Proof.
  unfold count_where. induction vs as [|v vs IH]; simpl.
  - split; [intros _ v []|reflexivity].
  - destruct (p v) eqn:Hp; simpl.
    + split; [discriminate|]. intros H. specialize (H v (or_introl eq_refl)). congruence.
    + rewrite IH. split.
      * intros H w [<-|Hw]; [exact Hp|apply H; exact Hw].
      * intros H w Hw. apply H. right. exact Hw.
Qed.






Lemma sql_eq_filter_empty (v : value) (rvs : list value) :
  is_not_null v = true ->
  (filter (sql_eq v) rvs = [] <-> existsb (value_eqb v) rvs = false).
Proof.
  intros Hv. induction rvs as [|w rvs IH]; simpl; [tauto|].
  assert (Heq : sql_eq v w = value_eqb v w).
  { unfold sql_eq. rewrite Hv. simpl.
    destruct (value_eqb v w) eqn:E; [|apply andb_false_r].
    apply value_eqb_eq in E. subst w. rewrite Hv. reflexivity. }
  rewrite Heq. destruct (value_eqb v w); simpl; [split; discriminate|exact IH].
Qed.

Lemma no_orphan_among_matches (v : value) (ms : list value) :
  (forall w, In w ms -> is_orphan (v, w) = false) ->
  length (filter is_orphan (map (fun w => (v, w)) ms)) = 0%nat.
Proof.
  induction ms as [|w ms IH]; intros Hall; [reflexivity|].
  cbn [map filter]. rewrite (Hall w (or_introl eq_refl)).
  apply IH. intros w0 Hin. apply Hall. right. exact Hin.
Qed.

(** The joined rows of one key: an orphan exactly when the key is not null
    and equals no cell of the referenced column. *)
Lemma orphans_of_row_exact (v : value) (rvs : list value) :
  length (filter is_orphan
            match filter (sql_eq v) rvs with
            | [] => [(v, VNull)]
            | ms => map (fun w => (v, w)) ms
            end)
  = if unmatched rvs v then 1%nat else 0%nat.
Proof.
  unfold unmatched.
  destruct (is_not_null v) eqn:Hnn.
  - pose proof (sql_eq_filter_empty v rvs Hnn) as Hiff.
    destruct (filter (sql_eq v) rvs) as [|w ws] eqn:Hm.
    + rewrite (proj1 Hiff eq_refl). simpl. unfold is_orphan. simpl.
      rewrite Hnn. reflexivity.
    + destruct (existsb (value_eqb v) rvs) eqn:Hex;
        [|destruct Hiff as [_ Hiff]; discriminate (Hiff eq_refl)].
      simpl andb.
      apply no_orphan_among_matches.
      intros w0 Hin. rewrite <- Hm in Hin. apply filter_In in Hin.
      destruct Hin as [_ Heq]. unfold sql_eq in Heq.
      apply andb_true_iff in Heq. destruct Heq as [Heq _].
      apply andb_true_iff in Heq. destruct Heq as [_ Hw].
      unfold is_orphan. simpl. unfold is_not_null in Hw.
      destruct (is_null w0); [discriminate|]. apply andb_false_r.
  - pose proof (orphans_of_row v rvs) as Hle. rewrite Hnn in Hle.
    simpl andb. cbv iota. lia.
Qed.

(** The [LEFT JOIN ... WHERE r.d IS NULL] counts the keys without a match,
    each once. *)
Lemma orphans_are_unmatched (tvs rvs : list value) :
  length (filter is_orphan (left_join tvs rvs)) = count_where (unmatched rvs) tvs.
Proof.
  unfold left_join, count_where.
  induction tvs as [|v tvs IH]; [reflexivity|].
  cbn [flat_map]. rewrite filter_app, length_app, IH. cbn [filter].
  rewrite (orphans_of_row_exact v rvs).
  destruct (unmatched rvs v); reflexivity.
Qed.

(** X9.  On key and referenced columns whose cells are integers or NULL,
    where the comparison of the join is the equality of integers, the
    foreign-key check counts the keys that equal no cell of the referenced
    column, each once however many rows of the referenced table match the
    others; its metric is 0 exactly when every key occurs in the referenced
    column. *)
Theorem foreign_key_counts_unmatched_integer_keys :
  forall db tn cn rt rc th r t vs ref rvs,
    _check_foreign_key db tn cn (Some rt) (Some rc) th = inr r ->
    lookup_table db tn = Some t ->
    select_column "" t cn = inr vs ->
    lookup_table db rt = Some ref ->
    select_column "" ref rc = inr rvs ->
    forallb is_null_or_int vs = true ->
    forallb is_null_or_int rvs = true ->
    metric_value r
    = (if (0 <? count_where is_not_null vs)%nat
       then pct (count_where (unmatched rvs) vs) (count_where is_not_null vs)
       else 0%Q)
    /\ ((metric_value r == 0)%Q
        <-> forall z, In (VInt z) vs -> In (VInt z) rvs).
Proof.
  intros db tn cn rt rc th r t vs ref rvs H Ht Hvs Href Hrvs Hint _.
  apply _check_foreign_key_inr in H.
  destruct H as (t' & vs' & ref' & rvs' & Ht' & Hvs' & Href' & Hrvs' & Hm & _).
  simpl in Href', Hrvs'.
  rewrite Ht in Ht'. inversion Ht'; subst t'.
  rewrite Hvs in Hvs'. inversion Hvs'; subst vs'.
  rewrite Href in Href'. inversion Href'; subst ref'.
  rewrite Hrvs in Hrvs'. inversion Hrvs'; subst rvs'.
  cbv zeta in Hm. rewrite orphans_are_unmatched in Hm.
  split; [exact Hm|]. rewrite Hm.
  assert (Hle : (count_where (unmatched rvs) vs <= count_where is_not_null vs)%nat).
  { apply count_where_mono. intros v Hv. unfold unmatched in Hv.
    apply andb_true_iff in Hv. tauto. }
  rewrite (guarded_pct_zero_iff _ _ Hle), count_where_zero_iff.
  split.
  - intros Hall z Hin. specialize (Hall (VInt z) Hin). unfold unmatched in Hall.
    simpl in Hall. apply negb_false_iff in Hall.
    apply existsb_exists in Hall. destruct Hall as (w & Hw & Heq).
    apply value_eqb_eq in Heq. subst w. exact Hw.
  - intros Hall v Hin. unfold unmatched.
    rewrite forallb_forall in Hint. specialize (Hint v Hin).
    destruct v as [|z|s]; [reflexivity| |discriminate Hint]. simpl.
    apply negb_false_iff. apply existsb_exists. exists (VInt z).
    split; [apply Hall; exact Hin|apply value_eqb_eq; reflexivity].
Qed.

Lemma foreign_key_counts_unmatched_integer_keys_witness :
  _check_foreign_key sample_db "orders" "customer_id" (Some "customers") (Some "id") 0
  = inr {| metric_value := pct 1 4; status := FAIL;
           details := "1 orphan records (25.00%)" |}
  /\ forallb is_null_or_int [VInt 1; VInt 2; VInt 3; VInt 99] = true
  /\ forallb is_null_or_int [VInt 1; VInt 2; VInt 3] = true
  /\ pct 1 4
     = (if (0 <? count_where is_not_null [VInt 1; VInt 2; VInt 3; VInt 99])%nat
        then pct (count_where (unmatched [VInt 1; VInt 2; VInt 3])
                              [VInt 1; VInt 2; VInt 3; VInt 99])
                 (count_where is_not_null [VInt 1; VInt 2; VInt 3; VInt 99])
        else 0%Q).
Proof.
  assert (H : _check_foreign_key sample_db "orders" "customer_id"
                                 (Some "customers") (Some "id") 0
              = inr {| metric_value := pct 1 4; status := FAIL;
                       details := "1 orphan records (25.00%)" |})
    by (vm_compute; reflexivity).
  assert (H1 : forallb is_null_or_int [VInt 1; VInt 2; VInt 3; VInt 99] = true)
    by reflexivity.
  assert (H2 : forallb is_null_or_int [VInt 1; VInt 2; VInt 3] = true) by reflexivity.
  split; [exact H|]. split; [exact H1|]. split; [exact H2|].
  exact (proj1 (foreign_key_counts_unmatched_integer_keys
                  sample_db "orders" "customer_id" "customers" "id" 0%Q _
                  (column_table "customer_id" "INTEGER" [VInt 1; VInt 2; VInt 3; VInt 99])
                  [VInt 1; VInt 2; VInt 3; VInt 99]
                  (column_table "id" "INTEGER" [VInt 1; VInt 2; VInt 3])
                  [VInt 1; VInt 2; VInt 3] H eq_refl eq_refl eq_refl eq_refl H1 H2)).
Defined.

Lemma out_of_range_int (lo hi : option Q) (z : Z) :
  out_of_range lo hi (VInt z) = false <-> within_bounds lo hi z.
Proof.
  unfold within_bounds.
  destruct lo as [l|], hi as [h|]; simpl.
  - rewrite orb_false_iff, !negb_false_iff, !Qle_bool_iff. split.
    + intros [Hl Hh]. split; intros x Hx; inversion Hx; subst; assumption.
    + intros [Hl Hh]. split; [apply Hl|apply Hh]; reflexivity.
  - rewrite negb_false_iff, Qle_bool_iff. split.
    + intros Hl. split; intros x Hx; inversion Hx; subst; assumption.
    + intros [Hl _]. apply Hl. reflexivity.
  - rewrite negb_false_iff, Qle_bool_iff. split.
    + intros Hh. split; intros x Hx; inversion Hx; subst; assumption.
    + intros [_ Hh]. apply Hh. reflexivity.
  - split; [|reflexivity]. intros _. split; intros x Hx; discriminate Hx.
Qed.

(** X10.  On a column whose cells are integers or NULL, a range check
    with at least one bound reports 0 exactly when every integer of the
    column is at least the minimum, if one is given, and at most the
    maximum, if one is given; NULL cells are never counted. *)
Theorem range_metric_zero_iff_all_within_bounds :
  forall db tn cn lo hi th r t vs,
    _check_range db tn cn lo hi th = inr r ->
    lookup_table db tn = Some t ->
    select_column "" t cn = inr vs ->
    forallb is_null_or_int vs = true ->
    ((metric_value r == 0)%Q
     <-> forall z, In (VInt z) vs -> within_bounds lo hi z).
Proof.
  intros db tn cn lo hi th r t vs H Ht Hvs Hint.
  apply _check_range_inr in H. destruct H as (t' & vs' & Ht' & Hvs' & H).
  rewrite Ht in Ht'. inversion Ht'; subst t'.
  rewrite Hvs in Hvs'. inversion Hvs'; subst vs'.
  assert (Hchar : (forall v, In v vs -> out_of_range lo hi v = false)
                  <-> forall z, In (VInt z) vs -> within_bounds lo hi z).
  { split.
    - intros Hall z Hz. apply out_of_range_int. apply Hall. exact Hz.
    - intros Hall v Hv. rewrite forallb_forall in Hint. specialize (Hint v Hv).
      destruct v as [|z|s]; [|apply out_of_range_int; apply Hall; exact Hv|discriminate].
      destruct lo, hi; reflexivity. }
  destruct H as [(-> & -> & ->)|[_ H]].
  - simpl. split; [|reflexivity]. intros _ z _.
    split; intros x Hx; discriminate Hx.
  - cbv zeta in H. destruct H as (Hle & Hm & _). rewrite Hm.
    rewrite (guarded_pct_zero_iff _ _ Hle), count_where_zero_iff. exact Hchar.
Qed.

Lemma range_metric_zero_iff_all_within_bounds_witness :
  _check_range sample_db "customers" "id" (Some 0%Q) (Some 120%Q) 5
  = inr {| metric_value := pct 0 3; status := PASS;
           details := "0/3 out of range (0.00%)" |}
  /\ forallb is_null_or_int [VInt 1; VInt 2; VInt 3] = true
  /\ ((pct 0 3 == 0)%Q
      <-> forall z, In (VInt z) [VInt 1; VInt 2; VInt 3]
                    -> within_bounds (Some 0%Q) (Some 120%Q) z).
Proof.
  assert (H : _check_range sample_db "customers" "id" (Some 0%Q) (Some 120%Q) 5
              = inr {| metric_value := pct 0 3; status := PASS;
                       details := "0/3 out of range (0.00%)" |})
    by (vm_compute; reflexivity).
  assert (Hint : forallb is_null_or_int [VInt 1; VInt 2; VInt 3] = true) by reflexivity.
  split; [exact H|]. split; [exact Hint|].
  exact (range_metric_zero_iff_all_within_bounds
           sample_db "customers" "id" (Some 0%Q) (Some 120%Q) 5%Q _
           (column_table "id" "INTEGER" [VInt 1; VInt 2; VInt 3])
           [VInt 1; VInt 2; VInt 3] H eq_refl eq_refl Hint).
Defined.

Lemma count_invalid_raises (pat : option string) (e : exn) :
  (forall s, Re.re_match pat s = inl e) ->
  forall values k, values <> [] -> count_invalid pat values k = inl e.
Proof.
  intros Hraise values k Hne. destruct values as [|v values]; [congruence|].
  simpl. rewrite Hraise. reflexivity.
Qed.

(** X11.  The pattern of a format check is looked at only when
    there is a value to match.  On a column with no value that is neither
    NULL nor empty the check returns metric 0 and PASS whatever the pattern
    and the threshold, even for a missing or malformed pattern.  As soon as
    the column has such a value, a missing pattern raises [TypeError] and a
    pattern that does not compile raises its [re.error]. *)
Theorem format_check_reads_pattern_only_on_values :
  forall db tn cn th t vs,
    lookup_table db tn = Some t ->
    select_column "" t cn = inr vs ->
    (filter is_not_null_nor_empty vs = [] ->
     forall pat,
       _check_format db tn cn pat th
       = inr {| metric_value := 0; status := PASS; details := "No values to check" |})
    /\ (filter is_not_null_nor_empty vs <> [] ->
        _check_format db tn cn None th
        = inl (TypeError "first argument must be string or compiled pattern")
        /\ forall p e,
            Re.compile p = inl e ->
            _check_format db tn cn (Some p) th = inl e).
Proof.
  intros db tn cn th t vs Ht Hvs.
  pose proof (validate_existing_table _ _ _ Ht) as Hv.
  assert (Hfrom : from_table db tn = inr t) by (apply from_table_inr; exact Ht).
  split.
  - intros Hnil pat. unfold _check_format, bind. rewrite Hv, Hfrom, Hvs, Hnil.
    reflexivity.
  - intros Hne. split.
    + unfold _check_format, bind. rewrite Hv, Hfrom, Hvs.
      destruct (filter is_not_null_nor_empty vs) as [|v values]; [congruence|].
      reflexivity.
    + intros p e Hc. unfold _check_format, bind. rewrite Hv, Hfrom, Hvs.
      destruct (filter is_not_null_nor_empty vs) as [|v values]; [congruence|].
      cbn [count_invalid]. unfold Re.re_match, bind. rewrite Hc. reflexivity.
Qed.

Lemma format_check_reads_pattern_only_on_values_witness :
  lookup_table sample_db "notes" = Some (column_table "note" "TEXT" [VText ""])
  /\ select_column "" (column_table "note" "TEXT" [VText ""]) "note" = inr [VText ""]
  /\ filter is_not_null_nor_empty [VText ""] = []
  /\ _check_format sample_db "notes" "note" (Some "[0-9") (-1)
     = inr {| metric_value := 0; status := PASS; details := "No values to check" |}.
Proof.
  assert (H1 : lookup_table sample_db "notes"
               = Some (column_table "note" "TEXT" [VText ""])) by reflexivity.
  assert (H2 : select_column "" (column_table "note" "TEXT" [VText ""]) "note"
               = inr [VText ""]) by reflexivity.
  assert (H3 : filter is_not_null_nor_empty [VText ""] = []) by reflexivity.
  split; [exact H1|]. split; [exact H2|]. split; [exact H3|].
  exact (proj1 (format_check_reads_pattern_only_on_values
                  sample_db "notes" "note" (-1)%Q _ _ H1 H2) H3 (Some "[0-9")).
Defined.

(** The loop of the format check with a pattern that compiles: it never
    raises, and adds one for each value the pattern does not match. *)
Lemma count_invalid_compiled (p : string) (rx : Re.regex) (values : list value) :
  Re.compile p = inr rx ->
  forall k,
    count_invalid (Some p) values k
    = inr (k + count_where
                 (fun v => negb (Re.rmatch rx true (list_ascii_of_string (py_str v))
                                           (fun _ _ => true)))
                 values)%nat.
Proof.
  intros Hc. unfold count_where.
  induction values as [|v values IH]; intros k; simpl.
  - rewrite Nat.add_0_r. reflexivity.
  - unfold Re.re_match, bind. rewrite Hc. simpl.
    destruct (Re.rmatch rx true (list_ascii_of_string (py_str v)) (fun _ _ => true));
      simpl; rewrite IH; f_equal; lia.
Qed.

(** X12.  With a pattern that compiles and at least one value to
    check, the format check returns: its metric is the percentage of the
    values (neither NULL nor empty, integers in their decimal writing) that
    the pattern does not match from their first character, and it is 0
    exactly when the pattern matches every one of them. *)
Theorem format_check_counts_unmatched_values :
  forall db tn cn p th t vs rx,
    lookup_table db tn = Some t ->
    select_column "" t cn = inr vs ->
    filter is_not_null_nor_empty vs <> [] ->
    Re.compile p = inr rx ->
    let values := filter is_not_null_nor_empty vs in
    let matches := fun v => Re.rmatch rx true (list_ascii_of_string (py_str v))
                                      (fun _ _ => true) in
    exists r,
      _check_format db tn cn (Some p) th = inr r
      /\ metric_value r
         = pct (count_where (fun v => negb (matches v)) values) (length values)
      /\ ((metric_value r == 0)%Q <-> forall v, In v values -> matches v = true).
Proof.
  intros db tn cn p th t vs rx Ht Hvs Hne Hc values matches.
  pose proof (validate_existing_table _ _ _ Ht) as Hv.
  assert (Hfrom : from_table db tn = inr t) by (apply from_table_inr; exact Ht).
  unfold _check_format, bind. rewrite Hv, Hfrom, Hvs.
  fold values. fold values in Hne.
  destruct values as [|v values'] eqn:Hval; [congruence|].
  rewrite (count_invalid_compiled p rx (v :: values') Hc 0). cbn [Nat.add].
  fold matches.
  eexists. split; [reflexivity|]. cbn [metric_value]. split; [reflexivity|].
  assert (Hpos : (0 < length (v :: values'))%nat) by (simpl; lia).
  change 0%Q with (Q_of_nat 0). rewrite (pct_eq_nat _ _ 0 Hpos).
  pose proof (count_where_zero_iff (fun v0 => negb (matches v0)) (v :: values')) as Hz.
  cbv beta in Hz. split.
  - intros H100 w Hw.
    assert (H0 : count_where (fun v0 => negb (matches v0)) (v :: values') = 0%nat)
      by (unfold matches; lia).
    apply negb_false_iff. apply (proj1 Hz H0 w Hw).
  - intros Hall.
    assert (H0 : count_where (fun v0 => negb (matches v0)) (v :: values') = 0%nat).
    { apply Hz. intros w Hw. rewrite (Hall w Hw). reflexivity. }
    unfold matches in H0. lia.
Qed.

Lemma format_check_counts_unmatched_values_witness :
  lookup_table sample_db "codes"
  = Some (column_table "code" "TEXT" [VText "123"; VText "12a"; VText ""; VNull])
  /\ filter is_not_null_nor_empty [VText "123"; VText "12a"; VText ""; VNull] <> []
  /\ exists r, _check_format sample_db "codes" "code" (Some "^[0-9]+$") 10 = inr r.
Proof.
  assert (H1 : lookup_table sample_db "codes"
               = Some (column_table "code" "TEXT"
                         [VText "123"; VText "12a"; VText ""; VNull])) by reflexivity.
  assert (H2 : select_column "" (column_table "code" "TEXT"
                                   [VText "123"; VText "12a"; VText ""; VNull]) "code"
               = inr [VText "123"; VText "12a"; VText ""; VNull]) by reflexivity.
  assert (H3 : filter is_not_null_nor_empty [VText "123"; VText "12a"; VText ""; VNull]
               <> []) by discriminate.
  split; [exact H1|]. split; [exact H3|].
  destruct (Re.compile "^[0-9]+$") as [e|rx] eqn:Hc; [vm_compute in Hc; discriminate Hc|].
  destruct (format_check_counts_unmatched_values
              sample_db "codes" "code" "^[0-9]+$" 10%Q _ _ rx H1 H2 H3 Hc)
    as (r & Hr & _).
  exists r. exact Hr.
Defined.

Lemma _check_format_nothing_to_check db tn cn pat th t vs :
  lookup_table db tn = Some t ->
  select_column "" t cn = inr vs ->
  filter is_not_null_nor_empty vs = [] ->
  _check_format db tn cn pat th
  = inr {| metric_value := 0; status := PASS; details := "No values to check" |}.
Proof.
  intros Ht Hvs Hnil.
  unfold _check_format, bind.
  rewrite (validate_existing_table _ _ _ Ht), (proj2 (from_table_inr _ _ _) Ht), Hvs, Hnil.
  reflexivity.
Qed.

(** X13.  A column that the null check reports as 100 percent null
    or empty passes the format check with metric 0, whatever the pattern and
    whatever the threshold of the format rule. *)
Theorem all_null_column_passes_format_check :
  forall db tn cn th r,
    _check_nulls db tn cn th = inr r ->
    (metric_value r == 100)%Q ->
    forall pat th',
      _check_format db tn cn pat th'
      = inr {| metric_value := 0; status := PASS; details := "No values to check" |}.
Proof.
  intros db tn cn th r H H100 pat th'.
  apply _check_nulls_inr in H. destruct H as (t & vs & Ht & Hvs & Hm & _).
  cbv zeta in Hm. rewrite Hm in H100.
  apply (_check_format_nothing_to_check db tn cn pat th' t vs Ht Hvs).
  destruct (0 <? length vs)%nat eqn:Hpos.
  - apply Nat.ltb_lt in Hpos.
    change 100%Q with (Q_of_nat 100) in H100.
    apply (pct_eq_nat _ _ 100 Hpos) in H100.
    pose proof (null_or_empty_complement vs) as Hc. unfold count_where in Hc.
    assert (Hz : length (filter is_not_null_nor_empty vs) = 0%nat)
      by (unfold count_where in H100; lia).
    destruct (filter is_not_null_nor_empty vs); [reflexivity|discriminate Hz].
  - exfalso. discriminate H100.
Qed.

Lemma all_null_column_passes_format_check_witness :
  _check_nulls sample_db "notes" "note" 5
  = inr {| metric_value := pct 1 1; status := FAIL;
           details := "1/1 null values (100.00%)" |}
  /\ (pct 1 1 == 100)%Q
  /\ _check_format sample_db "notes" "note" None (-1)
     = inr {| metric_value := 0; status := PASS; details := "No values to check" |}.
Proof.
  assert (H : _check_nulls sample_db "notes" "note" 5
              = inr {| metric_value := pct 1 1; status := FAIL;
                       details := "1/1 null values (100.00%)" |})
    by (vm_compute; reflexivity).
  assert (H100 : (pct 1 1 == 100)%Q) by reflexivity.
  split; [exact H|]. split; [exact H100|].
  exact (all_null_column_passes_format_check sample_db "notes" "note" 5%Q _ H H100
                                             None (-1)%Q).
Defined.

(* ------------------------------------------------------------------ *)
(** * Further properties of the profiler *)

Lemma profile_column_percentages (num : string -> Q) (total : nat)
      (c : string * string) (vs : list value) :
  let p := profile_column num total c vs in
  p_null_percentage p
  = (if (0 <? total)%nat then pct (count_where is_null_or_empty vs) total else 0%Q)
  /\ p_unique_percentage p
     = (if (0 <? total)%nat then pct (count_distinct_not_null vs) total else 0%Q).
Proof.
  unfold profile_column.
  destruct (existsb (String.eqb (snd c)) numeric_types);
    [|destruct (String.eqb (snd c) "TEXT")]; simpl; auto.
Qed.

Lemma profile_columns_describe (num : string -> Q) (t : table)
      (cols : list (string * string)) (ps : list column_profile) :
  profile_columns num t cols = inr ps ->
  map (fun p => (p_column_name p, p_data_type p)) ps = cols
  /\ Forall (fun p => p_total_count p = length (rows t)) ps.
Proof.
  revert ps. induction cols as [|c cols IH]; simpl; intros ps H.
  - inversion H; subst. split; [reflexivity|constructor].
  - inv_bind H. inversion H; subst; clear H.
    destruct (IH _ eq_refl) as [Hnames Htot].
    destruct (profile_column_counts num (length (rows t)) c l) as (Hn & Hty & Hto & _).
    split.
    + simpl. rewrite Hn, Hty, Hnames. destruct c; reflexivity.
    + constructor; [exact Hto|exact Htot].
Qed.

(** X14.  The profile route answers a table that is not in the
    database with status 500 and the error "Invalid table name: " followed
    by the name; for a table of the database it answers with one profile per
    column, in the order of the table's columns, each with the column's name
    and declared type and with the table's row count as total count. *)
Theorem profile_route_answers :
  forall numeric_of_text db tn,
    match lookup_table db tn with
    | None =>
        profile_table numeric_of_text db tn
        = Response500 ("Invalid table name: " ++ tn)
    | Some t =>
        exists ps,
          profile_data numeric_of_text db tn = inr ps
          /\ profile_table numeric_of_text db tn = Response200 ps
          /\ map (fun p => (p_column_name p, p_data_type p)) ps = columns t
          /\ Forall (fun p => p_total_count p = length (rows t)) ps
    end.
Proof.
  intros num db tn. destruct (lookup_table db tn) as [t|] eqn:Ht.
  - destruct (profile_data_spec num db tn t Ht) as (ps & Hps & _).
    exists ps. split; [exact Hps|].
    split; [unfold profile_table; rewrite Hps; reflexivity|].
    unfold profile_data, _validate_table_name, from_table in Hps.
    rewrite Ht in Hps. simpl in Hps.
    apply (profile_columns_describe num t (columns t) ps Hps).
  - unfold profile_table, profile_data, bind.
    rewrite (validate_missing_table _ _ Ht). reflexivity.
Qed.

(** X15.  For every column of a table, the null percentage the
    profiler reports is the metric a null check on that column returns, with
    any threshold. *)
Theorem profile_null_percentage_is_null_check_metric :
  forall numeric_of_text db tn t th,
    lookup_table db tn = Some t ->
    exists ps,
      profile_data numeric_of_text db tn = inr ps
      /\ forall p, In p ps ->
         exists r,
           _check_nulls db tn (p_column_name p) th = inr r
           /\ metric_value r = p_null_percentage p.
Proof.
  intros num db tn t th Ht.
  destruct (profile_data_spec num db tn t Ht) as (ps & Hps & _ & Hall).
  exists ps. split; [exact Hps|].
  intros p Hin. destruct (Hall p Hin) as (c & vs & _ & Hvs & _ & ->).
  destruct (profile_column_counts num (length (rows t)) c vs) as (Hn & _).
  destruct (profile_column_percentages num (length (rows t)) c vs) as [Hnp _].
  rewrite Hn, Hnp.
  unfold _check_nulls, bind.
  rewrite (validate_existing_table _ _ _ Ht), (proj2 (from_table_inr _ _ _) Ht), Hvs.
  eexists. split; reflexivity.
Qed.

Lemma profile_null_percentage_is_null_check_metric_witness :
  lookup_table sample_db "codes"
  = Some (column_table "code" "TEXT" [VText "123"; VText "12a"; VText ""; VNull])
  /\ exists ps, profile_data (fun _ => 0%Q) sample_db "codes" = inr ps.
Proof.
  assert (H : lookup_table sample_db "codes"
              = Some (column_table "code" "TEXT"
                        [VText "123"; VText "12a"; VText ""; VNull])) by reflexivity.
  split; [exact H|].
  destruct (profile_null_percentage_is_null_check_metric
              (fun _ => 0%Q) sample_db "codes" _ 5%Q H) as (ps & Hps & _).
  exists ps. exact Hps.
Defined.

(** X16.  The null percentage and the unique percentage of every
    profile lie between 0 and 100. *)
Theorem profile_percentages_between_0_and_100 :
  forall numeric_of_text db tn t,
    lookup_table db tn = Some t ->
    exists ps,
      profile_data numeric_of_text db tn = inr ps
      /\ forall p, In p ps ->
         (0 <= p_null_percentage p)%Q /\ (p_null_percentage p <= 100)%Q
         /\ (0 <= p_unique_percentage p)%Q /\ (p_unique_percentage p <= 100)%Q.
Proof.
  intros num db tn t Ht.
  destruct (profile_data_spec num db tn t Ht) as (ps & Hps & _ & Hall).
  exists ps. split; [exact Hps|].
  intros p Hin. destruct (Hall p Hin) as (c & vs & _ & Hvs & Hlen & ->).
  destruct (profile_column_percentages num (length (rows t)) c vs) as [Hnp Hup].
  rewrite Hnp, Hup, <- Hlen.
  pose proof (count_where_le is_null_or_empty vs) as H1.
  pose proof (count_distinct_le_not_null vs) as H2.
  pose proof (count_where_le is_not_null vs) as H3.
  destruct (guarded_pct_bounds _ _ H1) as [Ha Hb].
  destruct (guarded_pct_bounds (count_distinct_not_null vs) (length vs)) as [Hc Hd];
    [lia|].
  auto.
Qed.

Lemma profile_percentages_between_0_and_100_witness :
  lookup_table sample_db "tags"
  = Some (column_table "tag" "TEXT"
            [VText "a"; VText "a"; VText "a"; VText "b"; VText "c"])
  /\ exists ps, profile_data (fun _ => 0%Q) sample_db "tags" = inr ps.
Proof.
  assert (H : lookup_table sample_db "tags"
              = Some (column_table "tag" "TEXT"
                        [VText "a"; VText "a"; VText "a"; VText "b"; VText "c"]))
    by reflexivity.
  split; [exact H|].
  destruct (profile_percentages_between_0_and_100 (fun _ => 0%Q) sample_db "tags" _ H)
    as (ps & Hps & _).
  exists ps. exact Hps.
Defined.

(** ** Extrema and mean *)

Lemma fold_min_int (zs : list Z) (m : Z) :
  fold_left (fun m w => if value_leb w m then w else m) (map VInt zs) (VInt m)
  = VInt (fold_left Z.min zs m).
Proof.
  revert m. induction zs as [|z zs IH]; intros m; simpl; [reflexivity|].
  destruct (Z.leb_spec z m).
  - rewrite IH. f_equal. f_equal. lia.
  - rewrite IH. f_equal. f_equal. lia.
Qed.

Lemma fold_max_int (zs : list Z) (m : Z) :
  fold_left (fun m w => if value_leb m w then w else m) (map VInt zs) (VInt m)
  = VInt (fold_left Z.max zs m).
Proof.
  revert m. induction zs as [|z zs IH]; intros m; simpl; [reflexivity|].
  destruct (Z.leb_spec m z).
  - rewrite IH. f_equal. f_equal. lia.
  - rewrite IH. f_equal. f_equal. lia.
Qed.

Lemma fold_min_spec (zs : list Z) (m : Z) :
  (fold_left Z.min zs m <= m)%Z
  /\ (forall z, In z zs -> (fold_left Z.min zs m <= z)%Z)
  /\ (fold_left Z.min zs m = m \/ In (fold_left Z.min zs m) zs).
Proof.
  revert m. induction zs as [|z zs IH]; intros m; simpl.
  - split; [lia|]. split; [intros z []|left; reflexivity].
  - destruct (IH (Z.min m z)) as (H1 & H2 & H3).
    split; [lia|]. split.
    + intros w [<-|Hw]; [lia|apply H2; exact Hw].
    + destruct H3 as [H3|H3]; [|right; right; exact H3].
      destruct (Z.min_spec m z) as [[_ E]|[_ E]].
      * left. rewrite H3. exact E.
      * right. left. rewrite H3. symmetry. exact E.
Qed.

Lemma fold_max_spec (zs : list Z) (m : Z) :
  (m <= fold_left Z.max zs m)%Z
  /\ (forall z, In z zs -> (z <= fold_left Z.max zs m)%Z)
  /\ (fold_left Z.max zs m = m \/ In (fold_left Z.max zs m) zs).
Proof.
  revert m. induction zs as [|z zs IH]; intros m; simpl.
  - split; [lia|]. split; [intros z []|left; reflexivity].
  - destruct (IH (Z.max m z)) as (H1 & H2 & H3).
    split; [lia|]. split.
    + intros w [<-|Hw]; [lia|apply H2; exact Hw].
    + destruct H3 as [H3|H3]; [|right; right; exact H3].
      destruct (Z.max_spec m z) as [[_ E]|[_ E]].
      * right. left. rewrite H3. symmetry. exact E.
      * left. rewrite H3. exact E.
Qed.

Lemma Q_of_nat_succ (n : nat) : (Q_of_nat (S n) == Q_of_nat n + 1)%Q.
Proof.
  unfold Q_of_nat. rewrite Nat2Z.inj_succ. unfold Z.succ.
  rewrite inject_Z_plus. reflexivity.
Qed.

Lemma Qsum_between (lo hi : Q) (xs : list Q) :
  Forall (fun x => lo <= x /\ x <= hi)%Q xs ->
  (lo * Q_of_nat (length xs) <= Qsum xs)%Q
  /\ (Qsum xs <= hi * Q_of_nat (length xs))%Q.
Proof.
  induction 1 as [|x xs [Hlo Hhi] _ [IHlo IHhi]].
  - simpl. split; rewrite Qmult_0_r; apply Qle_refl.
  - cbn [length Qsum fold_right]. fold (Qsum xs). rewrite Q_of_nat_succ. split.
    + setoid_replace (lo * (Q_of_nat (length xs) + 1))%Q
        with (lo + lo * Q_of_nat (length xs))%Q by ring.
      apply Qplus_le_compat; assumption.
    + setoid_replace (hi * (Q_of_nat (length xs) + 1))%Q
        with (hi + hi * Q_of_nat (length xs))%Q by ring.
      apply Qplus_le_compat; assumption.
Qed.

(** The mean of a non-empty list lies between any lower and upper bound of
    its elements. *)
Lemma mean_between (lo hi : Q) (xs : list Q) :
  xs <> [] ->
  Forall (fun x => lo <= x /\ x <= hi)%Q xs ->
  (lo <= mean xs)%Q /\ (mean xs <= hi)%Q.
Proof.
  intros Hne Hall. destruct (Qsum_between lo hi xs Hall) as [Hlo Hhi].
  assert (Hpos : (0 < Q_of_nat (length xs))%Q).
  { apply Q_of_nat_pos. destruct xs; [congruence|simpl; lia]. }
  unfold mean. split.
  - apply Qle_shift_div_l; assumption.
  - apply Qle_shift_div_r; assumption.
Qed.

(** The extrema and the mean of a non-empty list of integer cells. *)
Lemma int_cells_stats (num : string -> Q) (zs : list Z) :
  zs <> [] ->
  exists mn mx,
    sql_min (map VInt zs) = VInt mn /\ sql_max (map VInt zs) = VInt mx
    /\ In mn zs /\ In mx zs
    /\ (forall z, In z zs -> (mn <= z <= mx)%Z)
    /\ sql_avg (map (sql_num num) (map VInt zs)) = Some (mean (map inject_Z zs))
    /\ (inject_Z mn <= mean (map inject_Z zs))%Q
    /\ (mean (map inject_Z zs) <= inject_Z mx)%Q.
Proof.
  intros Hne. destruct zs as [|z0 zs]; [congruence|].
  exists (fold_left Z.min zs z0), (fold_left Z.max zs z0).
  destruct (fold_min_spec zs z0) as (Hn1 & Hn2 & Hn3).
  destruct (fold_max_spec zs z0) as (Hx1 & Hx2 & Hx3).
  assert (Hbounds : forall z, In z (z0 :: zs) ->
                    (fold_left Z.min zs z0 <= z <= fold_left Z.max zs z0)%Z).
  { intros z [<-|Hz]; [lia|]. split; [apply Hn2|apply Hx2]; exact Hz. }
  split; [simpl; apply fold_min_int|].
  split; [simpl; apply fold_max_int|].
  split; [destruct Hn3 as [->|H]; [left; reflexivity|right; exact H]|].
  split; [destruct Hx3 as [->|H]; [left; reflexivity|right; exact H]|].
  split; [exact Hbounds|].
  assert (Hmap : map (sql_num num) (map VInt (z0 :: zs)) = map inject_Z (z0 :: zs)).
  { rewrite map_map. reflexivity. }
  rewrite Hmap. split; [apply sql_avg_mean; discriminate|].
  apply mean_between; [discriminate|].
  apply Forall_forall. intros x Hx. apply in_map_iff in Hx.
  destruct Hx as (z & <- & Hz). destruct (Hbounds z Hz).
  split; rewrite <- Zle_Qle; assumption.
Qed.

Lemma not_null_ints (vs : list value) :
  forallb is_null_or_int vs = true ->
  exists zs,
    filter is_not_null vs = map VInt zs
    /\ forall z, In z zs <-> In (VInt z) vs.
Proof.
  induction vs as [|v vs IH]; simpl; intros H.
  - exists []. split; [reflexivity|]. intros z. simpl. tauto.
  - apply andb_true_iff in H. destruct H as [Hv Hvs].
    destruct (IH Hvs) as (zs & Hf & Hin).
    destruct v as [|z0|s]; simpl; [| |discriminate].
    + exists zs. split; [exact Hf|]. intros z. rewrite Hin.
      split; [auto|intros [H|H]; [discriminate|exact H]].
    + exists (z0 :: zs). split; [simpl; rewrite Hf; reflexivity|].
      intros z. simpl. rewrite Hin.
      split; intros [H|H]; auto; [left; congruence|left; inversion H; reflexivity].
Qed.

Lemma profile_column_numeric_extrema (num : string -> Q) (total : nat)
      (c : string * string) (vs : list value) :
  existsb (String.eqb (snd c)) numeric_types = true ->
  let p := profile_column num total c vs in
  p_min_value p = sql_min (filter is_not_null vs)
  /\ p_max_value p = sql_max (filter is_not_null vs).
Proof.
  intros H. unfold profile_column. rewrite H. simpl. split; reflexivity.
Qed.

Lemma profile_column_text (num : string -> Q) (total : nat)
      (c : string * string) (vs : list value) :
  existsb (String.eqb (snd c)) numeric_types = false ->
  String.eqb (snd c) "TEXT" = true ->
  let p := profile_column num total c vs in
  let lengths := map sql_length (filter is_not_null vs) in
  p_min_value p = sql_min lengths /\ p_max_value p = sql_max lengths
  /\ p_avg_value p = sql_avg (map (sql_num num) lengths)
  /\ p_std_dev p = None.
Proof.
  intros H1 H2. unfold profile_column. rewrite H1, H2. simpl. repeat split.
Qed.

Lemma profile_column_other (num : string -> Q) (total : nat)
      (c : string * string) (vs : list value) :
  existsb (String.eqb (snd c)) numeric_types = false ->
  String.eqb (snd c) "TEXT" = false ->
  let p := profile_column num total c vs in
  p_min_value p = VNull /\ p_max_value p = VNull
  /\ p_avg_value p = None /\ p_std_dev p = None.
Proof.
  intros H1 H2. unfold profile_column. rewrite H1, H2. simpl. repeat split.
Qed.

(** X17.  For a column of a numeric type whose cells are integers
    or NULL, with at least one integer, the profiler's minimum and maximum
    are cells of the column and bound every integer of it. *)
Theorem numeric_profile_min_max :
  forall numeric_of_text db tn t,
    lookup_table db tn = Some t ->
    exists ps,
      profile_data numeric_of_text db tn = inr ps
      /\ forall i name ty,
          nth_error (columns t) i = Some (name, ty) ->
          existsb (String.eqb ty) numeric_types = true ->
          exists p vs,
            nth_error ps i = Some p
            /\ p_column_name p = name
            /\ select_column "" t name = inr vs
            /\ (forallb is_null_or_int vs = true ->
                filter is_not_null vs <> [] ->
                exists mn mx,
                  p_min_value p = VInt mn /\ p_max_value p = VInt mx
                  /\ In (VInt mn) vs /\ In (VInt mx) vs
                  /\ (forall z, In (VInt z) vs -> (mn <= z <= mx)%Z)).
Proof.
  intros num db tn t Ht.
  destruct (profile_data_nth num db tn t Ht) as (ps & Hps & _ & Hnth).
  exists ps. split; [exact Hps|].
  intros i name ty Hi Hnum.
  destruct (Hnth i (name, ty) Hi) as (vs & Hvs & Hp). simpl in Hvs.
  destruct (profile_column_counts num (length (rows t)) (name, ty) vs) as (Hn & _).
  destruct (profile_column_numeric_extrema num (length (rows t)) (name, ty) vs Hnum)
    as [Hmin Hmax].
  eexists. exists vs. split; [exact Hp|]. split; [exact Hn|]. split; [exact Hvs|].
  intros Hint Hne. destruct (not_null_ints vs Hint) as (zs & Hzs & Hmem).
  cbv zeta in Hmin, Hmax. rewrite Hzs in Hne, Hmin, Hmax.
  assert (Hzne : zs <> []) by (intros ->; apply Hne; reflexivity).
  destruct (int_cells_stats num zs Hzne)
    as (mn & mx & Hmn & Hmx & Hinmn & Hinmx & Hb & _).
  exists mn, mx. rewrite Hmin, Hmax.
  repeat split; try assumption; try (apply Hmem; assumption);
    apply Hb; apply Hmem; assumption.
Qed.

Lemma numeric_profile_min_max_witness :
  lookup_table sample_db "people"
  = Some (column_table "age" "INTEGER" [VInt 25; VInt 150; VInt (-5); VInt 40])
  /\ exists ps p,
      profile_data (fun _ => 0%Q) sample_db "people" = inr ps
      /\ nth_error ps 0 = Some p
      /\ exists mn mx, p_min_value p = VInt mn /\ p_max_value p = VInt mx
                       /\ (mn <= 25 <= mx)%Z.
Proof.
  assert (H : lookup_table sample_db "people"
              = Some (column_table "age" "INTEGER"
                        [VInt 25; VInt 150; VInt (-5); VInt 40])) by reflexivity.
  split; [exact H|].
  destruct (numeric_profile_min_max (fun _ => 0%Q) sample_db "people" _ H)
    as (ps & Hps & Hcols).
  destruct (Hcols 0%nat "age" "INTEGER" eq_refl eq_refl)
    as (p & vs & Hp & _ & Hvs & Hstats).
  simpl in Hvs. inversion Hvs; subst vs; clear Hvs.
  destruct Hstats as (mn & mx & Hmn & Hmx & _ & _ & Hb); [reflexivity|discriminate|].
  exists ps, p. split; [exact Hps|]. split; [exact Hp|].
  exists mn, mx. split; [exact Hmn|]. split; [exact Hmx|].
  apply Hb. left. reflexivity.
Defined.

(** X18.  For a column declared TEXT the profiler measures
    lengths, not values: with at least one non-null cell, its minimum and
    maximum are the least and the greatest length of the text of a non-null
    cell, the average lies between them, and there is no standard
    deviation. *)
Theorem text_profile_measures_lengths :
  forall numeric_of_text db tn t,
    lookup_table db tn = Some t ->
    exists ps,
      profile_data numeric_of_text db tn = inr ps
      /\ forall p,
          In p ps ->
          p_data_type p = "TEXT" ->
          exists vs,
            select_column "" t (p_column_name p) = inr vs
            /\ p_std_dev p = None
            /\ (filter is_not_null vs <> [] ->
                exists mn mx a,
                  p_min_value p = VInt (Z.of_nat mn)
                  /\ p_max_value p = VInt (Z.of_nat mx)
                  /\ p_avg_value p = Some a
                  /\ (exists v, In v vs /\ is_not_null v = true
                                /\ String.length (py_str v) = mn)
                  /\ (exists v, In v vs /\ is_not_null v = true
                                /\ String.length (py_str v) = mx)
                  /\ (forall v, In v vs -> is_not_null v = true ->
                                (mn <= String.length (py_str v) <= mx)%nat)
                  /\ (Q_of_nat mn <= a)%Q /\ (a <= Q_of_nat mx)%Q).
Proof.
  intros num db tn t Ht.
  destruct (profile_data_spec num db tn t Ht) as (ps & Hps & _ & Hall).
  exists ps. split; [exact Hps|].
  intros p Hin Htext. destruct (Hall p Hin) as (c & vs & _ & Hvs & _ & ->).
  destruct (profile_column_counts num (length (rows t)) c vs) as (Hn & Hty & _).
  rewrite Hty in Htext. rewrite Hn.
  assert (H1 : existsb (String.eqb (snd c)) numeric_types = false)
    by (rewrite Htext; reflexivity).
  assert (H2 : String.eqb (snd c) "TEXT" = true) by (rewrite Htext; reflexivity).
  destruct (profile_column_text num (length (rows t)) c vs H1 H2)
    as (Hmin & Hmax & Havg & Hsd).
  exists vs. split; [exact Hvs|]. split; [exact Hsd|].
  intros Hne.
  set (nonnull := filter is_not_null vs) in *.
  set (zs := map (fun v => Z.of_nat (String.length (py_str v))) nonnull).
  assert (Hlen : map sql_length nonnull = map VInt zs).
  { unfold zs. rewrite map_map. reflexivity. }
  rewrite Hlen in Hmin, Hmax, Havg.
  assert (Hzne : zs <> []).
  { unfold zs. destruct nonnull; [congruence|discriminate]. }
  destruct (int_cells_stats num zs Hzne)
    as (mn & mx & Hmn & Hmx & Hinmn & Hinmx & Hb & Ha & Hlo & Hhi).
  unfold zs in Hinmn, Hinmx. apply in_map_iff in Hinmn, Hinmx.
  destruct Hinmn as (vmn & Emn & Hvmn). destruct Hinmx as (vmx & Emx & Hvmx).
  unfold nonnull in Hvmn, Hvmx. apply filter_In in Hvmn, Hvmx.
  exists (String.length (py_str vmn)), (String.length (py_str vmx)),
         (mean (map inject_Z zs)).
  rewrite Hmin, Hmax, Havg, Hmn, Hmx, Ha, Emn, Emx.
  split; [reflexivity|]. split; [reflexivity|]. split; [reflexivity|].
  split; [exists vmn; tauto|]. split; [exists vmx; tauto|].
  split.
  - intros v Hv Hnn.
    assert (Hz : In (Z.of_nat (String.length (py_str v))) zs).
    { unfold zs.
      apply (in_map (fun v0 => Z.of_nat (String.length (py_str v0)))).
      unfold nonnull. apply filter_In. tauto. }
    specialize (Hb _ Hz). lia.
  - unfold Q_of_nat. rewrite Emn, Emx. tauto.
Qed.

Lemma text_profile_measures_lengths_witness :
  lookup_table sample_db "codes"
  = Some (column_table "code" "TEXT" [VText "123"; VText "12a"; VText ""; VNull])
  /\ exists ps, profile_data (fun _ => 0%Q) sample_db "codes" = inr ps.
Proof.
  assert (H : lookup_table sample_db "codes"
              = Some (column_table "code" "TEXT"
                        [VText "123"; VText "12a"; VText ""; VNull])) by reflexivity.
  split; [exact H|].
  destruct (text_profile_measures_lengths (fun _ => 0%Q) sample_db "codes" _ H)
    as (ps & Hps & _).
  exists ps. exact Hps.
Defined.

(** X19.  The profiler leaves minimum, maximum, average and standard
    deviation unset for every column whose declared type is not exactly
    INTEGER, REAL, DECIMAL or TEXT (for instance DATE or DECIMAL(10,2)), and
    for a numeric or TEXT column without a non-null cell. *)
Theorem profile_statistics_unset :
  forall numeric_of_text db tn t,
    lookup_table db tn = Some t ->
    exists ps,
      profile_data numeric_of_text db tn = inr ps
      /\ forall p,
          In p ps ->
          exists vs,
            select_column "" t (p_column_name p) = inr vs
            /\ ((~ In (p_data_type p) ["INTEGER"; "REAL"; "DECIMAL"; "TEXT"]
                 \/ filter is_not_null vs = []) ->
                p_min_value p = VNull /\ p_max_value p = VNull
                /\ p_avg_value p = None /\ p_std_dev p = None).
Proof.
  intros num db tn t Ht.
  destruct (profile_data_spec num db tn t Ht) as (ps & Hps & _ & Hall).
  exists ps. split; [exact Hps|].
  intros p Hin. destruct (Hall p Hin) as (c & vs & _ & Hvs & _ & ->).
  destruct (profile_column_counts num (length (rows t)) c vs) as (Hn & Hty & _).
  rewrite Hn, Hty. exists vs. split; [exact Hvs|].
  destruct (existsb (String.eqb (snd c)) numeric_types) eqn:H1.
  - intros [Hno|Hnil].
    + exfalso. apply Hno. apply existsb_exists in H1.
      destruct H1 as (s & Hs & Heq). apply String.eqb_eq in Heq. subst s.
      simpl in Hs. simpl. tauto.
    + destruct (profile_column_numeric num (length (rows t)) c vs H1) as [Havg Hsd].
      destruct (profile_column_numeric_extrema num (length (rows t)) c vs H1)
        as [Hmin Hmax].
      rewrite Hmin, Hmax, Havg, Hsd, Hnil. repeat split.
  - destruct (String.eqb (snd c) "TEXT") eqn:H2.
    + intros [Hno|Hnil].
      * exfalso. apply Hno. apply String.eqb_eq in H2. rewrite H2. simpl. tauto.
      * destruct (profile_column_text num (length (rows t)) c vs H1 H2)
          as (Hmin & Hmax & Havg & Hsd).
        rewrite Hmin, Hmax, Havg, Hsd, Hnil. repeat split.
    + intros _. apply (profile_column_other num (length (rows t)) c vs H1 H2).
Qed.

Lemma profile_statistics_unset_witness :
  lookup_table sample_db "empty" = Some (column_table "x" "INTEGER" [])
  /\ exists ps, profile_data (fun _ => 0%Q) sample_db "empty" = inr ps.
Proof.
  assert (H : lookup_table sample_db "empty" = Some (column_table "x" "INTEGER" []))
    by reflexivity.
  split; [exact H|].
  destruct (profile_statistics_unset (fun _ => 0%Q) sample_db "empty" _ H)
    as (ps & Hps & _).
  exists ps. exact Hps.
Defined.

(* ------------------------------------------------------------------ *)
(** * Properties of the summary *)

(** ** The order of texts *)

Lemma string_compare_refl (a : string) : String.compare a a = Eq.
Proof. apply OrderedTypeEx.String_as_OT.cmp_eq. reflexivity. Qed.

Lemma string_ltb_trans (a b c : string) :
  String.ltb a b = true -> String.ltb b c = true -> String.ltb a c = true.
Proof.
  unfold String.ltb. intros Hab Hbc.
  destruct (String.compare a b) eqn:E1; try discriminate.
  destruct (String.compare b c) eqn:E2; try discriminate.
  apply OrderedTypeEx.String_as_OT.cmp_lt in E1, E2.
  pose proof (OrderedTypeEx.String_as_OT.lt_trans _ _ _ E1 E2) as H.
  apply OrderedTypeEx.String_as_OT.cmp_lt in H.
  unfold OrderedTypeEx.String_as_OT.cmp in H. rewrite H. reflexivity.
Qed.

Lemma string_ltb_irrefl (a : string) : String.ltb a a = false.
Proof. unfold String.ltb. rewrite string_compare_refl. reflexivity. Qed.

Lemma string_leb_ltb (a b : string) :
  String.leb a b = true -> String.eqb a b = false -> String.ltb a b = true.
Proof.
  unfold String.leb, String.ltb. intros Hle Hne.
  destruct (String.compare a b) eqn:E; try discriminate; [|reflexivity].
  apply String.compare_eq_iff in E. apply String.eqb_neq in Hne. contradiction.
Qed.

Lemma string_not_leb_ltb (a b : string) :
  String.leb a b = false -> String.ltb b a = true.
Proof.
  unfold String.leb, String.ltb. rewrite (String.compare_antisym b a).
  destruct (String.compare a b); simpl; try discriminate. reflexivity.
Qed.

Lemma string_ltb_leb (a b : string) :
  String.ltb a b = true -> String.leb a b = true.
Proof.
  unfold String.leb, String.ltb. destruct (String.compare a b); try discriminate;
    reflexivity.
Qed.

Lemma string_leb_refl (a : string) : String.leb a a = true.
Proof. unfold String.leb. rewrite string_compare_refl. reflexivity. Qed.

Lemma string_leb_trans (a b c : string) :
  String.leb a b = true -> String.leb b c = true -> String.leb a c = true.
Proof.
  intros Hab Hbc.
  destruct (String.eqb a b) eqn:E1; [apply String.eqb_eq in E1; subst; exact Hbc|].
  destruct (String.eqb b c) eqn:E2; [apply String.eqb_eq in E2; subst; exact Hab|].
  apply string_ltb_leb.
  eapply string_ltb_trans; apply string_leb_ltb; eassumption.
Qed.

(** ** Grouping *)

Lemma insert_key_In (k x : string) (ks : list string) :
  In k (insert_key x ks) <-> k = x \/ In k ks.
Proof.
  induction ks as [|k' ks IH]; simpl; [intuition|].
  destruct (String.eqb x k') eqn:E.
  - apply String.eqb_eq in E. subst k'. simpl. intuition.
  - destruct (String.leb x k'); simpl; [intuition|].
    rewrite IH. intuition.
Qed.

Lemma insert_key_ascending (x : string) (ks : list string) :
  strictly_ascending ks -> strictly_ascending (insert_key x ks).
Proof.
  unfold strictly_ascending.
  induction ks as [|k' ks IH]; simpl; intros Hs.
  - constructor; constructor.
  - inversion Hs as [|? ? Hs' Hall]; subst.
    destruct (String.eqb x k') eqn:E; [exact Hs|].
    destruct (String.leb x k') eqn:L.
    + pose proof (string_leb_ltb _ _ L E) as Hlt.
      constructor; [exact Hs|]. constructor; [exact Hlt|].
      eapply Forall_impl; [|exact Hall]. intros k Hk.
      eapply string_ltb_trans; eassumption.
    + pose proof (string_not_leb_ltb _ _ L) as Hlt.
      constructor; [apply IH; exact Hs'|].
      apply Forall_forall. intros k Hk. apply insert_key_In in Hk.
      destruct Hk as [->|Hk]; [exact Hlt|].
      rewrite Forall_forall in Hall. apply Hall. exact Hk.
Qed.

Lemma group_keys_In (k : string) (keys : list string) :
  In k (group_keys keys) <-> In k keys.
Proof.
  unfold group_keys. induction keys as [|x keys IH]; simpl; [tauto|].
  rewrite insert_key_In, IH. intuition.
Qed.

Lemma group_keys_ascending (keys : list string) :
  strictly_ascending (group_keys keys).
Proof.
  unfold group_keys. induction keys as [|x keys IH]; simpl.
  - constructor.
  - apply insert_key_ascending. exact IH.
Qed.

Lemma strictly_ascending_NoDup (ks : list string) :
  strictly_ascending ks -> NoDup ks.
Proof.
  unfold strictly_ascending. induction 1 as [|k ks _ IH Hall]; constructor; [|exact IH].
  intros Hin. rewrite Forall_forall in Hall. specialize (Hall k Hin).
  rewrite string_ltb_irrefl in Hall. discriminate.
Qed.

Lemma list_sum_cons (x : nat) (l : list nat) :
  list_sum (x :: l) = (x + list_sum l)%nat.
Proof. reflexivity. Qed.

Section Groups.

Variable A : Type.
Variable key : A -> string.

Lemma one_group_per_row (x : string) (ks : list string) :
  NoDup ks -> In x ks ->
  list_sum (map (fun k => if String.eqb x k then 1 else 0)%nat ks) = 1%nat.
Proof.
  induction 1 as [|k ks Hnotin Hnd IH]; simpl; intros Hin; [contradiction|].
  destruct (String.eqb x k) eqn:E.
  - apply String.eqb_eq in E. subst k.
    assert (Hz : list_sum (map (fun k => if String.eqb x k then 1 else 0)%nat ks) = 0%nat).
    { clear IH Hin Hnd. induction ks as [|k ks IHk]; simpl; [reflexivity|].
      destruct (String.eqb x k) eqn:E.
      - apply String.eqb_eq in E. subst k. exfalso. apply Hnotin. left. reflexivity.
      - apply IHk. intros H. apply Hnotin. right. exact H. }
    rewrite Hz. reflexivity.
  - destruct Hin as [->|Hin]; [rewrite String.eqb_refl in E; discriminate|].
    simpl. apply IH. exact Hin.
Qed.

(** Groups partition the rows: their sizes add up to the number of rows. *)
Lemma groups_partition (rows : list A) (ks : list string) :
  NoDup ks ->
  (forall r, In r rows -> In (key r) ks) ->
  list_sum (map (fun k => length (group A key rows k)) ks) = length rows.
Proof.
  intros Hnd. induction rows as [|r rows IH]; intros Hin.
  - simpl. induction ks as [|k ks IHk]; simpl; [reflexivity|].
    inversion Hnd; subst. apply IHk; [assumption|]. intros r [].
  - assert (Hstep : forall ks',
               list_sum (map (fun k => length (group A key (r :: rows) k)) ks')
               = (list_sum (map (fun k => if String.eqb (key r) k then 1 else 0)%nat ks')
                  + list_sum (map (fun k => length (group A key rows k)) ks'))%nat).
    { induction ks' as [|k ks' IHk]; [reflexivity|].
      rewrite !map_cons, !list_sum_cons, IHk.
      unfold group at 1. cbn [filter].
      fold (group A key rows k).
      destruct (String.eqb (key r) k); cbn [length]; lia. }
    rewrite Hstep, IH.
    + rewrite (one_group_per_row (key r) ks Hnd); [reflexivity|].
      apply Hin. left. reflexivity.
    + intros r' Hr'. apply Hin. right. exact Hr'.
Qed.

Lemma group_nonempty (rows : list A) (k : string) :
  In k (map key rows) -> group A key rows k <> [].
Proof.
  intros Hin. apply in_map_iff in Hin. destruct Hin as (r & Hk & Hr).
  intros Hnil.
  assert (Hg : In r (group A key rows k)).
  { unfold group. apply filter_In. split; [exact Hr|]. apply String.eqb_eq. exact Hk. }
  rewrite Hnil in Hg. contradiction.
Qed.

End Groups.

Lemma count_status_split (g : list logged_result) :
  (count_status PASS g + count_status FAIL g + count_status ERROR g = length g)%nat.
Proof.
  unfold count_status. induction g as [|r g IH]; simpl; [reflexivity|].
  destruct (row_status (logged r)); simpl; lia.
Qed.

(** X20.  The summary groups the checks of the last day by table
    without losing or repeating one: each table with a check in the window
    has exactly one record, the total counts add up to the number of checks
    in the window, every record counts at least one check and has an
    average, and in each record passed plus failed plus the checks with
    status ERROR is the total, so passed plus failed can fall short of the
    total. *)
Theorem summary_partitions_recent_checks :
  forall cutoff log,
    let rows := since cutoff log in
    let s := summary_query cutoff log in
    NoDup (map sum_table_name s)
    /\ (forall name, In name (map sum_table_name s)
                     <-> exists r, In r rows /\ row_table_name (logged r) = name)
    /\ list_sum (map sum_total_checks s) = length rows
    /\ Forall (fun e =>
                 (1 <= sum_total_checks e)%nat
                 /\ (sum_passed_checks e + sum_failed_checks e
                     + count_status ERROR
                         (group logged_result (fun r => row_table_name (logged r))
                                rows (sum_table_name e))
                     = sum_total_checks e)%nat
                 /\ (sum_passed_checks e + sum_failed_checks e <= sum_total_checks e)%nat
                 /\ exists a, sum_avg_metric_value e = Some a) s.
Proof.
  intros cutoff log rows s.
  set (key := fun r : logged_result => row_table_name (logged r)).
  set (ks := group_keys (map key rows)).
  assert (Hnames : map sum_table_name s = ks).
  { unfold s, summary_query. fold rows. fold key. fold ks.
    rewrite map_map. simpl. apply map_id. }
  pose proof (strictly_ascending_NoDup ks (group_keys_ascending _)) as Hnd.
  split; [rewrite Hnames; exact Hnd|].
  split.
  { intros name. rewrite Hnames. unfold ks. rewrite group_keys_In, in_map_iff.
    split; intros (r & H1 & H2); exists r; tauto. }
  split.
  { unfold s, summary_query. fold rows. fold key. fold ks. rewrite map_map. simpl.
    apply (groups_partition logged_result key rows ks Hnd).
    intros r Hr. unfold ks. apply group_keys_In. apply in_map. exact Hr. }
  unfold s, summary_query. fold rows. fold key. fold ks.
  apply Forall_forall. intros e He. apply in_map_iff in He.
  destruct He as (k & <- & Hk). unfold ks in Hk.
  apply (proj1 (group_keys_In _ _)) in Hk.
  pose proof (group_nonempty logged_result key rows k Hk) as Hne.
  unfold summarize_table. simpl.
  change (filter (fun r0 : logged_result => String.eqb (row_table_name (logged r0)) k) rows)
    with (group logged_result key rows k).
  pose proof (count_status_split (group logged_result key rows k)) as Hsplit.
  destruct (group logged_result key rows k) as [|r g] eqn:Hg; [congruence|].
  split; [simpl; lia|]. split; [lia|]. split; [lia|].
  eexists. reflexivity.
Qed.

(** X21.  When the metrics of the log lie between 0 and 100, as
    those of the rows the engine stores do, the average metric of every
    record of the summary is a number between 0 and 100. *)
Theorem summary_average_between_0_and_100 :
  forall cutoff log,
    Forall (fun r => (0 <= row_metric_value (logged r))%Q
                     /\ (row_metric_value (logged r) <= 100)%Q) log ->
    Forall (fun e => exists a,
                sum_avg_metric_value e = Some a /\ (0 <= a)%Q /\ (a <= 100)%Q)
           (summary_query cutoff log).
Proof.
  intros cutoff log Hall.
  unfold summary_query.
  set (rows := since cutoff log).
  set (key := fun r : logged_result => row_table_name (logged r)).
  apply Forall_forall. intros e He. apply in_map_iff in He.
  destruct He as (k & <- & Hk). apply (proj1 (group_keys_In _ _)) in Hk.
  pose proof (group_nonempty logged_result key rows k Hk) as Hne.
  unfold summarize_table. simpl.
  change (filter (fun r0 : logged_result => String.eqb (row_table_name (logged r0)) k) rows)
    with (group logged_result key rows k).
  set (g := group logged_result key rows k) in *.
  assert (Hg : Forall (fun r => (0 <= row_metric_value (logged r))%Q
                                /\ (row_metric_value (logged r) <= 100)%Q) g).
  { rewrite Forall_forall in *. intros r Hr. apply Hall.
    unfold g, group in Hr. apply filter_In in Hr. destruct Hr as [Hr _].
    unfold rows, since in Hr. apply filter_In in Hr. tauto. }
  assert (Hmne : map (fun r => row_metric_value (logged r)) g <> []).
  { destruct g; [congruence|discriminate]. }
  exists (mean (map (fun r => row_metric_value (logged r)) g)).
  split; [apply sql_avg_mean; exact Hmne|].
  apply mean_between; [exact Hmne|].
  apply Forall_forall. intros x Hx. apply in_map_iff in Hx.
  destruct Hx as (r & <- & Hr). rewrite Forall_forall in Hg. apply Hg. exact Hr.
Qed.

Lemma summary_average_between_0_and_100_witness :
  Forall (fun r => (0 <= row_metric_value (logged r))%Q
                   /\ (row_metric_value (logged r) <= 100)%Q) sample_log
  /\ Forall (fun e => exists a,
                 sum_avg_metric_value e = Some a /\ (0 <= a)%Q /\ (a <= 100)%Q)
            (summary_query "2024-05-01 00:00:00" sample_log).
Proof.
  assert (H : Forall (fun r => (0 <= row_metric_value (logged r))%Q
                               /\ (row_metric_value (logged r) <= 100)%Q) sample_log).
  { repeat constructor; simpl; unfold Qle; simpl; lia. }
  split; [exact H|].
  exact (summary_average_between_0_and_100 "2024-05-01 00:00:00" sample_log H).
Defined.

Example summary_of_sample_log :
  map (fun e => (sum_table_name e, sum_total_checks e,
                 sum_passed_checks e, sum_failed_checks e))
      (summary_query "2024-05-01 00:00:00" sample_log)
  = [("people", 2%nat, 0%nat, 1%nat); ("tags", 1%nat, 1%nat, 0%nat)]
  /\ map (fun e => (trend_check_date e, trend_total_checks e, trend_passed_checks e))
         (trends_query "2024-05-02 00:00:00" sample_log)
     = [("2024-05-02", 2%nat, 1%nat)].
Proof. split; reflexivity. Qed.

(** X22.  The trends list the days of the last thirty days that have
    a check, each once, in strictly ascending order of the day; their total
    counts add up to the number of checks in the window, and in each the
    passed count is at most the total, which is at least 1. *)
Theorem trends_are_ascending_and_partition :
  forall cutoff log,
    let rows := since cutoff log in
    let tr := trends_query cutoff log in
    strictly_ascending (map trend_check_date tr)
    /\ (forall day, In day (map trend_check_date tr)
                    <-> exists r, In r rows /\ sql_date (check_date r) = day)
    /\ list_sum (map trend_total_checks tr) = length rows
    /\ Forall (fun e => (1 <= trend_total_checks e)%nat
                        /\ (trend_passed_checks e <= trend_total_checks e)%nat) tr.
Proof.
  intros cutoff log rows tr.
  set (key := fun r : logged_result => sql_date (check_date r)).
  set (ks := group_keys (map key rows)).
  assert (Hnames : map trend_check_date tr = ks).
  { unfold tr, trends_query. fold rows. fold key. fold ks.
    rewrite map_map. simpl. apply map_id. }
  pose proof (group_keys_ascending (map key rows)) as Hasc. fold ks in Hasc.
  pose proof (strictly_ascending_NoDup ks Hasc) as Hnd.
  split; [rewrite Hnames; exact Hasc|].
  split.
  { intros day. rewrite Hnames. unfold ks. rewrite group_keys_In, in_map_iff.
    split; intros (r & H1 & H2); exists r; tauto. }
  split.
  { unfold tr, trends_query. fold rows. fold key. fold ks. rewrite map_map. simpl.
    apply (groups_partition logged_result key rows ks Hnd).
    intros r Hr. unfold ks. apply group_keys_In. apply in_map. exact Hr. }
  unfold tr, trends_query. fold rows. fold key. fold ks.
  apply Forall_forall. intros e He. apply in_map_iff in He.
  destruct He as (k & <- & Hk). unfold ks in Hk.
  apply (proj1 (group_keys_In _ _)) in Hk.
  pose proof (group_nonempty logged_result key rows k Hk) as Hne.
  unfold summarize_day. simpl.
  change (filter (fun r0 : logged_result => String.eqb (sql_date (check_date r0)) k) rows)
    with (group logged_result key rows k).
  pose proof (count_status_split (group logged_result key rows k)) as Hsplit.
  destruct (group logged_result key rows k) as [|r g] eqn:Hg; [congruence|].
  split; [simpl; lia|lia].
Qed.

(** ** The most recent failures *)

Lemma insert_desc_perm (r : logged_result) (rs : list logged_result) :
  Permutation (insert_desc r rs) (r :: rs).
Proof.
  induction rs as [|r' rs IH]; simpl; [apply Permutation_refl|].
  destruct (String.leb (check_date r') (check_date r)); [apply Permutation_refl|].
  eapply Permutation_trans; [apply perm_skip; exact IH|apply perm_swap].
Qed.

Lemma order_by_check_date_desc_perm (rs : list logged_result) :
  Permutation (order_by_check_date_desc rs) rs.
Proof.
  unfold order_by_check_date_desc. induction rs as [|r rs IH]; simpl; [constructor|].
  eapply Permutation_trans; [apply insert_desc_perm|]. apply perm_skip. exact IH.
Qed.

Lemma insert_desc_descending (r : logged_result) (rs : list logged_result) :
  descending rs -> descending (insert_desc r rs).
Proof.
  unfold descending. induction rs as [|r' rs IH]; simpl; intros Hs.
  - constructor; constructor.
  - inversion Hs as [|? ? Hs' Hall]; subst.
    destruct (String.leb (check_date r') (check_date r)) eqn:L.
    + constructor; [exact Hs|]. constructor; [exact L|].
      eapply Forall_impl; [|exact Hall]. intros x Hx. cbv beta in Hx.
      exact (string_leb_trans _ _ _ Hx L).
    + constructor; [apply IH; exact Hs'|].
      apply Forall_forall. intros x Hx.
      apply (Permutation_in _ (insert_desc_perm r rs)) in Hx.
      destruct Hx as [<-|Hx].
      * apply string_ltb_leb. apply string_not_leb_ltb. exact L.
      * rewrite Forall_forall in Hall. apply Hall. exact Hx.
Qed.

Lemma order_by_check_date_desc_descending (rs : list logged_result) :
  descending (order_by_check_date_desc rs).
Proof.
  unfold order_by_check_date_desc. induction rs as [|r rs IH]; simpl.
  - constructor.
  - apply insert_desc_descending. exact IH.
Qed.

Lemma in_firstn {A : Type} (n : nat) (l : list A) (x : A) :
  In x (firstn n l) -> In x l.
Proof.
  intros H. rewrite <- (firstn_skipn n l). apply in_or_app. left. exact H.
Qed.

Lemma in_skipn {A : Type} (n : nat) (l : list A) (x : A) :
  In x (skipn n l) -> In x l.
Proof.
  intros H. rewrite <- (firstn_skipn n l). apply in_or_app. right. exact H.
Qed.

Lemma descending_firstn_skipn (n : nat) (rs : list logged_result) :
  descending rs ->
  descending (firstn n rs)
  /\ forall x y, In x (firstn n rs) -> In y (skipn n rs) ->
                 String.leb (check_date y) (check_date x) = true.
Proof.
  unfold descending. revert rs. induction n as [|n IH]; intros rs Hs.
  - simpl. split; [constructor|]. intros x y [].
  - destruct rs as [|r rs]; simpl.
    + split; [constructor|]. intros x y [].
    + inversion Hs as [|? ? Hs' Hall]; subst.
      destruct (IH rs Hs') as [Hf Hcross].
      rewrite Forall_forall in Hall. split.
      * constructor; [exact Hf|]. apply Forall_forall. intros x Hx.
        apply Hall. eapply in_firstn; eassumption.
      * intros x y [<-|Hx] Hy.
        -- apply Hall. eapply in_skipn; eassumption.
        -- apply Hcross; assumption.
Qed.

(** X23.  The failed checks of the summary are rows of the log with
    status FAIL, at most ten and all of them when there are fewer, listed
    from the most recent to the oldest check date; no failed row that is
    left out has a later check date than a listed one. *)
Theorem failed_checks_are_the_most_recent :
  forall log,
    exists shown rest,
      failed_checks_query log = map failed_check_of shown
      /\ Permutation (shown ++ rest)%list (failed_rows log)
      /\ length shown = Nat.min 10 (length (failed_rows log))
      /\ Forall (fun r => In r log /\ row_status (logged r) = FAIL) shown
      /\ descending shown
      /\ forall x y, In x shown -> In y rest ->
                     String.leb (check_date y) (check_date x) = true.
Proof.
  intros log.
  set (sorted := order_by_check_date_desc (failed_rows log)).
  exists (firstn 10 sorted), (skipn 10 sorted).
  pose proof (order_by_check_date_desc_perm (failed_rows log)) as Hperm.
  fold sorted in Hperm.
  pose proof (order_by_check_date_desc_descending (failed_rows log)) as Hdesc.
  fold sorted in Hdesc.
  destruct (descending_firstn_skipn 10 sorted Hdesc) as [Hf Hcross].
  split; [reflexivity|].
  split; [rewrite firstn_skipn; exact Hperm|].
  split; [rewrite length_firstn, (Permutation_length Hperm); reflexivity|].
  split; [|split; [exact Hf|exact Hcross]].
  apply Forall_forall. intros r Hr.
  assert (Hin : In r (failed_rows log)).
  { apply (Permutation_in _ Hperm). eapply in_firstn; eassumption. }
  unfold failed_rows in Hin. apply filter_In in Hin. destruct Hin as [Hin Hs].
  split; [exact Hin|]. destruct (row_status (logged r)); try discriminate. reflexivity.
Qed.

(* ------------------------------------------------------------------ *)
(** * Properties of the routes *)

(** X24.  The run route answers 500 only when the stored
    configuration of an active rule is rejected by [json.loads]: its error
    is that message and nothing is stored.  Otherwise it answers 200,
    whatever the checkers do: a missing table, a missing column or a bad
    pattern becomes a stored ERROR row, never a 500. *)
Theorem run_route_answers :
  forall db store log,
    match run_checks db store log with
    | (Response200 results, log') =>
        configs_ok (fetch_active_rules store)
        /\ results = flat_map (results_of db) (fetch_active_rules store)
        /\ log' = (log ++ flat_map (rows_of db) (fetch_active_rules store))%list
    | (Response500 error, log') =>
        log' = log
        /\ ~ configs_ok (fetch_active_rules store)
        /\ exists rule,
            In rule (fetch_active_rules store)
            /\ rule_config rule = ConfigMalformed error
    end.
Proof.
  intros db store log. unfold run_checks, run_quality_checks.
  destruct (run_rules db (fetch_active_rules store) [] []) as [e|[results txn]] eqn:Hrun.
  - split; [reflexivity|]. split.
    + intros Hok. rewrite (run_rules_spec db _ Hok) in Hrun. discriminate Hrun.
    + destruct (run_rules_first_malformed _ _ _ _ _ Hrun)
        as (pre & rule & post & msg & Hsplit & _ & Hm & ->).
      exists rule. split; [|exact Hm].
      rewrite Hsplit. apply in_or_app. right. left. reflexivity.
  - pose proof (run_rules_inr_configs_ok _ _ _ _ _ Hrun) as Hok.
    rewrite (run_rules_spec db _ Hok) in Hrun. inversion Hrun; subst.
    split; [exact Hok|]. split; reflexivity.
Qed.

(* ------------------------------------------------------------------ *)
(** * The extremes of the null check and of the standard deviation *)


